(** * Duosmium MCP server: a shallow embedding of [src/server.ts]

    The server answers questions about Science Olympiad results.  Each
    tool handler loads one tournament record through the sciolyff
    interpreter, reads the interpreter's [teams], [events] and [placings]
    arrays and formats a text answer.  Two variants of the [search] tool
    exist: one over the remote catalog, one over the local corpus.

    A string is the Rocq string of its UTF-8 bytes; the numbers of a record
    (team numbers, ranks, points, places) are integers, printed as
    JavaScript prints a number; a [limit] argument and a score are
    rationals; [undefined] is [None].  What the external libraries do (the
    file system, the YAML parser, the sciolyff interpreter, Fuse.js, the
    two remote sources) is a parameter of the handlers. *)

From Stdlib Require Import ZArith QArith Qround Ascii String.
From stdpp Require Import base tactics option list sorting strings pretty.

Local Open Scope string_scope.
Local Open Scope Z_scope.

(** ** JavaScript string and array primitives used by the server *)

Module Js.

(** *** Strings as UTF-8

    A Rocq string holds the UTF-8 bytes of a JavaScript string (one
    without a lone surrogate).  Equality, concatenation, search for a
    substring and the tests on ASCII characters read the same on the bytes
    as on the code units.  Lower-casing, trimming and comparing look at
    the code points, so they decode the bytes first. *)

(** The UTF-8 bytes of a code point, in front of [rest]. *)
Definition utf8_encode_one (c : N) (rest : string) : string :=
  if (c <? 128)%N then String (ascii_of_N c) rest
  else if (c <? 2048)%N then
    String (ascii_of_N (192 + c / 64))
      (String (ascii_of_N (128 + c mod 64)) rest)
  else if (c <? 65536)%N then
    String (ascii_of_N (224 + c / 4096))
      (String (ascii_of_N (128 + (c / 64) mod 64))
         (String (ascii_of_N (128 + c mod 64)) rest))
  else
    String (ascii_of_N (240 + c / 262144))
      (String (ascii_of_N (128 + (c / 4096) mod 64))
         (String (ascii_of_N (128 + (c / 64) mod 64))
            (String (ascii_of_N (128 + c mod 64)) rest))).

Definition utf8_encode (points : list N) : string :=
  foldr utf8_encode_one EmptyString points.

(** The six payload bits of a continuation byte. *)
Definition continuation (b : ascii) : option N :=
  let n := N_of_ascii b in
  if ((128 <=? n) && (n <? 192))%N then Some (n - 128)%N else None.

(** A code point that a string can hold: no surrogate. *)
Definition scalar_value (c : N) : bool :=
  ((c <? 55296) || ((57344 <=? c) && (c <? 1114112)))%N.

(** The code points of a string, [None] when the bytes are not well-formed
    UTF-8 (no JavaScript string has such bytes). *)
Fixpoint utf8_decode (s : string) : option (list N) :=
  match s with
  | EmptyString => Some []
  | String b0 s1 =>
      let n0 := N_of_ascii b0 in
      if (n0 <? 128)%N then cons n0 <$> utf8_decode s1
      else
        match s1 with
        | EmptyString => None
        | String b1 s2 =>
            match continuation b1 with
            | None => None
            | Some n1 =>
                if (n0 <? 224)%N then
                  let c := ((n0 - 192) * 64 + n1)%N in
                  if ((192 <=? n0) && (128 <=? c))%N
                  then cons c <$> utf8_decode s2 else None
                else
                  match s2 with
                  | EmptyString => None
                  | String b2 s3 =>
                      match continuation b2 with
                      | None => None
                      | Some n2 =>
                          if (n0 <? 240)%N then
                            let c := ((n0 - 224) * 4096 + n1 * 64 + n2)%N in
                            if ((2048 <=? c)%N && scalar_value c)
                            then cons c <$> utf8_decode s3 else None
                          else
                            match s3 with
                            | EmptyString => None
                            | String b3 s4 =>
                                match continuation b3 with
                                | None => None
                                | Some n3 =>
                                    let c := ((n0 - 240) * 262144 + n1 * 4096
                                              + n2 * 64 + n3)%N in
                                    if ((n0 <? 248) && (65536 <=? c)
                                        && (c <? 1114112))%N
                                    then cons c <$> utf8_decode s4 else None
                                end
                            end
                      end
                  end
            end
        end
  end.

(** *** [String.prototype.toLowerCase]

    The lower-case mapping of the Unicode character database (version 14):
    the ranges of code points that map one to one, each as [(first, last,
    step, image of first)]; the code point 304, which maps to two; and
    the capital sigma 931, whose image depends on the letters around
    it. *)

Definition lower_case_ranges : list (N * N * N * N) :=
 [
  (192, 214, 1, 224); (216, 222, 1, 248); (256, 302, 2, 257);
  (306, 310, 2, 307); (313, 327, 2, 314); (330, 374, 2, 331);
  (376, 376, 1, 255); (377, 381, 2, 378); (385, 385, 1, 595);
  (386, 388, 2, 387); (390, 390, 1, 596); (391, 391, 1, 392);
  (393, 394, 1, 598); (395, 395, 1, 396); (398, 398, 1, 477);
  (399, 399, 1, 601); (400, 400, 1, 603); (401, 401, 1, 402);
  (403, 403, 1, 608); (404, 404, 1, 611); (406, 406, 1, 617);
  (407, 407, 1, 616); (408, 408, 1, 409); (412, 412, 1, 623);
  (413, 413, 1, 626); (415, 415, 1, 629); (416, 420, 2, 417);
  (422, 422, 1, 640); (423, 423, 1, 424); (425, 425, 1, 643);
  (428, 428, 1, 429); (430, 430, 1, 648); (431, 431, 1, 432);
  (433, 434, 1, 650); (435, 437, 2, 436); (439, 439, 1, 658);
  (440, 440, 1, 441); (444, 444, 1, 445); (452, 452, 1, 454);
  (453, 453, 1, 454); (455, 455, 1, 457); (456, 456, 1, 457);
  (458, 458, 1, 460); (459, 475, 2, 460); (478, 494, 2, 479);
  (497, 497, 1, 499); (498, 500, 2, 499); (502, 502, 1, 405);
  (503, 503, 1, 447); (504, 542, 2, 505); (544, 544, 1, 414);
  (546, 562, 2, 547); (570, 570, 1, 11365); (571, 571, 1, 572);
  (573, 573, 1, 410); (574, 574, 1, 11366); (577, 577, 1, 578);
  (579, 579, 1, 384); (580, 580, 1, 649); (581, 581, 1, 652);
  (582, 590, 2, 583); (880, 882, 2, 881); (886, 886, 1, 887);
  (895, 895, 1, 1011); (902, 902, 1, 940); (904, 906, 1, 941);
  (908, 908, 1, 972); (910, 911, 1, 973); (913, 929, 1, 945);
  (932, 939, 1, 964); (975, 975, 1, 983); (984, 1006, 2, 985);
  (1012, 1012, 1, 952); (1015, 1015, 1, 1016); (1017, 1017, 1, 1010);
  (1018, 1018, 1, 1019); (1021, 1023, 1, 891); (1024, 1039, 1, 1104);
  (1040, 1071, 1, 1072); (1120, 1152, 2, 1121); (1162, 1214, 2, 1163);
  (1216, 1216, 1, 1231); (1217, 1229, 2, 1218); (1232, 1326, 2, 1233);
  (1329, 1366, 1, 1377); (4256, 4293, 1, 11520); (4295, 4295, 1, 11559);
  (4301, 4301, 1, 11565); (5024, 5103, 1, 43888); (5104, 5109, 1, 5112);
  (7312, 7354, 1, 4304); (7357, 7359, 1, 4349); (7680, 7828, 2, 7681);
  (7838, 7838, 1, 223); (7840, 7934, 2, 7841); (7944, 7951, 1, 7936);
  (7960, 7965, 1, 7952); (7976, 7983, 1, 7968); (7992, 7999, 1, 7984);
  (8008, 8013, 1, 8000); (8025, 8031, 2, 8017); (8040, 8047, 1, 8032);
  (8072, 8079, 1, 8064); (8088, 8095, 1, 8080); (8104, 8111, 1, 8096);
  (8120, 8121, 1, 8112); (8122, 8123, 1, 8048); (8124, 8124, 1, 8115);
  (8136, 8139, 1, 8050); (8140, 8140, 1, 8131); (8152, 8153, 1, 8144);
  (8154, 8155, 1, 8054); (8168, 8169, 1, 8160); (8170, 8171, 1, 8058);
  (8172, 8172, 1, 8165); (8184, 8185, 1, 8056); (8186, 8187, 1, 8060);
  (8188, 8188, 1, 8179); (8486, 8486, 1, 969); (8490, 8490, 1, 107);
  (8491, 8491, 1, 229); (8498, 8498, 1, 8526); (8544, 8559, 1, 8560);
  (8579, 8579, 1, 8580); (9398, 9423, 1, 9424); (11264, 11311, 1, 11312);
  (11360, 11360, 1, 11361); (11362, 11362, 1, 619); (11363, 11363, 1, 7549);
  (11364, 11364, 1, 637); (11367, 11371, 2, 11368); (11373, 11373, 1, 593);
  (11374, 11374, 1, 625); (11375, 11375, 1, 592); (11376, 11376, 1, 594);
  (11378, 11378, 1, 11379); (11381, 11381, 1, 11382); (11390, 11391, 1, 575);
  (11392, 11490, 2, 11393); (11499, 11501, 2, 11500); (11506, 11506, 1, 11507);
  (42560, 42604, 2, 42561); (42624, 42650, 2, 42625); (42786, 42798, 2, 42787);
  (42802, 42862, 2, 42803); (42873, 42875, 2, 42874); (42877, 42877, 1, 7545);
  (42878, 42886, 2, 42879); (42891, 42891, 1, 42892); (42893, 42893, 1, 613);
  (42896, 42898, 2, 42897); (42902, 42920, 2, 42903); (42922, 42922, 1, 614);
  (42923, 42923, 1, 604); (42924, 42924, 1, 609); (42925, 42925, 1, 620);
  (42926, 42926, 1, 618); (42928, 42928, 1, 670); (42929, 42929, 1, 647);
  (42930, 42930, 1, 669); (42931, 42931, 1, 43859); (42932, 42946, 2, 42933);
  (42948, 42948, 1, 42900); (42949, 42949, 1, 642); (42950, 42950, 1, 7566);
  (42951, 42953, 2, 42952); (42960, 42960, 1, 42961); (42966, 42968, 2, 42967);
  (42997, 42997, 1, 42998); (65313, 65338, 1, 65345); (66560, 66599, 1, 66600);
  (66736, 66771, 1, 66776); (66928, 66938, 1, 66967); (66940, 66954, 1, 66979);
  (66956, 66962, 1, 66995); (66964, 66965, 1, 67003); (68736, 68786, 1, 68800);
  (71840, 71871, 1, 71872); (93760, 93791, 1, 93792); (125184, 125217, 1, 125218)
 ]%N.

(** The cased letters that are not case-ignorable, and the case-ignorable
    code points: what decides the image of a capital sigma. *)
Definition cased_ranges : list (N * N) :=
 [
  (65, 90); (97, 122); (170, 170); (181, 181); (186, 186);
  (192, 214); (216, 246); (248, 442); (444, 447); (452, 659);
  (661, 687); (880, 883); (886, 887); (891, 893); (895, 895);
  (902, 902); (904, 906); (908, 908); (910, 929); (931, 1013);
  (1015, 1153); (1162, 1327); (1329, 1366); (1376, 1416); (4256, 4293);
  (4295, 4295); (4301, 4301); (4304, 4346); (4349, 4351); (5024, 5109);
  (5112, 5117); (7296, 7304); (7312, 7354); (7357, 7359); (7424, 7467);
  (7531, 7543); (7545, 7578); (7680, 7957); (7960, 7965); (7968, 8005);
  (8008, 8013); (8016, 8023); (8025, 8025); (8027, 8027); (8029, 8029);
  (8031, 8061); (8064, 8116); (8118, 8124); (8126, 8126); (8130, 8132);
  (8134, 8140); (8144, 8147); (8150, 8155); (8160, 8172); (8178, 8180);
  (8182, 8188); (8450, 8450); (8455, 8455); (8458, 8467); (8469, 8469);
  (8473, 8477); (8484, 8484); (8486, 8486); (8488, 8488); (8490, 8493);
  (8495, 8500); (8505, 8505); (8508, 8511); (8517, 8521); (8526, 8526);
  (8544, 8575); (8579, 8580); (9398, 9449); (11264, 11387); (11390, 11492);
  (11499, 11502); (11506, 11507); (11520, 11557); (11559, 11559); (11565, 11565);
  (42560, 42605); (42624, 42651); (42786, 42863); (42865, 42887); (42891, 42894);
  (42896, 42954); (42960, 42961); (42963, 42963); (42965, 42969); (42997, 42998);
  (43002, 43002); (43824, 43866); (43872, 43880); (43888, 43967); (64256, 64262);
  (64275, 64279); (65313, 65338); (65345, 65370); (66560, 66639); (66736, 66771);
  (66776, 66811); (66928, 66938); (66940, 66954); (66956, 66962); (66964, 66965);
  (66967, 66977); (66979, 66993); (66995, 67001); (67003, 67004); (68736, 68786);
  (68800, 68850); (71840, 71903); (93760, 93823); (119808, 119892); (119894, 119964);
  (119966, 119967); (119970, 119970); (119973, 119974); (119977, 119980); (119982, 119993);
  (119995, 119995); (119997, 120003); (120005, 120069); (120071, 120074); (120077, 120084);
  (120086, 120092); (120094, 120121); (120123, 120126); (120128, 120132); (120134, 120134);
  (120138, 120144); (120146, 120485); (120488, 120512); (120514, 120538); (120540, 120570);
  (120572, 120596); (120598, 120628); (120630, 120654); (120656, 120686); (120688, 120712);
  (120714, 120744); (120746, 120770); (120772, 120779); (122624, 122633); (122635, 122654);
  (125184, 125251); (127280, 127305); (127312, 127337); (127344, 127369)
 ]%N.

Definition case_ignorable_ranges : list (N * N) :=
 [
  (39, 39); (46, 46); (58, 58); (94, 94); (96, 96);
  (168, 168); (173, 173); (175, 175); (180, 180); (183, 184);
  (688, 879); (884, 885); (890, 890); (900, 901); (903, 903);
  (1155, 1161); (1369, 1369); (1375, 1375); (1425, 1469); (1471, 1471);
  (1473, 1474); (1476, 1477); (1479, 1479); (1524, 1524); (1536, 1541);
  (1552, 1562); (1564, 1564); (1600, 1600); (1611, 1631); (1648, 1648);
  (1750, 1757); (1759, 1768); (1770, 1773); (1807, 1807); (1809, 1809);
  (1840, 1866); (1958, 1968); (2027, 2037); (2042, 2042); (2045, 2045);
  (2070, 2093); (2137, 2139); (2184, 2184); (2192, 2193); (2200, 2207);
  (2249, 2306); (2362, 2362); (2364, 2364); (2369, 2376); (2381, 2381);
  (2385, 2391); (2402, 2403); (2417, 2417); (2433, 2433); (2492, 2492);
  (2497, 2500); (2509, 2509); (2530, 2531); (2558, 2558); (2561, 2562);
  (2620, 2620); (2625, 2626); (2631, 2632); (2635, 2637); (2641, 2641);
  (2672, 2673); (2677, 2677); (2689, 2690); (2748, 2748); (2753, 2757);
  (2759, 2760); (2765, 2765); (2786, 2787); (2810, 2815); (2817, 2817);
  (2876, 2876); (2879, 2879); (2881, 2884); (2893, 2893); (2901, 2902);
  (2914, 2915); (2946, 2946); (3008, 3008); (3021, 3021); (3072, 3072);
  (3076, 3076); (3132, 3132); (3134, 3136); (3142, 3144); (3146, 3149);
  (3157, 3158); (3170, 3171); (3201, 3201); (3260, 3260); (3263, 3263);
  (3270, 3270); (3276, 3277); (3298, 3299); (3328, 3329); (3387, 3388);
  (3393, 3396); (3405, 3405); (3426, 3427); (3457, 3457); (3530, 3530);
  (3538, 3540); (3542, 3542); (3633, 3633); (3636, 3642); (3654, 3662);
  (3761, 3761); (3764, 3772); (3782, 3782); (3784, 3789); (3864, 3865);
  (3893, 3893); (3895, 3895); (3897, 3897); (3953, 3966); (3968, 3972);
  (3974, 3975); (3981, 3991); (3993, 4028); (4038, 4038); (4141, 4144);
  (4146, 4151); (4153, 4154); (4157, 4158); (4184, 4185); (4190, 4192);
  (4209, 4212); (4226, 4226); (4229, 4230); (4237, 4237); (4253, 4253);
  (4348, 4348); (4957, 4959); (5906, 5908); (5938, 5939); (5970, 5971);
  (6002, 6003); (6068, 6069); (6071, 6077); (6086, 6086); (6089, 6099);
  (6103, 6103); (6109, 6109); (6155, 6159); (6211, 6211); (6277, 6278);
  (6313, 6313); (6432, 6434); (6439, 6440); (6450, 6450); (6457, 6459);
  (6679, 6680); (6683, 6683); (6742, 6742); (6744, 6750); (6752, 6752);
  (6754, 6754); (6757, 6764); (6771, 6780); (6783, 6783); (6823, 6823);
  (6832, 6862); (6912, 6915); (6964, 6964); (6966, 6970); (6972, 6972);
  (6978, 6978); (7019, 7027); (7040, 7041); (7074, 7077); (7080, 7081);
  (7083, 7085); (7142, 7142); (7144, 7145); (7149, 7149); (7151, 7153);
  (7212, 7219); (7222, 7223); (7288, 7293); (7376, 7378); (7380, 7392);
  (7394, 7400); (7405, 7405); (7412, 7412); (7416, 7417); (7468, 7530);
  (7544, 7544); (7579, 7679); (8125, 8125); (8127, 8129); (8141, 8143);
  (8157, 8159); (8173, 8175); (8189, 8190); (8203, 8207); (8216, 8217);
  (8228, 8228); (8231, 8231); (8234, 8238); (8288, 8292); (8294, 8303);
  (8305, 8305); (8319, 8319); (8336, 8348); (8400, 8432); (11388, 11389);
  (11503, 11505); (11631, 11631); (11647, 11647); (11744, 11775); (11823, 11823);
  (12293, 12293); (12330, 12333); (12337, 12341); (12347, 12347); (12441, 12446);
  (12540, 12542); (40981, 40981); (42232, 42237); (42508, 42508); (42607, 42610);
  (42612, 42621); (42623, 42623); (42652, 42655); (42736, 42737); (42752, 42785);
  (42864, 42864); (42888, 42890); (42994, 42996); (43000, 43001); (43010, 43010);
  (43014, 43014); (43019, 43019); (43045, 43046); (43052, 43052); (43204, 43205);
  (43232, 43249); (43263, 43263); (43302, 43309); (43335, 43345); (43392, 43394);
  (43443, 43443); (43446, 43449); (43452, 43453); (43471, 43471); (43493, 43494);
  (43561, 43566); (43569, 43570); (43573, 43574); (43587, 43587); (43596, 43596);
  (43632, 43632); (43644, 43644); (43696, 43696); (43698, 43700); (43703, 43704);
  (43710, 43711); (43713, 43713); (43741, 43741); (43756, 43757); (43763, 43764);
  (43766, 43766); (43867, 43871); (43881, 43883); (44005, 44005); (44008, 44008);
  (44013, 44013); (64286, 64286); (64434, 64450); (65024, 65039); (65043, 65043);
  (65056, 65071); (65106, 65106); (65109, 65109); (65279, 65279); (65287, 65287);
  (65294, 65294); (65306, 65306); (65342, 65342); (65344, 65344); (65392, 65392);
  (65438, 65439); (65507, 65507); (65529, 65531); (66045, 66045); (66272, 66272);
  (66422, 66426); (67456, 67461); (67463, 67504); (67506, 67514); (68097, 68099);
  (68101, 68102); (68108, 68111); (68152, 68154); (68159, 68159); (68325, 68326);
  (68900, 68903); (69291, 69292); (69446, 69456); (69506, 69509); (69633, 69633);
  (69688, 69702); (69744, 69744); (69747, 69748); (69759, 69761); (69811, 69814);
  (69817, 69818); (69821, 69821); (69826, 69826); (69837, 69837); (69888, 69890);
  (69927, 69931); (69933, 69940); (70003, 70003); (70016, 70017); (70070, 70078);
  (70089, 70092); (70095, 70095); (70191, 70193); (70196, 70196); (70198, 70199);
  (70206, 70206); (70367, 70367); (70371, 70378); (70400, 70401); (70459, 70460);
  (70464, 70464); (70502, 70508); (70512, 70516); (70712, 70719); (70722, 70724);
  (70726, 70726); (70750, 70750); (70835, 70840); (70842, 70842); (70847, 70848);
  (70850, 70851); (71090, 71093); (71100, 71101); (71103, 71104); (71132, 71133);
  (71219, 71226); (71229, 71229); (71231, 71232); (71339, 71339); (71341, 71341);
  (71344, 71349); (71351, 71351); (71453, 71455); (71458, 71461); (71463, 71467);
  (71727, 71735); (71737, 71738); (71995, 71996); (71998, 71998); (72003, 72003);
  (72148, 72151); (72154, 72155); (72160, 72160); (72193, 72202); (72243, 72248);
  (72251, 72254); (72263, 72263); (72273, 72278); (72281, 72283); (72330, 72342);
  (72344, 72345); (72752, 72758); (72760, 72765); (72767, 72767); (72850, 72871);
  (72874, 72880); (72882, 72883); (72885, 72886); (73009, 73014); (73018, 73018);
  (73020, 73021); (73023, 73029); (73031, 73031); (73104, 73105); (73109, 73109);
  (73111, 73111); (73459, 73460); (78896, 78904); (92912, 92916); (92976, 92982);
  (92992, 92995); (94031, 94031); (94095, 94111); (94176, 94177); (94179, 94180);
  (110576, 110579); (110581, 110587); (110589, 110590); (113821, 113822); (113824, 113827);
  (118528, 118573); (118576, 118598); (119143, 119145); (119155, 119170); (119173, 119179);
  (119210, 119213); (119362, 119364); (121344, 121398); (121403, 121452); (121461, 121461);
  (121476, 121476); (121499, 121503); (121505, 121519); (122880, 122886); (122888, 122904);
  (122907, 122913); (122915, 122916); (122918, 122922); (123184, 123197); (123566, 123566);
  (123628, 123631); (125136, 125142); (125252, 125259); (127995, 127999); (917505, 917505);
  (917536, 917631); (917760, 917999)
 ]%N.

Definition in_ranges (ranges : list (N * N)) (c : N) : bool :=
  existsb (fun r => (r.1 <=? c) && (c <=? r.2))%N ranges.

Definition cased (c : N) : bool := in_ranges cased_ranges c.
Definition case_ignorable (c : N) : bool := in_ranges case_ignorable_ranges c.

Fixpoint lower_case_lookup (ranges : list (N * N * N * N)) (c : N) : option N :=
  match ranges with
  | [] => None
  | (first, last, step, target) :: ranges' =>
      if ((first <=? c) && (c <=? last) && ((c - first) mod step =? 0))%N
      then Some (target + (c - first))%N
      else lower_case_lookup ranges' c
  end.

Definition lower_code_point (c : N) : list N :=
  if (c <? 128)%N then
    [if ((65 <=? c) && (c <=? 90))%N then (c + 32)%N else c]
  else if (c =? 304)%N then [105; 775]%N
  else [default c (lower_case_lookup lower_case_ranges c)].

Fixpoint followed_by_cased (points : list N) : bool :=
  match points with
  | [] => false
  | c :: rest => if case_ignorable c then followed_by_cased rest else cased c
  end.

Fixpoint lower_code_points (after_cased : bool) (points : list N) : list N :=
  match points with
  | [] => []
  | c :: rest =>
      ((if (c =? 931)%N then
          [if after_cased && negb (followed_by_cased rest) then 962 else 963]%N
        else lower_code_point c)
       ++ lower_code_points (if case_ignorable c then after_cased else cased c)
            rest)%list
  end.

Definition toLowerCase (s : string) : string :=
  match utf8_decode s with
  | Some points => utf8_encode (lower_code_points false points)
  | None => s
  end.

(** [String.prototype.toUpperCase], on the ASCII letters: the handlers
    apply it to the type words [tournament], [school] and [team] only. *)
Definition upper_ascii (c : ascii) : ascii :=
  let n := N_of_ascii c in
  if ((97 <=? n) && (n <=? 122))%N then ascii_of_N (n - 32) else c.

Fixpoint toUpperCase (s : string) : string :=
  match s with
  | EmptyString => EmptyString
  | String c s' => String (upper_ascii c) (toUpperCase s')
  end.

(** [s.startsWith(p)]. *)
Definition startsWith (s p : string) : bool := String.prefix p s.

(** [s.includes(p)]: [p] occurs somewhere in [s]. *)
Fixpoint includes (s p : string) : bool :=
  startsWith s p ||
  match s with
  | EmptyString => false
  | String _ s' => includes s' p
  end.

(** The suffix of [s] from position [n] on. *)
Fixpoint drop_chars (n : nat) (s : string) : string :=
  match n, s with
  | O, _ => s
  | S _, EmptyString => EmptyString
  | S n', String _ s' => drop_chars n' s'
  end.

(** The first [n] characters of [s]. *)
Fixpoint take_chars (n : nat) (s : string) : string :=
  match n, s with
  | O, _ => EmptyString
  | S _, EmptyString => EmptyString
  | S n', String c s' => String c (take_chars n' s')
  end.

(** [s.endsWith(p)]. *)
Definition endsWith (s p : string) : bool :=
  (String.length p <=? String.length s)%nat &&
  String.eqb (drop_chars (String.length s - String.length p) s) p.

(** [s.slice(0, -k)] for a positive [k]. *)
Definition slice_off_end (k : nat) (s : string) : string :=
  take_chars (String.length s - k) s.

(** [s.replace(p, r)] with a string pattern: only the first occurrence
    of [p] is replaced ([r] holds no [$]). *)
Fixpoint replace (p r s : string) : string :=
  if startsWith s p then r +:+ drop_chars (String.length p) s
  else match s with
       | EmptyString => EmptyString
       | String c s' => String c (replace p r s')
       end.

(** A word character of a regular expression: [[A-Za-z0-9_]]. *)
Definition word_char (c : ascii) : bool :=
  let n := N_of_ascii c in
  (((48 <=? n) && (n <=? 57)) || ((65 <=? n) && (n <=? 90)) ||
   ((97 <=? n) && (n <=? 122)) || (n =? 95))%N.

Definition head_is_word (s : string) : bool :=
  match s with
  | EmptyString => false
  | String c _ => word_char c
  end.

(** [s.replace(/\bteam\b/g, 'school')], scanning left to right;
    [prev_word] tells whether the character before the current position
    is a word character.  After a match the scan goes on behind the four
    letters (the branch for a shorter string is never taken there). *)
Fixpoint replace_team_word (prev_word : bool) (s : string) : string :=
  match s with
  | EmptyString => EmptyString
  | String c s' =>
      if negb prev_word && startsWith s "team"
         && negb (head_is_word (drop_chars 4 s))
      then
        match s' with
        | String _ (String _ (String _ rest)) =>
            "school" +:+ replace_team_word true rest
        | _ => EmptyString
        end
      else String c (replace_team_word (word_char c) s')
  end.

(** Truthiness of an optional string: [undefined] and the empty string
    are falsy. *)
Definition truthy (o : option string) : bool :=
  match o with
  | Some s => negb (String.eqb s "")
  | None => false
  end.

(** [o || d] for an optional string [o]. *)
Definition or_else (o : option string) (d : string) : string :=
  match o with
  | Some s => if String.eqb s "" then d else s
  | None => d
  end.

(** A template literal prints [undefined] as the word itself. *)
Definition show (o : option string) : string := default "undefined" o.

(** [xs.join(sep)]. *)
Definition join (sep : string) (xs : list string) : string :=
  String.concat sep xs.

(** The integer that a number stands for as an array position: the number
    truncated toward zero.  Numbers are rationals, which covers every
    number a JSON argument can carry. *)
Definition to_integer (x : Q) : Z :=
  if Qle_bool 0 x then Qfloor x else Qceiling x.

(** [xs.slice(0, e)]: a negative [e] counts from the end of the array. *)
Definition slice0 {A} (xs : list A) (e : Q) : list A :=
  let e := to_integer e in
  if e <? 0 then take (Z.to_nat (Z.of_nat (length xs) + e)) xs
  else take (Z.to_nat e) xs.

(** [Array.prototype.sort] is stable: insertion from the right, an
    element going before the first one it does not exceed. *)
Section Sort.
Context {A : Type} (le : A -> A -> bool).

Fixpoint insert_sorted (x : A) (xs : list A) : list A :=
  match xs with
  | [] => [x]
  | y :: ys => if le x y then x :: xs else y :: insert_sorted x ys
  end.

Definition sort_by (xs : list A) : list A := foldr insert_sorted [] xs.
End Sort.

(** The UTF-16 code units of a string: a code point above 65535 gives a
    surrogate pair. *)
Definition code_units_of (c : N) : list N :=
  if (c <? 65536)%N then [c]
  else [55296 + (c - 65536) / 1024; 56320 + (c - 65536) mod 1024]%N.

Definition code_units (s : string) : list N :=
  match utf8_decode s with
  | Some points => flat_map code_units_of points
  | None => map N_of_ascii (list_ascii_of_string s)
  end.

Fixpoint units_leb (a b : list N) : bool :=
  match a, b with
  | [], _ => true
  | _ :: _, [] => false
  | x :: a', y :: b' =>
      if (x <? y)%N then true else if (y <? x)%N then false else units_leb a' b'
  end.

Definition code_unit_leb (a b : string) : bool :=
  units_leb (code_units a) (code_units b).

(** [xs.sort()] on strings: ascending by code units. *)
Definition sort_strings : list string -> list string := sort_by code_unit_leb.

(** [s.split(c)] on a one-character separator. *)
Fixpoint split (sep : ascii) (s : string) : list string :=
  match s with
  | EmptyString => [EmptyString]
  | String c s' =>
      if Ascii.eqb c sep then EmptyString :: split sep s'
      else match split sep s' with
           | w :: ws => String c w :: ws
           | [] => [String c EmptyString]
           end
  end.

(** White space as [trim] sees it: the white-space and line-terminator
    code points. *)
Definition white_space (c : N) : bool :=
  (((9 <=? c) && (c <=? 13)) || (c =? 32) || (c =? 160) || (c =? 5760)
   || ((8192 <=? c) && (c <=? 8202)) || (c =? 8232) || (c =? 8233)
   || (c =? 8239) || (c =? 8287) || (c =? 12288) || (c =? 65279))%N.

Fixpoint trimStart (points : list N) : list N :=
  match points with
  | [] => []
  | c :: rest => if white_space c then trimStart rest else points
  end.

Definition trimEnd (points : list N) : list N := rev (trimStart (rev points)).

Definition trim (s : string) : string :=
  match utf8_decode s with
  | Some points => utf8_encode (trimEnd (trimStart points))
  | None => s
  end.

(** A character the regular-expression dot does not match: line feed and
    carriage return here, the line and paragraph separators (code points
    8232 and 8233) by their bytes below. *)
Definition line_terminator (c : ascii) : bool :=
  let n := N_of_ascii c in ((n =? 10) || (n =? 13))%N.

Fixpoint all_chars (f : ascii -> bool) (s : string) : bool :=
  match s with
  | EmptyString => true
  | String c s' => f c && all_chars f s'
  end.

(** [s.replace(re, '$1')] where [re] anchors, between both ends of the
    string, a double quote, a group of any characters but line
    terminators, and a double quote: a string held in double quotes
    loses them. *)
Definition unquote (s : string) : string :=
  let quote := ascii_of_N 34 in
  match s with
  | String c rest =>
      let inner := take_chars (String.length rest - 1) rest in
      if Ascii.eqb c quote
         && String.eqb (drop_chars (String.length rest - 1) rest)
                       (String quote EmptyString)
         && all_chars (fun c => negb (line_terminator c)) inner
         && negb (includes inner (utf8_encode [8232%N]))
         && negb (includes inner (utf8_encode [8233%N]))
      then inner else s
  | EmptyString => s
  end.

(** *** [Number.prototype.toString]

    The numbers of a record are integers that a double holds exactly.
    Below 10^21 in absolute value such a number prints its decimal digits;
    from there on it prints, in exponent form, the shortest decimal that
    reads back as the same double. *)

(** The digits without the zeros at the end. *)
Fixpoint strip_zeros (digits : string) : string :=
  match digits with
  | EmptyString => EmptyString
  | String d rest =>
      match strip_zeros rest with
      | EmptyString => if Ascii.eqb d "0" then EmptyString else String d EmptyString
      | kept => String d kept
      end
  end.

(** [d.ddde+n] for the decimal [v]. *)
Definition exponent_form (v : Z) : string :=
  let digits := pretty v in
  match strip_zeros digits with
  | EmptyString => digits
  | String d rest =>
      String d (if String.eqb rest EmptyString then EmptyString else "." +:+ rest)
      +:+ "e+" +:+ pretty (Z.of_nat (String.length digits) - 1)
  end.

(** The search for the shortest decimal, from [k] digits on: of the two
    decimals with [k] digits around [z], the one that reads back as [z],
    and the closer one when both do (the even one when they are equally
    close).  Seventeen digits always suffice. *)
Fixpoint shortest_from (fuel : nat) (k : Z) (z : Z) (inside : Z -> bool)
    (n : Z) : Z :=
  match fuel with
  | O => z
  | S fuel' =>
      let q := 10 ^ (n - k) in
      let a := z / q * q in
      let b := a + q in
      match inside a, inside b with
      | true, true =>
          if z - a <? b - z then a
          else if b - z <? z - a then b
          else if Z.even (a / q) then a else b
      | true, false => a
      | false, true => b
      | false, false => shortest_from fuel' (k + 1) z inside n
      end
  end.

(** [inside v]: the decimal [v] reads back as the double [z], that is,
    it lies between the midpoints to the neighbouring doubles (here times
    four), the midpoints counting when the significand [m] is even.  The
    lower neighbour is half as far when [m] is a power of two. *)
Definition shortest_decimal (z : Z) : Z :=
  let ulp := 2 ^ (Z.log2 z - 52) in
  let m := z / ulp in
  let low := if m =? 2 ^ 52 then 4 * z - ulp else 4 * z - 2 * ulp in
  let high := 4 * z + 2 * ulp in
  let inside v :=
    if Z.even m then (low <=? 4 * v) && (4 * v <=? high)
    else (low <? 4 * v) && (4 * v <? high) in
  shortest_from 17 1 z inside (Z.of_nat (String.length (pretty z))).

Definition number_toString (z : Z) : string :=
  if Z.abs z <? 10 ^ 21 then pretty z
  else (if z <? 0 then "-" else EmptyString)
       +:+ exponent_form (shortest_decimal (Z.abs z)).

(** [`${i}`] for an array index [i]: it is below 2^32 and prints its
    decimal digits. *)
Definition index_toString (i : nat) : string := pretty (Z.of_nat i).

(** An error value as the handlers inspect it: [error.code] and
    [error.message]. *)
Record Error := { code : option string; message : string }.

End Js.

(** ** The entities handed out by the sciolyff interpreter *)

Module Tournament.
Record t := { name : option string; level : string;
              state : string; location : string }.
End Tournament.

(** A team carries its number, rank and points; its school, location and
    suffix may be undefined. *)
Module Team.
Record t := { number : Z; school : option string;
              location : option string; suffix : option string;
              disqualified : bool; exhibition : bool;
              rank : Z; points : Z }.
End Team.

Module Event.
Record t := { name : string }.
End Event.

(** A placing as the handlers read it.  [dropped] is the property
    [placement.dropped]: the placings of a record define none, so it reads
    [undefined], that is [None]. *)
Module Placing.
Record t := { team : Team.t; event : Event.t; place : option Z;
              tie : bool; points : Z; dropped : option bool }.
End Placing.

Module Interpreter.
Record t := { tournament : Tournament.t; events : list Event.t;
              teams : list Team.t; placings : list Placing.t }.
End Interpreter.

(** ** Title derivation *)

Definition expandStateName (state : string) : string :=
  Js.replace "nCA" "NorCal" (Js.replace "sCA" "SoCal" state).

Definition tournamentTitle (tInfo : Tournament.t) : option string :=
  if Js.truthy (Tournament.name tInfo) then Tournament.name tInfo
  else if String.eqb (Tournament.level tInfo) "Nationals" then
    Some "Science Olympiad National Tournament"
  else if String.eqb (Tournament.level tInfo) "States" then
    Some (expandStateName (Tournament.state tInfo)
          +:+ " Science Olympiad State Tournament")
  else if String.eqb (Tournament.level tInfo) "Regionals" then
    Some (Tournament.location tInfo +:+ " Regional Tournament")
  else if String.eqb (Tournament.level tInfo) "Invitational" then
    Some (Tournament.location tInfo +:+ " Invitational")
  else None.

(** ** Tool results and small text helpers *)

Inductive ErrorCode := InternalError | MethodNotFound | InvalidRequest.

(** A tool call either returns one text content item, or returns the JSON
    document of [fetch] (kept structured, see [FetchDoc]), or throws an
    [McpError], a protocol-level failure. *)
Record FetchDoc (Y : Type) := MkFetchDoc {
  doc_id : string;
  doc_title : option string;  (* [JSON.stringify] leaves an undefined title out *)
  doc_text : Y;
  doc_url : string }.
Arguments MkFetchDoc {Y}.
Arguments doc_id {Y}.
Arguments doc_title {Y}.
Arguments doc_text {Y}.
Arguments doc_url {Y}.

Inductive ToolResult (Y : Type) :=
  | Text (text : string)
  | Json (doc : FetchDoc Y)
  | Throw (code : ErrorCode) (message : string).
Arguments Text {Y}.
Arguments Json {Y}.
Arguments Throw {Y}.

Definition nl : string := String (ascii_of_N 10) EmptyString.
Definition dq : string := String (ascii_of_N 34) EmptyString.

(** [`"${s}"`] *)
Definition quoted (s : string) : string := dq +:+ s +:+ dq.

(** A template literal: the pieces in order. *)
Definition tpl (pieces : list string) : string := String.concat EmptyString pieces.

(** [`${z}`] and [z.toString()] for a number [z]. *)
Definition num (z : Z) : string := Js.number_toString z.
Definition yes_no (b : bool) : string := if b then "Yes" else "No".

(** The result of a computation that may throw. *)
Definition Result (A : Type) : Type := Js.Error + A.

Definition bind {A B} (r : Result A) (k : A -> Result B) : Result B :=
  match r with
  | inl e => inl e
  | inr a => k a
  end.

Notation "'await' x ':=' r 'in' k" := (bind r (fun x => k))
  (at level 10, x name, r at level 100, k at level 200, only parsing).

(** ** The storage boundary *)

(** The results directory [<DUOSMIUM_PATH>/data/results]: its listing and
    the content of each file, by file name.  Either may fail with an error
    that carries a [code] ([ENOENT] for a missing file). *)
Record Store := {
  readdir : Result (list string);
  readFile : string -> Result string }.

(** ** The external catalog *)

(** One entry of the tournament-metadata list.  The fields that only go
    into an item's [metadata], which no answer reads, are left out. *)
Module CatalogTournament.
Record t := { title : option string; filename : option string;
              location : option string; division : option string;
              year : option Z; official : bool;
              keywords : option string }.
End CatalogTournament.

(** An item of the catalog variant's [searchData] (without [metadata]). *)
Module CatalogItem.
Record t := { type : string; name : string; id : option string;
              details : string; searchText : string }.
End CatalogItem.

(** An item of the corpus variant's [allTournaments] and [allTeams]. *)
Module CorpusItem.
Record t := { type : string; id : string; name : string;
              details : string; searchableText : string }.
End CorpusItem.

(** A response of [fetch(url)]: [ok], [status] and the body as [json()] or
    [text()] reads it (reading may throw). *)
Record HttpResponse (B : Type) := {
  ok : bool; status : Z; body : Js.Error + B }.
Arguments ok {B}.
Arguments status {B}.
Arguments body {B}.

(** The request either rejects (the source is unreachable) or responds. *)
Inductive Fetched (B : Type) :=
  | Rejected (error : Js.Error)
  | Responded (response : HttpResponse B).

(** The two remote sources; when both requests reject,
    [schools_rejects_first] tells which rejection [Promise.all] sees. *)
Record Remote := {
  tournaments_json : Fetched (list CatalogTournament.t);
  schools_csv : Fetched string;
  schools_rejects_first : bool }.

Section Server.

(** The parsed record as [yaml.load] returns it, the YAML parser and the
    constructor of the sciolyff interpreter (external libraries; each may
    throw). *)
Variable Yaml : Type.
Variable yaml_load : string -> Result Yaml.
Variable new_Interpreter : Yaml -> Result Interpreter.t.

Variable store : Store.

Definition getAvailableTournaments : list string :=
  match readdir store with
  | inr files =>
      Js.sort_strings
        (map (Js.slice_off_end 5)
             (filter (fun file => Is_true (Js.endsWith file ".yaml")) files))
  | inl _ => []
  end.

Definition loadInterpreter (tournamentId : string) : Result Interpreter.t :=
  await content := readFile store (tournamentId +:+ ".yaml") in
  await data := yaml_load content in
  new_Interpreter data.

Definition team_matches (teamId : string) (t : Team.t) : bool :=
  String.eqb (num (Team.number t)) teamId ||
  match Team.school t with
  | Some school => Js.includes (Js.toLowerCase school) (Js.toLowerCase teamId)
  | None => false
  end.

Definition findTeam (interpreter : Interpreter.t) (teamId : string)
  : option Team.t :=
  find (team_matches teamId) (Interpreter.teams interpreter).

(** The [catch] block shared by the single-tournament handlers. *)
Definition on_error (what tournamentId : string) (error : Js.Error)
  : ToolResult Yaml :=
  if bool_decide (Js.code error = Some "ENOENT") then
    Text (tpl ["Tournament "; quoted tournamentId; " not found"])
  else
    Throw InternalError (tpl [what; ": "; Js.message error]).

(** [interpreter.tournament.name || tournamentId] *)
Definition name_or_id (interpreter : Interpreter.t) (tournamentId : string)
  : string :=
  Js.or_else (Tournament.name (Interpreter.tournament interpreter)) tournamentId.

Definition placeText (placement : Placing.t) : string :=
  match Placing.place placement with
  | Some 0 => "DQ/NS"
  | Some p => num p
  | None => "N/A"
  end.

Definition pointsText (placement : Placing.t) : string :=
  if Placing.points placement =? 0 then "N/A"
  else num (Placing.points placement).

Definition tieText (placement : Placing.t) : string :=
  if Placing.tie placement then " (tie)" else EmptyString.

Definition team_label (team : Team.t) : string :=
  tpl [Js.show (Team.school team); " (#"; num (Team.number team); ")"].

Definition get_team_placement
    (tournamentId teamId : string) (event : option string)
  : ToolResult Yaml :=
  match loadInterpreter tournamentId with
  | inl error => on_error "Failed to get team placement" tournamentId error
  | inr interpreter =>
      match findTeam interpreter teamId with
      | None =>
          Text (tpl ["Team "; quoted teamId; " not found in tournament ";
                     quoted tournamentId])
      | Some team =>
          if negb (Js.truthy event) then
            Text (tpl ["Team: "; team_label team; nl;
                       "Overall Rank: "; num (Team.rank team); nl;
                       "Total Points: "; num (Team.points team); nl;
                       "Tournament: "; name_or_id interpreter tournamentId; nl;
                       "Disqualified: "; yes_no (Team.disqualified team); nl;
                       "Exhibition: "; yes_no (Team.exhibition team)])
          else
            let event := default EmptyString event in
            match find (fun p =>
                          (Team.number (Placing.team p) =? Team.number team)
                          && String.eqb (Event.name (Placing.event p)) event)
                       (Interpreter.placings interpreter) with
            | None =>
                Text (tpl ["No placement found for team ";
                           quoted (Js.show (Team.school team));
                           " (#"; num (Team.number team); ") in event ";
                           quoted event])
            | Some placement =>
                Text (tpl ["Team: "; team_label team; nl;
                           "Event: "; event; nl;
                           "Placement: "; placeText placement;
                           tieText placement; nl;
                           "Points: "; pointsText placement; nl;
                           "Tournament: ";
                           name_or_id interpreter tournamentId])
            end
      end
  end.

(** The [teams] variable of [get_tournament_rankings] after the optional
    truncation: [limit && limit > 0] holds for a positive number only. *)
Definition ranked_teams (interpreter : Interpreter.t) (limit : option Q)
  : list Team.t :=
  let teams := Interpreter.teams interpreter in
  match limit with
  | Some n => if negb (Qle_bool n 0) then Js.slice0 teams n else teams
  | None => teams
  end.

Definition status_of (dq_word : string) (team : Team.t) : list string :=
  (if Team.disqualified team then [dq_word] else []) ++
  (if Team.exhibition team then ["Exhibition"] else []).

(** One line of the rankings; the rank printed is [team.rank], the index
    of the line in the listing is not used. *)
Definition ranking_line (team : Team.t) : string :=
  let status := status_of "DQ" team in
  let statusText :=
    match status with
    | [] => EmptyString
    | _ => tpl [" ("; Js.join ", " status; ")"]
    end in
  tpl [num (Team.rank team); ". "; Js.show (Team.school team);
       " (#"; num (Team.number team); ") - ";
       num (Team.points team); " points"; statusText].

Definition get_tournament_rankings (tournamentId : string) (limit : option Q)
  : ToolResult Yaml :=
  match loadInterpreter tournamentId with
  | inl error => on_error "Failed to get tournament rankings" tournamentId error
  | inr interpreter =>
      let rankings :=
        Js.join nl (map ranking_line (ranked_teams interpreter limit)) in
      Text (tpl ["Tournament: "; name_or_id interpreter tournamentId; nl;
                 "Total Teams: ";
                 num (Z.of_nat (length (Interpreter.teams interpreter))); nl;
                 nl; "Rankings:"; nl; rankings])
  end.

Definition list_tournaments : ToolResult Yaml :=
  let tournaments := getAvailableTournaments in
  Text (tpl ["Available Tournaments (";
             num (Z.of_nat (length tournaments)); "):"; nl;
             Js.join nl tournaments]).

(** The title line that opens every single-tournament answer. *)
Definition info_title (interpreter : Interpreter.t) (tournamentId : string)
  : string :=
  name_or_id interpreter tournamentId.

Definition get_tournament_info (tournamentId : string) : ToolResult Yaml :=
  match loadInterpreter tournamentId with
  | inl error => on_error "Failed to get tournament info" tournamentId error
  | inr interpreter =>
      let teams := map team_label (Interpreter.teams interpreter) in
      let events := map Event.name (Interpreter.events interpreter) in
      Text (tpl ["Tournament: "; info_title interpreter tournamentId; nl; nl;
                 "Teams ("; num (Z.of_nat (length teams)); "):"; nl;
                 Js.join nl teams; nl; nl;
                 "Events ("; num (Z.of_nat (length events)); "):"; nl;
                 Js.join nl events])
  end.

(** [interpreter.placings.filter(p => p.team.number === team.number)] *)
Definition teamPlacements (interpreter : Interpreter.t) (team : Team.t)
  : list Placing.t :=
  filter (fun p => Team.number (Placing.team p) = Team.number team)
         (Interpreter.placings interpreter).

Definition placement_line (placement : Placing.t) : string :=
  let dropped := if default false (Placing.dropped placement)
                 then " [DROPPED]" else EmptyString in
  tpl [Event.name (Placing.event placement); ": "; placeText placement;
       tieText placement; " ("; pointsText placement; " points)"; dropped].

Definition get_team_all_placements (tournamentId teamId : string)
  : ToolResult Yaml :=
  match loadInterpreter tournamentId with
  | inl error => on_error "Failed to get team all placements" tournamentId error
  | inr interpreter =>
      match findTeam interpreter teamId with
      | None =>
          Text (tpl ["Team "; quoted teamId; " not found in tournament ";
                     quoted tournamentId])
      | Some team =>
          match teamPlacements interpreter team with
          | [] =>
              Text (tpl ["No placements found for team ";
                         quoted (Js.show (Team.school team));
                         " (#"; num (Team.number team); ")"])
          | placements =>
              let placementDetails := map placement_line placements in
              let teamInfo :=
                omap (fun o => if Js.truthy o then o else None)
                     [Team.location team; Team.suffix team] in
              let teamInfoText :=
                match teamInfo with
                | [] => EmptyString
                | _ => tpl [" ("; Js.join ", " teamInfo; ")"]
                end in
              let status := status_of "Disqualified" team in
              let statusText :=
                match status with
                | [] => EmptyString
                | _ => tpl [nl; "Status: "; Js.join ", " status]
                end in
              Text (tpl ["Team: "; team_label team; teamInfoText; nl;
                         "Overall Rank: "; num (Team.rank team); nl;
                         "Total Points: "; num (Team.points team);
                         statusText; nl;
                         "Tournament: "; name_or_id interpreter tournamentId;
                         nl; nl;
                         "Event Placements (";
                         num (Z.of_nat (length placementDetails)); "):"; nl;
                         Js.join nl placementDetails])
          end
      end
  end.

(** [fetch] does not go through [loadInterpreter]: it keeps the parsed
    data for the document and derives the title with [tournamentTitle].
    The parsed record is taken to be a tree, which [JSON.stringify]
    prints. *)
Definition fetch_tool (id : string) : ToolResult Yaml :=
  let loaded :=
    await content := readFile store (id +:+ ".yaml") in
    await data := yaml_load content in
    await interpreter := new_Interpreter data in
    inr (data, interpreter) in
  match loaded with
  | inl error => on_error "Failed to fetch tournament data" id error
  | inr (data, interpreter) =>
      let title := tournamentTitle (Interpreter.tournament interpreter) in
      Json {| doc_id := id; doc_title := title; doc_text := data;
              doc_url := "https://www.duosmium.org/results/" +:+ id |}
  end.

(** *** The two variants of the [search] tool *)

(** Fuse.js, the fuzzy matcher (an external library): the searched keys
    with their weights, the threshold and the distance; scores are
    included and locations ignored in both variants.  A result pairs an
    item with its score, best match first. *)
Record FuseOptions (A : Type) := {
  keys : list ((A -> string) * Q);
  threshold : Q;
  distance : Z;
  findAllMatches : bool }.

Record FuseResult (A : Type) := { item : A; score : Q }.

Variable fuse_search :
  forall A : Type, FuseOptions A -> list A -> string -> list (FuseResult A).

(** [x.toFixed(1)] *)
Variable toFixed1 : Q -> string.

(** [new Error(message)] carries no [code]. *)
Definition new_Error (message : string) : Js.Error :=
  {| Js.code := None; Js.message := message |}.

(** [limit] and [type] take their defaults when left out. *)
Definition arg_or {A} (d : A) (o : option A) : A := default d o.

(** **** The catalog variant *)

Variable remote : Remote.

(** [Promise.all] over the two requests: it rejects when one of them
    does. *)
Definition fetch_both
  : Result (HttpResponse (list CatalogTournament.t) * HttpResponse string) :=
  match tournaments_json remote, schools_csv remote with
  | Rejected _ e1, Rejected _ e2 =>
      inl (if schools_rejects_first remote then e2 else e1)
  | Rejected _ e1, Responded _ _ => inl e1
  | Responded _ _, Rejected _ e2 => inl e2
  | Responded _ r1, Responded _ r2 => inr (r1, r2)
  end.

Definition normalizedQuery (query : string) : string :=
  Js.replace_team_word false (Js.toLowerCase query).

Definition bullet : string := " • ".

Definition tournament_item (tournament : CatalogTournament.t) : CatalogItem.t :=
  let name :=
    Js.or_else (CatalogTournament.title tournament)
      (Js.or_else (CatalogTournament.filename tournament) "Unknown Tournament") in
  let location := Js.or_else (CatalogTournament.location tournament) EmptyString in
  let division := Js.or_else (CatalogTournament.division tournament) EmptyString in
  let year :=
    match CatalogTournament.year tournament with
    | Some y => if y =? 0 then EmptyString else num y
    | None => EmptyString
    end in
  let official :=
    if CatalogTournament.official tournament then "Official" else "Unofficial" in
  let keywords := Js.or_else (CatalogTournament.keywords tournament) EmptyString in
  {| CatalogItem.type := "tournament";
     CatalogItem.name := name;
     CatalogItem.id := CatalogTournament.filename tournament;
     CatalogItem.details :=
       tpl [division; " Division"; bullet; year; bullet; location; bullet; official];
     CatalogItem.searchText :=
       Js.toLowerCase
         (tpl [name; " "; location; " "; division; " "; year; " ";
               Js.show (CatalogTournament.filename tournament); " "; keywords]) |}.

Definition school_item (index : nat) (line : string) : option CatalogItem.t :=
  let parts := map (fun part => Js.trim (Js.unquote part))
                   (Js.split (ascii_of_N 44) line) in
  let schoolName := default EmptyString (parts !! 0%nat) in
  let city := Js.or_else (parts !! 1%nat) EmptyString in
  let state := Js.or_else (parts !! 2%nat) EmptyString in
  if String.eqb schoolName EmptyString then None
  else
    let locationParts :=
      List.filter (fun x => negb (String.eqb x EmptyString)) [city; state] in
    let locationStr := Js.join ", " locationParts in
    Some {| CatalogItem.type := "school";
            CatalogItem.name := schoolName;
            CatalogItem.id := Some ("school-" +:+ Js.index_toString index);
            CatalogItem.details :=
              Js.or_else (Some locationStr) "Location not specified";
            CatalogItem.searchText :=
              Js.toLowerCase (tpl [schoolName; " "; city; " "; state; " team"]) |}.

Definition searchData (type : string)
    (tournaments : list CatalogTournament.t) (schoolsCsvText : string)
  : list CatalogItem.t :=
  (if String.eqb type "tournament" || String.eqb type "all"
   then map tournament_item tournaments else []) ++
  (if String.eqb type "school" || String.eqb type "all"
   then
     let schoolLines :=
       List.filter (fun line => negb (String.eqb (Js.trim line) EmptyString))
                   (Js.split (ascii_of_N 10) schoolsCsvText) in
     omap id (imap school_item schoolLines)
   else []).

Definition catalog_options : FuseOptions CatalogItem.t :=
  {| keys := [(CatalogItem.name, 7 # 10); (CatalogItem.searchText, 3 # 10)];
     threshold := 3 # 10; distance := 200; findAllMatches := false |}.

(** The [searchResults] of the catalog variant, or the error thrown on
    the way to them. *)
Definition catalog_searchResults (query type : string) (limit : Q)
  : Result (list (FuseResult CatalogItem.t)) :=
  let normalizedQuery := normalizedQuery query in
  await responses := fetch_both in
  let '(tournamentsResponse, schoolsResponse) := responses in
  if negb (ok tournamentsResponse) then
    inl (new_Error ("Failed to fetch tournaments: "
                    +:+ num (status tournamentsResponse)))
  else if negb (ok schoolsResponse) then
    inl (new_Error ("Failed to fetch schools: "
                    +:+ num (status schoolsResponse)))
  else
    await tournaments := body tournamentsResponse in
    await schoolsCsvText := body schoolsResponse in
    inr (Js.slice0
           (fuse_search _ catalog_options
              (searchData type tournaments schoolsCsvText) normalizedQuery)
           limit).

(** [typeBreakdown]: the number of results of each type, the types in
    the order they first appear. *)
Fixpoint count_type (acc : list (string * nat)) (type : string)
  : list (string * nat) :=
  match acc with
  | [] => [(type, 1%nat)]
  | (t, n) :: rest =>
      if String.eqb t type then (t, S n) :: rest
      else (t, n) :: count_type rest type
  end.

Definition plural (n : nat) : string :=
  if Nat.eqb n 1 then EmptyString else "s".

Definition format_result (result : FuseResult CatalogItem.t) : string :=
  let item := item _ result in
  let score :=
    if Qeq_bool (score _ result) 0 then EmptyString
    else tpl [" ("; toFixed1 (score _ result * 100); "% match)"] in
  tpl [Js.toUpperCase (CatalogItem.type item); ": "; CatalogItem.name item; nl;
       "  "; CatalogItem.details item; score; nl;
       "  ID: "; Js.show (CatalogItem.id item)].

Definition search_catalog (query : string) (type : option string)
    (limit : option Q) : ToolResult Yaml :=
  let type := arg_or "all" type in
  let limit := arg_or 20%Q limit in
  match catalog_searchResults query type limit with
  | inl error => Throw InternalError ("Search failed: " +:+ Js.message error)
  | inr [] =>
      let searchTypeText :=
        if String.eqb type "all" then "tournaments or schools"
        else type +:+ "s" in
      Text (tpl ["No "; searchTypeText; " found matching "; quoted query])
  | inr searchResults =>
      let formattedResults :=
        Js.join (nl +:+ nl) (map format_result searchResults) in
      let n := length searchResults in
      let summary :=
        tpl ["Found "; num (Z.of_nat n); " result"; plural n; " for ";
             quoted query] in
      let typeBreakdown :=
        fold_left (fun acc result =>
                     count_type acc (CatalogItem.type (item _ result)))
                  searchResults [] in
      let breakdown :=
        Js.join ", "
          (map (fun '(type, count) =>
                  tpl [num (Z.of_nat count); " "; type; plural count])
               typeBreakdown) in
      Text (tpl [summary; " ("; breakdown; "):"; nl; nl; formattedResults])
  end.

(** **** The corpus variant *)

Definition corpus_tournament_item (tournamentId : string)
    (interpreter : Interpreter.t) : CorpusItem.t :=
  let tournamentName := name_or_id interpreter tournamentId in
  {| CorpusItem.type := "tournament";
     CorpusItem.id := tournamentId;
     CorpusItem.name := tournamentName;
     CorpusItem.details :=
       tpl [num (Z.of_nat (length (Interpreter.teams interpreter))); " teams, ";
            num (Z.of_nat (length (Interpreter.events interpreter))); " events"];
     CorpusItem.searchableText :=
       Js.toLowerCase (tpl [tournamentName; " "; tournamentId]) |}.

Definition corpus_team_item (tournamentId : string)
    (interpreter : Interpreter.t) (team : Team.t) : CorpusItem.t :=
  let tournamentName := name_or_id interpreter tournamentId in
  let teamName := Js.or_else (Team.school team) EmptyString in
  let location := Js.or_else (Team.location team) EmptyString in
  let teamDetails :=
    Js.join " "
      (List.filter (fun x => negb (String.eqb x EmptyString))
         ["#" +:+ num (Team.number team);
          (if String.eqb location EmptyString then EmptyString
           else tpl ["("; location; ")"]);
          "Rank: " +:+ num (Team.rank team);
          "in " +:+ tournamentName]) in
  {| CorpusItem.type := "team";
     CorpusItem.id := tpl [tournamentId; ":"; num (Team.number team)];
     CorpusItem.name := teamName;
     CorpusItem.details := teamDetails;
     CorpusItem.searchableText :=
       Js.toLowerCase
         (tpl [teamName; " "; location; " "; num (Team.number team); " ";
               tournamentName]) |}.

(** One turn of the loop over the tournaments: the items pushed onto
    [allTournaments] and [allTeams]; a record that fails to load is caught
    and the loop goes on. *)
Definition collect_one (type : string)
    (acc : list CorpusItem.t * list CorpusItem.t) (tournamentId : string)
  : list CorpusItem.t * list CorpusItem.t :=
  match loadInterpreter tournamentId with
  | inl _ => acc
  | inr interpreter =>
      ((acc.1 ++
          (if String.eqb type "tournament" || String.eqb type "both"
           then [corpus_tournament_item tournamentId interpreter] else []))%list,
       (acc.2 ++
          (if String.eqb type "team" || String.eqb type "both"
           then map (corpus_team_item tournamentId interpreter)
                    (Interpreter.teams interpreter)
           else []))%list)
  end.

Definition collect (type : string) (tournaments : list string)
  : list CorpusItem.t * list CorpusItem.t :=
  fold_left (collect_one type) tournaments ([], []).

Definition fuseOptions : FuseOptions CorpusItem.t :=
  {| keys := [(CorpusItem.searchableText, 1%Q); (CorpusItem.name, 1%Q)];
     threshold := 4 # 10; distance := 100; findAllMatches := true |}.

(** [xs.length > 0 ? new Fuse(xs, fuseOptions).search(query) : nothing] *)
Definition search_items (xs : list CorpusItem.t) (query : string)
  : list (FuseResult CorpusItem.t) :=
  match xs with
  | [] => []
  | _ => fuse_search _ fuseOptions xs query
  end.

(** The [sortedResults] of the corpus variant: the query goes to the
    matcher as the caller wrote it. *)
Definition corpus_sortedResults (query type : string) (limit : Q)
  : list (FuseResult CorpusItem.t) :=
  let '(allTournaments, allTeams) := collect type getAvailableTournaments in
  let results :=
    (search_items allTournaments query ++ search_items allTeams query)%list in
  Js.slice0
    (Js.sort_by (fun a b => Qle_bool (score _ a) (score _ b)) results)
    limit.

Definition search_corpus (query : string) (type : option string)
    (limit : option Q) : ToolResult Yaml :=
  let type := arg_or "both" type in
  let limit := arg_or 10%Q limit in
  match corpus_sortedResults query type limit with
  | [] =>
      Text (tpl ["No ";
                 (if String.eqb type "both" then "tournaments or teams"
                  else type +:+ "s");
                 " found matching "; quoted query])
  | sortedResults =>
      let resultsText :=
        Js.join (nl +:+ nl)
          (map (fun result =>
                  tpl [Js.toUpperCase (CorpusItem.type (item _ result)); ": ";
                       CorpusItem.id (item _ result)])
               sortedResults) in
      Text (tpl ["Search results for "; quoted query; " (";
                 num (Z.of_nat (length sortedResults)); " found):"; nl; nl;
                 resultsText])
  end.

End Server.

Arguments item {A}.
Arguments score {A}.
Arguments loadInterpreter {Yaml}.
Arguments on_error {Yaml}.
Arguments get_team_placement {Yaml}.
Arguments get_tournament_rankings {Yaml}.
Arguments list_tournaments {Yaml}.
Arguments get_tournament_info {Yaml}.
Arguments get_team_all_placements {Yaml}.
Arguments fetch_tool {Yaml}.
Arguments search_catalog {Yaml}.
Arguments collect_one {Yaml}.
Arguments collect {Yaml}.
Arguments corpus_sortedResults {Yaml}.
Arguments search_corpus {Yaml}.

Arguments keys {A}.
Arguments threshold {A}.

(** ** Sample data

    A small results directory with three records and a stray file.  The
    record [demo-2024] has an explicit name, [nationals-2024] has none, and
    [broken] does not interpret.  File contents are kept short: the
    parser hands them on and the interpreter recognises them. *)

Module Demo.

Definition team (number : Z) (school : string) (rank points : Z) : Team.t :=
  {| Team.number := number; Team.school := Some school;
     Team.location := None; Team.suffix := None;
     Team.disqualified := false; Team.exhibition := false;
     Team.rank := rank; Team.points := points |}.

Definition troy : Team.t := team 7 "Troy High School" 1 40.
Definition mira_loma : Team.t := team 3 "Mira Loma High School" 2 48.
Definition troy_academy : Team.t := team 12 "Troy Academy" 3 55.

Definition anatomy : Event.t := {| Event.name := "Anatomy" |}.
Definition write_it : Event.t := {| Event.name := "Write It Do It" |}.

(** A placing earns its place as points, unless it is one of the
    team's worst placings that the tournament drops: then it earns
    none. *)
Definition placing (team : Team.t) (event : Event.t) (place : Z)
    (counted : bool) : Placing.t :=
  {| Placing.team := team; Placing.event := event; Placing.place := Some place;
     Placing.tie := false; Placing.points := if counted then place else 0;
     Placing.dropped := None |}.

(** The placings in the order of the record: by event as the events were
    entered, Write It Do It first. *)
Definition demo_2024 : Interpreter.t :=
  {| Interpreter.tournament :=
       {| Tournament.name := Some "Demo Invitational"; Tournament.level := "Invitational";
          Tournament.state := "CA"; Tournament.location := "Demo High School" |};
     Interpreter.events := [anatomy; write_it];
     Interpreter.teams := [troy; mira_loma; troy_academy];
     Interpreter.placings :=
       [placing troy write_it 1 true; placing mira_loma write_it 2 true;
        placing troy_academy write_it 3 true;
        placing troy anatomy 2 false; placing mira_loma anatomy 1 true;
        placing troy_academy anatomy 3 true] |}.

Definition nationals_2024 : Interpreter.t :=
  {| Interpreter.tournament :=
       {| Tournament.name := None; Tournament.level := "Nationals";
          Tournament.state := "MI"; Tournament.location := "Michigan State University" |};
     Interpreter.events := [anatomy];
     Interpreter.teams := [troy];
     Interpreter.placings := [placing troy anatomy 1 true] |}.

(** The record of a league: its interpreter hands out a team of rank 1,
    a team of rank 2 and then another team of rank 1. *)
Definition ecole_elan : Team.t := team 21 "École Élan" 1 40.
Definition northview : Team.t := team 22 "Northview High School" 2 48.
Definition elan_guests : Team.t := team 23 "Élan Guests" 1 35.

Definition league_2024 : Interpreter.t :=
  {| Interpreter.tournament :=
       {| Tournament.name := Some "Élan League"; Tournament.level := "Invitational";
          Tournament.state := "CA"; Tournament.location := "École Élan" |};
     Interpreter.events := [anatomy];
     Interpreter.teams := [ecole_elan; northview; elan_guests];
     Interpreter.placings :=
       [placing ecole_elan anatomy 2 true; placing northview anatomy 3 true;
        placing elan_guests anatomy 1 true] |}.

Definition enoent (file : string) : Js.Error :=
  {| Js.code := Some "ENOENT";
     Js.message := "ENOENT: no such file or directory, open " +:+ file |}.

Definition store : Store :=
  {| readdir :=
       inr ["nationals-2024.yaml"; "README.md"; "demo-2024.yaml"; "broken.yaml"];
     readFile := fun file =>
       if String.eqb file "demo-2024.yaml" then inr "demo"
       else if String.eqb file "nationals-2024.yaml" then inr "nationals"
       else if String.eqb file "broken.yaml" then inr "broken"
       else inl (enoent file) |}.

(** A second directory, with the record of the league. *)
Definition league_store : Store :=
  {| readdir := inr ["league-2024.yaml"];
     readFile := fun file =>
       if String.eqb file "league-2024.yaml" then inr "league"
       else inl (enoent file) |}.

(** A directory that cannot be read. *)
Definition no_directory : Store :=
  {| readdir := inl (enoent "results"); readFile := fun file => inl (enoent file) |}.

Definition yaml_load (content : string) : Result string := inr content.

Definition new_Interpreter (data : string) : Result Interpreter.t :=
  if String.eqb data "demo" then inr demo_2024
  else if String.eqb data "nationals" then inr nationals_2024
  else if String.eqb data "league" then inr league_2024
  else inl {| Js.code := None; Js.message := "invalid record" |}.

(** A plain matcher in the place of Fuse.js: an item matches when one of
    the searched keys contains the query, letter case aside, and its score
    is then 0. *)
Definition matcher (A : Type) (options : FuseOptions A) (xs : list A)
    (query : string) : list (FuseResult A) :=
  map (fun x => {| item := x; score := 0 |})
      (List.filter
         (fun x => existsb (fun key => Js.includes (Js.toLowerCase (key.1 x))
                                                   (Js.toLowerCase query))
                           (keys options))
         xs).

(** One decimal, rounded half up (scores are not negative). *)
Definition toFixed1 (q : Q) : string :=
  let tenths := Qfloor (q * 10 + (1 # 2)) in
  tpl [num (tenths / 10); "."; num (tenths mod 10)].

(** Both remote sources answer. *)
Definition remote_up : Remote :=
  {| tournaments_json :=
       Responded _ {| ok := true; status := 200;
                      body := inr [ {| CatalogTournament.title := Some "Troy Invitational";
                                       CatalogTournament.filename := Some "2024-02-10_troy_invitational_c";
                                       CatalogTournament.location := Some "Troy High School";
                                       CatalogTournament.division := Some "C";
                                       CatalogTournament.year := Some 2024;
                                       CatalogTournament.official := true;
                                       CatalogTournament.keywords := None |} ] |};
     schools_csv :=
       Responded _ {| ok := true; status := 200;
                      body := inr ("Troy High School,Fullerton,CA" +:+ nl
                                   +:+ "Mira Loma High School,Sacramento,CA" +:+ nl) |};
     schools_rejects_first := false |}.

(** The school directory answers 503. *)
Definition remote_schools_down : Remote :=
  {| tournaments_json := tournaments_json remote_up;
     schools_csv := Responded _ {| ok := false; status := 503; body := inr EmptyString |};
     schools_rejects_first := false |}.

End Demo.

(** ** The other handlers: team roster, resources, tool list and dispatch *)

(** An entry of the resource list. *)
Module Resource.
Record t := { uri : string; name : string; description : string;
              mimeType : string }.
End Resource.

(** The answer to a resource read: one content item, or a thrown
    [McpError]. *)
Inductive ResourceResult :=
  | Contents (uri mimeType text : string)
  | ResourceError (code : ErrorCode) (message : string).

(** A tool as the tool list advertises it: its name, the properties of its
    input schema and the required ones (descriptions left out). *)
Module Tool.
Record t := { name : string; properties : list string;
              required : list string }.
End Tool.

(** The arguments of a tool call as the handlers cast them; a tool reads
    its own fields and ignores the others.  Calls are taken to carry the
    fields their schema requires. *)
Module Args.
Record t := { tournamentId : string; teamId : string; event : option string;
              limit : option Q; query : string; type : option string;
              id : string }.
End Args.

Section Plumbing.

Context {Yaml : Type}.
Variable yaml_load : string -> Result Yaml.
Variable new_Interpreter : Yaml -> Result Interpreter.t.
Variable store : Store.

(** One line of [get_tournament_teams]; [parts.join] prints an undefined
    school as nothing. *)
Definition team_details (team : Team.t) : string :=
  let status := status_of "DQ" team in
  Js.join " "
    (["#" +:+ num (Team.number team); default EmptyString (Team.school team)]
     ++ (if Js.truthy (Team.location team)
         then [tpl ["("; Js.show (Team.location team); ")"]] else [])
     ++ (if Js.truthy (Team.suffix team)
         then ["- " +:+ Js.show (Team.suffix team)] else [])
     ++ (match status with
         | [] => []
         | _ => [tpl ["["; Js.join ", " status; "]"]]
         end))%list.

Definition get_tournament_teams (tournamentId : string) : ToolResult Yaml :=
  match loadInterpreter yaml_load new_Interpreter store tournamentId with
  | inl error => on_error "Failed to get tournament teams" tournamentId error
  | inr interpreter =>
      let teamDetails := map team_details (Interpreter.teams interpreter) in
      Text (tpl ["Tournament: "; name_or_id interpreter tournamentId; nl;
                 "Total Teams: ";
                 num (Z.of_nat (length (Interpreter.teams interpreter))); nl;
                 nl; "Teams:"; nl; Js.join nl teamDetails])
  end.

Definition results_scheme : string := "duosmium://results/".

Definition resource_of (tournamentId : string) : Resource.t :=
  {| Resource.uri := results_scheme +:+ tournamentId;
     Resource.name := "Science Olympiad Results - " +:+ tournamentId;
     Resource.description := "Results for tournament: " +:+ tournamentId;
     Resource.mimeType := "application/x-yaml" |}.

(** The resource list: the template entry, then one entry per available
    tournament. *)
Definition list_resources : list Resource.t :=
  {| Resource.uri := "duosmium://results/{id}";
     Resource.name := "Science Olympiad Results";
     Resource.description :=
       "Access Science Olympiad results by ID. Replace {id} with the specific result identifier.";
     Resource.mimeType := "application/x-yaml" |}
  :: map resource_of (getAvailableTournaments store).

(** The resource read: the file content as it is, once it has also gone
    through the YAML parser (whose result is not used). *)
Definition read_resource (uri : string) : ResourceResult :=
  if negb (Js.startsWith uri results_scheme) then
    ResourceError InvalidRequest
      "Invalid URI scheme. Expected duosmium://results/{id}"
  else
    let id := Js.replace results_scheme EmptyString uri in
    let read :=
      await content := readFile store (id +:+ ".yaml") in
      await parsedYaml := yaml_load content in
      inr content in
    match read with
    | inr content => Contents uri "application/x-yaml" content
    | inl error =>
        if bool_decide (Js.code error = Some "ENOENT") then
          ResourceError InvalidRequest ("Resource not found: " +:+ id)
        else
          ResourceError InternalError
            ("Failed to read resource: " +:+ Js.message error)
    end.

(** The tool list (the same names and fields in both variants). *)
Definition list_tools : list Tool.t :=
  [ {| Tool.name := "get_team_placement";
       Tool.properties := ["tournamentId"; "teamId"; "event"];
       Tool.required := ["tournamentId"; "teamId"] |};
    {| Tool.name := "get_tournament_rankings";
       Tool.properties := ["tournamentId"; "limit"];
       Tool.required := ["tournamentId"] |};
    {| Tool.name := "list_tournaments";
       Tool.properties := []; Tool.required := [] |};
    {| Tool.name := "get_tournament_info";
       Tool.properties := ["tournamentId"];
       Tool.required := ["tournamentId"] |};
    {| Tool.name := "get_tournament_teams";
       Tool.properties := ["tournamentId"];
       Tool.required := ["tournamentId"] |};
    {| Tool.name := "get_team_all_placements";
       Tool.properties := ["tournamentId"; "teamId"];
       Tool.required := ["tournamentId"; "teamId"] |};
    {| Tool.name := "search";
       Tool.properties := ["query"; "type"; "limit"];
       Tool.required := ["query"] |};
    {| Tool.name := "fetch";
       Tool.properties := ["id"]; Tool.required := ["id"] |} ].

(** The tool call handler: the chain of tests on the tool name, with the
    [search] of the variant at hand. *)
Definition call_tool
    (search : string -> option string -> option Q -> ToolResult Yaml)
    (name : string) (args : Args.t) : ToolResult Yaml :=
  if String.eqb name "get_team_placement" then
    get_team_placement yaml_load new_Interpreter store
      (Args.tournamentId args) (Args.teamId args) (Args.event args)
  else if String.eqb name "get_tournament_rankings" then
    get_tournament_rankings yaml_load new_Interpreter store
      (Args.tournamentId args) (Args.limit args)
  else if String.eqb name "list_tournaments" then
    list_tournaments store
  else if String.eqb name "get_tournament_info" then
    get_tournament_info yaml_load new_Interpreter store (Args.tournamentId args)
  else if String.eqb name "get_tournament_teams" then
    get_tournament_teams (Args.tournamentId args)
  else if String.eqb name "get_team_all_placements" then
    get_team_all_placements yaml_load new_Interpreter store
      (Args.tournamentId args) (Args.teamId args)
  else if String.eqb name "search" then
    search (Args.query args) (Args.type args) (Args.limit args)
  else if String.eqb name "fetch" then
    fetch_tool yaml_load new_Interpreter store (Args.id args)
  else Throw MethodNotFound ("Unknown tool: " +:+ name).

Definition call_tool_catalog
    (fuse_search :
       forall A : Type, FuseOptions A -> list A -> string -> list (FuseResult A))
    (toFixed1 : Q -> string) (remote : Remote) : string -> Args.t -> ToolResult Yaml :=
  call_tool (search_catalog fuse_search toFixed1 remote).

Definition call_tool_corpus
    (fuse_search :
       forall A : Type, FuseOptions A -> list A -> string -> list (FuseResult A))
    : string -> Args.t -> ToolResult Yaml :=
  call_tool (search_corpus yaml_load new_Interpreter store fuse_search).

End Plumbing.

(** ** Vocabulary of the properties *)


(** Rank order on teams and event-name order on placements. *)
Definition rank_le (a b : Team.t) : Prop := Team.rank a <= Team.rank b.

(** The order of strings that [<=] and [sort] go by. *)
Definition code_unit_le (a b : string) : Prop := Js.code_unit_leb a b = true.

Definition event_name_le (p q : Placing.t) : Prop :=
  code_unit_le (Event.name (Placing.event p)) (Event.name (Placing.event q)).

(** The answer of [get_tournament_info] opens with the title that the
    document of [fetch] carries. *)
Definition titles_agree {Y} (fetched info : ToolResult Y) : Prop :=
  exists doc title rest,
    fetched = Json doc /\ doc_title doc = Some title /\
    info = Text (tpl ("Tournament: " :: title :: rest)).

(** A remote source is unavailable when the request rejects or the
    response is not [ok]. *)
Definition unavailable {B} (source : Fetched B) : Prop :=
  match source with
  | Rejected _ _ => True
  | Responded _ response => ok response = false
  end.

(** The records that load. *)
Definition loads {Yaml} (yaml_load : string -> Result Yaml)
    (new_Interpreter : Yaml -> Result Interpreter.t) (store : Store)
    (tournamentId : string) : bool :=
  match loadInterpreter yaml_load new_Interpreter store tournamentId with
  | inr _ => true
  | inl _ => false
  end.

(** The ASCII strings, and letter case on them: the letters A to Z go
    to a to z, nothing else changes. *)
Definition ascii_only (s : string) : bool :=
  Js.all_chars (fun c => (N_of_ascii c <? 128)%N) s.

Definition lower_ascii (c : ascii) : ascii :=
  let n := N_of_ascii c in
  if ((65 <=? n) && (n <=? 90))%N then ascii_of_N (n + 32) else c.

Fixpoint ascii_lower (s : string) : string :=
  match s with
  | EmptyString => EmptyString
  | String c s' => String (lower_ascii c) (ascii_lower s')
  end.

(** A code point that lower-casing leaves alone, wherever it stands. *)
Definition lower_case_stable (d : N) : bool :=
  Js.scalar_value d && negb (d =? 931)%N &&
  match Js.lower_code_point d with
  | [e] => (e =? d)%N
  | _ => false
  end.

(** The predicate [P] holds of every image of a range of the lower-case
    mapping. *)
Definition images_all (P : N -> bool) (r : N * N * N * N) : bool :=
  let '(first, last, step, target) := r in
  (0 <? step)%N &&
  forallb (fun k => P (target + step * N.of_nat k)%N)
          (seq 0 (S (N.to_nat ((last - first) / step)))).

(** A digit or the minus sign, as a code point and as a character. *)
Definition digit_point (d : N) : bool :=
  (((48 <=? d) && (d <=? 57)) || (d =? 45))%N.

Definition digit_char (c : ascii) : bool := digit_point (N_of_ascii c).

(** A character of a printed number: a digit, a sign, the point or the
    letter e. *)
Definition number_char (c : ascii) : bool :=
  let n := N_of_ascii c in
  (((48 <=? n) && (n <=? 57)) || (n =? 43) || (n =? 45) || (n =? 46)
   || (n =? 101))%N.

(** The last character of [s] is a word character. *)
Fixpoint ends_in_word (s : string) : bool :=
  match s with
  | EmptyString => false
  | String c EmptyString => Js.word_char c
  | String _ s' => ends_in_word s'
  end.

(** What the record [tournamentId] brings into the corpus of a search of
    the given type: the item of its tournament and the items of its teams
    when it loads, nothing when it does not. *)
Definition record_items {Yaml} (yaml_load : string -> Result Yaml)
    (new_Interpreter : Yaml -> Result Interpreter.t) (store : Store)
    (type tournamentId : string) : list CorpusItem.t * list CorpusItem.t :=
  match loadInterpreter yaml_load new_Interpreter store tournamentId with
  | inr interpreter =>
      (if String.eqb type "tournament" || String.eqb type "both"
       then [corpus_tournament_item tournamentId interpreter] else [],
       if String.eqb type "team" || String.eqb type "both"
       then map (corpus_team_item tournamentId interpreter)
                (Interpreter.teams interpreter)
       else [])
  | inl _ => ([], [])
  end.

(** * Properties *)

(** ** Facts about the string primitives *)

Lemma append_nil_l (s : string) : EmptyString +:+ s = s.
Proof. reflexivity. Qed.

Lemma append_cons (c : ascii) (a b : string) :
  String c a +:+ b = String c (a +:+ b).
Proof. reflexivity. Qed.

Lemma append_empty_r (s : string) : s +:+ EmptyString = s.
Proof.
  induction s as [|c s IH]; [done | by rewrite append_cons, IH].
Qed.

Lemma append_assoc (a b c : string) : (a +:+ b) +:+ c = a +:+ (b +:+ c).
Proof.
  induction a as [|x a IH]; [done | by rewrite !append_cons, IH].
Qed.

Lemma startsWith_spec (s p : string) :
  Js.startsWith s p = true <-> exists post, s = p +:+ post.
Proof.
  unfold Js.startsWith. revert s.
  induction p as [|a p IH]; intros s; simpl.
  - destruct s; split; eauto.
  - destruct s as [|b s]; simpl.
    + split; [done | intros [post H]; discriminate].
    + destruct (ascii_dec a b) as [->|Hne].
      * rewrite IH. split; intros [post H]; exists post;
          rewrite append_cons in *; congruence.
      * split; [done | intros [post H]; rewrite append_cons in H; congruence].
Qed.

Lemma includes_unfold (s p : string) :
  Js.includes s p =
    Js.startsWith s p ||
    match s with
    | EmptyString => false
    | String _ s' => Js.includes s' p
    end.
Proof. by destruct s. Qed.


Lemma replace_absent (p r s : string) :
  Js.includes s p = false -> Js.replace p r s = s.
Proof.
  induction s as [|c s IH]; rewrite includes_unfold; intros H;
    apply orb_false_iff in H as [Hp Hs].
  - unfold Js.startsWith in *. by destruct p.
  - cbn [Js.replace]. rewrite Hp. by rewrite IH.
Qed.

Lemma expandStateName_other (state : string) :
  Js.includes state "sCA" = false -> Js.includes state "nCA" = false ->
  expandStateName state = state.
Proof.
  intros Hs Hn. unfold expandStateName.
  rewrite (replace_absent _ _ _ Hs). by apply replace_absent.
Qed.

Lemma truthy_Some (n : string) : n <> EmptyString -> Js.truthy (Some n) = true.
Proof. intros H. simpl. by destruct n. Qed.

Lemma or_else_truthy (n d : string) : n <> EmptyString -> Js.or_else (Some n) d = n.
Proof. intros H. simpl. by destruct n. Qed.

Lemma or_else_falsy (o : option string) (d : string) :
  Js.truthy o = false -> Js.or_else o d = d.
Proof. destruct o as [[|c n]|]; simpl; done. Qed.

(** ** UTF-8 and letter case *)

Lemma byte_code (n : N) : (n < 256)%N -> N_of_ascii (ascii_of_N n) = n.
Proof. apply N_ascii_embedding. Qed.

Lemma continuation_byte (n : N) :
  (n < 64)%N -> Js.continuation (ascii_of_N (128 + n)) = Some n.
Proof.
  intros Hn. unfold Js.continuation. rewrite byte_code by lia.
  replace ((128 <=? 128 + n)%N) with true by (symmetry; apply N.leb_le; lia).
  replace ((128 + n <? 192)%N) with true by (symmetry; apply N.ltb_lt; lia).
  simpl. f_equal. lia.
Qed.

Lemma six_bits (c : N) : (c = c / 64 * 64 + c mod 64 /\ c mod 64 < 64)%N.
Proof.
  pose proof (N.div_mod c 64 ltac:(lia)).
  pose proof (N.mod_lt c 64 ltac:(lia)). lia.
Qed.

Lemma ltb_true (a b : N) : (a < b)%N -> (a <? b)%N = true.
Proof. apply N.ltb_lt. Qed.

Lemma ltb_false (a b : N) : (b <= a)%N -> (a <? b)%N = false.
Proof. apply N.ltb_ge. Qed.

Lemma leb_true (a b : N) : (a <= b)%N -> (a <=? b)%N = true.
Proof. apply N.leb_le. Qed.

Lemma utf8_decode_encode_one (c : N) (rest : string) :
  Js.scalar_value c = true ->
  Js.utf8_decode (Js.utf8_encode_one c rest) = cons c <$> Js.utf8_decode rest.
Proof.
  intros Hc.
  assert (c < 1114112)%N as Hmax.
  { unfold Js.scalar_value in Hc. apply orb_true_iff in Hc as [Hc|Hc].
    - apply N.ltb_lt in Hc. lia.
    - apply andb_true_iff in Hc as [_ Hc]. by apply N.ltb_lt in Hc. }
  unfold Js.utf8_encode_one.
  destruct (N.ltb_spec c 128) as [H1|H1].
  { cbn [Js.utf8_decode]. rewrite byte_code by lia.
    by rewrite ltb_true. }
  destruct (six_bits c) as [E1 B1].
  destruct (N.ltb_spec c 2048) as [H2|H2].
  { set (q := (c / 64)%N) in *. set (r := (c mod 64)%N) in *.
    clearbody q r.
    cbn [Js.utf8_decode]. rewrite byte_code by lia.
    rewrite continuation_byte by lia.
    rewrite (ltb_false (192 + q)) by lia.
    rewrite (ltb_true (192 + q) 224) by lia.
    rewrite (leb_true 192) by lia.
    replace ((192 + q - 192) * 64 + r)%N with c by lia.
    by rewrite (leb_true 128) by lia. }
  destruct (six_bits (c / 64)) as [E2 B2].
  rewrite N.Div0.div_div in E2. change (64 * 64)%N with 4096%N in E2.
  destruct (N.ltb_spec c 65536) as [H3|H3].
  { set (q := (c / 4096)%N) in *. set (m := ((c / 64) mod 64)%N) in *.
    set (r := (c mod 64)%N) in *. set (q' := (c / 64)%N) in *.
    clearbody q m r q'.
    cbn [Js.utf8_decode]. rewrite byte_code by lia.
    rewrite !continuation_byte by lia.
    rewrite (ltb_false (224 + q) 128) by lia.
    rewrite (ltb_false (224 + q) 224) by lia.
    rewrite (ltb_true (224 + q) 240) by lia.
    replace ((224 + q - 224) * 4096 + m * 64 + r)%N with c by lia.
    rewrite (leb_true 2048) by lia. by rewrite Hc. }
  destruct (six_bits (c / 4096)) as [E3 B3].
  rewrite N.Div0.div_div in E3. change (4096 * 64)%N with 262144%N in E3.
  set (q := (c / 262144)%N) in *. set (m1 := ((c / 4096) mod 64)%N) in *.
  set (m := ((c / 64) mod 64)%N) in *.
  set (r := (c mod 64)%N) in *. set (q' := (c / 64)%N) in *.
  set (q'' := (c / 4096)%N) in *.
  clearbody q m1 m r q' q''.
  cbn [Js.utf8_decode]. rewrite byte_code by lia.
  rewrite !continuation_byte by lia.
  rewrite (ltb_false (240 + q) 128) by lia.
  rewrite (ltb_false (240 + q) 224) by lia.
  rewrite (ltb_false (240 + q) 240) by lia.
  rewrite (ltb_true (240 + q) 248) by lia.
  replace ((240 + q - 240) * 262144 + m1 * 4096 + m * 64 + r)%N with c by lia.
  rewrite (leb_true 65536) by lia. by rewrite ltb_true.
Qed.

Lemma utf8_decode_encode (points : list N) :
  Forall (fun c => Js.scalar_value c = true) points ->
  Js.utf8_decode (Js.utf8_encode points) = Some points.
Proof.
  induction 1 as [|c points Hc _ IH]; [done|].
  change (Js.utf8_encode (c :: points))
    with (Js.utf8_encode_one c (Js.utf8_encode points)).
  by rewrite utf8_decode_encode_one, IH.
Qed.

Lemma scalar_below (c : N) : (c < 55296)%N -> Js.scalar_value c = true.
Proof. intros. unfold Js.scalar_value. by rewrite ltb_true. Qed.

Lemma continuation_small (b : ascii) (n : N) :
  Js.continuation b = Some n -> (n < 64)%N.
Proof.
  unfold Js.continuation.
  destruct (N.leb_spec 128 (N_of_ascii b)); simpl; [|done].
  destruct (N.ltb_spec (N_of_ascii b) 192); [|done].
  intros [= <-]. lia.
Qed.

Lemma utf8_decode_scalar (s : string) (points : list N) :
  Js.utf8_decode s = Some points ->
  Forall (fun c => Js.scalar_value c = true) points.
Proof.
  remember (String.length s) as n eqn:Hn.
  assert (String.length s <= n)%nat as Hlen by lia. clear Hn.
  revert s points Hlen.
  induction n as [|n IH]; intros s points Hlen.
  { destruct s; [|simpl in Hlen; lia]. by intros [= <-]. }
  destruct s as [|b0 s1]; [by intros [= <-]|].
  simpl in Hlen. cbn [Js.utf8_decode]. lazy zeta.
  destruct (N.ltb_spec (N_of_ascii b0) 128) as [H0|H0].
  { intros (rest & Hrest & ->)%fmap_Some.
    constructor; [apply scalar_below; lia|].
    apply (IH s1); [lia|done]. }
  destruct s1 as [|b1 s2]; [done|]. simpl in Hlen.
  destruct (Js.continuation b1) as [n1|] eqn:H1; [|done].
  apply continuation_small in H1.
  destruct (N.ltb_spec (N_of_ascii b0) 224) as [H224|H224].
  { destruct (_ && _); [|done].
    intros (rest & Hrest & ->)%fmap_Some.
    constructor; [apply scalar_below; lia|].
    apply (IH s2); [lia|done]. }
  destruct s2 as [|b2 s3]; [done|]. simpl in Hlen.
  destruct (Js.continuation b2) as [n2|] eqn:H2; [|done].
  destruct (N.ltb_spec (N_of_ascii b0) 240) as [H240|H240].
  { destruct (_ <=? _)%N; [|done]. simpl.
    destruct (Js.scalar_value _) eqn:Hs; [|done].
    intros (rest & Hrest & ->)%fmap_Some.
    constructor; [done|]. apply (IH s3); [lia|done]. }
  destruct s3 as [|b3 s4]; [done|]. simpl in Hlen.
  destruct (Js.continuation b3) as [n3|] eqn:H3; [|done].
  destruct (N.ltb_spec (N_of_ascii b0) 248) as [H248|H248]; [|done].
  simpl.
  destruct (N.leb_spec 65536
              ((N_of_ascii b0 - 240) * 262144 + n1 * 4096 + n2 * 64 + n3))
    as [Hlow|Hlow]; [|done].
  simpl.
  destruct (N.ltb_spec
              ((N_of_ascii b0 - 240) * 262144 + n1 * 4096 + n2 * 64 + n3)
              1114112) as [Hhigh|Hhigh]; [|done].
  intros (rest & Hrest & ->)%fmap_Some.
  constructor.
  - unfold Js.scalar_value. rewrite (ltb_true _ 1114112) by done.
    rewrite (leb_true 57344) by lia. by rewrite orb_true_r.
  - apply (IH s4); [lia|done].
Qed.

(** Decoding and encoding are inverse to each other. *)
Lemma continuation_code (b : ascii) (n : N) :
  Js.continuation b = Some n -> b = ascii_of_N (128 + n) /\ (n < 64)%N.
Proof.
  unfold Js.continuation.
  destruct (N.leb_spec 128 (N_of_ascii b)) as [Hlow|]; simpl; [|done].
  destruct (N.ltb_spec (N_of_ascii b) 192) as [Hhigh|]; [|done].
  intros [= <-]. split; [|lia].
  replace (128 + (N_of_ascii b - 128))%N with (N_of_ascii b) by lia.
  by rewrite ascii_N_embedding.
Qed.

Lemma div_64 (a r : N) : (r < 64)%N -> ((a * 64 + r) / 64 = a)%N.
Proof. intros Hr. symmetry. apply (N.div_unique _ 64 a r); lia. Qed.

Lemma mod_64 (a r : N) : (r < 64)%N -> ((a * 64 + r) mod 64 = r)%N.
Proof. intros Hr. symmetry. apply (N.mod_unique _ 64 a r); lia. Qed.

(** A string that decodes starts with the bytes of its first code
    point. *)
Lemma utf8_decode_cons_inv (s : string) (c : N) (points : list N) :
  Js.utf8_decode s = Some (c :: points) ->
  exists rest, s = Js.utf8_encode_one c rest /\
               Js.utf8_decode rest = Some points.
Proof.
  destruct s as [|b0 s1]; [done|].
  cbn [Js.utf8_decode]. lazy zeta.
  pose proof (ascii_N_embedding b0) as Hb0.
  destruct (N.ltb_spec (N_of_ascii b0) 128) as [H0|H0].
  { intros (rest & Hrest & [= -> ->])%fmap_Some. exists s1.
    unfold Js.utf8_encode_one. rewrite ltb_true by done. by rewrite Hb0. }
  destruct s1 as [|b1 s2]; [done|].
  destruct (Js.continuation b1) as [n1|] eqn:H1; [|done].
  apply continuation_code in H1 as [-> H1].
  destruct (N.ltb_spec (N_of_ascii b0) 224) as [H224|H224].
  { destruct (N.leb_spec 192 (N_of_ascii b0)) as [H192|]; [|done]. simpl.
    destruct (N.leb_spec 128 ((N_of_ascii b0 - 192) * 64 + n1)) as [Hc|];
      [|done].
    intros (rest & Hrest & [= -> ->])%fmap_Some. exists s2. split; [|done].
    unfold Js.utf8_encode_one.
    rewrite ltb_false, ltb_true by lia.
    rewrite div_64, mod_64 by done.
    replace (192 + (N_of_ascii b0 - 192))%N with (N_of_ascii b0) by lia.
    by rewrite Hb0. }
  destruct s2 as [|b2 s3]; [done|].
  destruct (Js.continuation b2) as [n2|] eqn:H2; [|done].
  apply continuation_code in H2 as [-> H2].
  destruct (N.ltb_spec (N_of_ascii b0) 240) as [H240|H240].
  { destruct (N.leb_spec 2048 ((N_of_ascii b0 - 224) * 4096 + n1 * 64 + n2))
      as [Hc|]; [|done]. simpl.
    destruct (Js.scalar_value _); [|done].
    intros (rest & Hrest & [= -> ->])%fmap_Some. exists s3. split; [|done].
    unfold Js.utf8_encode_one.
    rewrite (ltb_false _ 128), (ltb_false _ 2048), ltb_true by lia.
    replace ((N_of_ascii b0 - 224) * 4096 + n1 * 64 + n2)%N
      with (((N_of_ascii b0 - 224) * 64 + n1) * 64 + n2)%N by lia.
    rewrite mod_64 by done.
    replace 4096%N with (64 * 64)%N by done.
    rewrite <- N.Div0.div_div, !div_64, mod_64 by done.
    replace (224 + (N_of_ascii b0 - 224))%N with (N_of_ascii b0) by lia.
    by rewrite Hb0. }
  destruct s3 as [|b3 s4]; [done|].
  destruct (Js.continuation b3) as [n3|] eqn:H3; [|done].
  apply continuation_code in H3 as [-> H3].
  destruct (N.ltb_spec (N_of_ascii b0) 248) as [H248|]; [|done]. simpl.
  destruct (N.leb_spec 65536
              ((N_of_ascii b0 - 240) * 262144 + n1 * 4096 + n2 * 64 + n3))
    as [Hc|]; [|done]. simpl.
  destruct (N.ltb_spec
              ((N_of_ascii b0 - 240) * 262144 + n1 * 4096 + n2 * 64 + n3)
              1114112); [|done].
  intros (rest & Hrest & [= -> ->])%fmap_Some. exists s4. split; [|done].
  unfold Js.utf8_encode_one.
  rewrite (ltb_false _ 128), (ltb_false _ 2048), (ltb_false _ 65536) by lia.
  replace ((N_of_ascii b0 - 240) * 262144 + n1 * 4096 + n2 * 64 + n3)%N
    with ((((N_of_ascii b0 - 240) * 64 + n1) * 64 + n2) * 64 + n3)%N by lia.
  rewrite mod_64 by done.
  replace 262144%N with (64 * (64 * 64))%N by done.
  replace 4096%N with (64 * 64)%N by done.
  rewrite <- !N.Div0.div_div, !div_64, !mod_64 by done.
  replace (240 + (N_of_ascii b0 - 240))%N with (N_of_ascii b0) by lia.
  by rewrite Hb0.
Qed.

Lemma utf8_decode_nil_inv (s : string) :
  Js.utf8_decode s = Some [] -> s = EmptyString.
Proof.
  destruct s as [|b0 s1]; [done|].
  cbn [Js.utf8_decode]. lazy zeta.
  repeat (case_match; try done);
    by intros (rest & Hrest & [=])%fmap_Some.
Qed.

Lemma utf8_encode_decode (s : string) (points : list N) :
  Js.utf8_decode s = Some points -> Js.utf8_encode points = s.
Proof.
  revert s. induction points as [|c points IH]; intros s Hs.
  - by apply utf8_decode_nil_inv in Hs as ->.
  - apply utf8_decode_cons_inv in Hs as (rest & -> & Hrest).
    change (Js.utf8_encode (c :: points))
      with (Js.utf8_encode_one c (Js.utf8_encode points)).
    by rewrite (IH rest Hrest).
Qed.

Lemma utf8_decode_low (c : ascii) (s : string) :
  (N_of_ascii c <? 128)%N = true ->
  Js.utf8_decode (String c s) = cons (N_of_ascii c) <$> Js.utf8_decode s.
Proof. intros Hc. cbn [Js.utf8_decode]. by rewrite Hc. Qed.

(** The bytes of a code point beyond ASCII: a first byte and a run of
    further bytes, none of them ASCII. *)
Lemma utf8_encode_one_high (c : N) (rest : string) (d : ascii) (y : string) :
  Js.scalar_value c = true ->
  Js.utf8_encode_one c rest = String d y ->
  (128 <=? N_of_ascii d)%N = true ->
  exists tail,
    (forall s, Js.utf8_encode_one c s = String d (tail +:+ s)) /\
    (tail <> EmptyString) /\
    Js.all_chars (fun e => (128 <=? N_of_ascii e)%N) tail = true.
Proof.
  intros Hc Henc Hd.
  assert (c < 1114112)%N as Hmax.
  { unfold Js.scalar_value in Hc. apply orb_true_iff in Hc as [Hc|Hc].
    - apply N.ltb_lt in Hc. lia.
    - apply andb_true_iff in Hc as [_ Hc]. by apply N.ltb_lt in Hc. }
  destruct (six_bits c) as [E1 B1].
  destruct (six_bits (c / 64)) as [E2 B2].
  destruct (six_bits (c / 4096)) as [E3 B3].
  revert Henc. unfold Js.utf8_encode_one.
  set (r1 := (c mod 64)%N) in *. set (r2 := ((c / 64) mod 64)%N) in *.
  set (r3 := ((c / 4096) mod 64)%N) in *.
  clearbody r1 r2 r3.
  destruct (N.ltb_spec c 128) as [H1|H1].
  { intros [= <- _]. rewrite byte_code in Hd by lia.
    apply N.leb_le in Hd. lia. }
  destruct (N.ltb_spec c 2048) as [H2|H2].
  { intros [= <- _].
    exists (String (ascii_of_N (128 + r1)) EmptyString).
    split; [done|]. split; [done|]. cbn [Js.all_chars].
    rewrite byte_code by lia. by rewrite leb_true by lia. }
  destruct (N.ltb_spec c 65536) as [H3|H3].
  { intros [= <- _].
    exists (String (ascii_of_N (128 + r2))
              (String (ascii_of_N (128 + r1)) EmptyString)).
    split; [done|]. split; [done|]. cbn [Js.all_chars].
    rewrite !byte_code by lia. by rewrite !leb_true by lia. }
  intros [= <- _].
  exists (String (ascii_of_N (128 + r3))
            (String (ascii_of_N (128 + r2))
               (String (ascii_of_N (128 + r1)) EmptyString))).
  split; [done|]. split; [done|]. cbn [Js.all_chars].
  rewrite !byte_code by lia. by rewrite !leb_true by lia.
Qed.

Lemma lower_case_lookup_images (P : N -> bool)
    (ranges : list (N * N * N * N)) (c d : N) :
  forallb (images_all P) ranges = true ->
  Js.lower_case_lookup ranges c = Some d -> P d = true.
Proof.
  induction ranges as [|[[[first last] step] target] ranges IH]; [done|].
  cbn [forallb Js.lower_case_lookup].
  intros [Hr Hrs]%andb_true_iff.
  destruct (_ && _ && _) eqn:Hin; [|by apply IH].
  intros [= <-]. clear IH Hrs.
  apply andb_true_iff in Hin as [[Hf Hl]%andb_true_iff Hm].
  apply N.leb_le in Hf, Hl. apply N.eqb_eq in Hm.
  unfold images_all in Hr. apply andb_true_iff in Hr as [Hs Hr].
  apply N.ltb_lt in Hs.
  rewrite forallb_forall in Hr.
  specialize (Hr (N.to_nat ((c - first) / step))).
  rewrite N2Nat.id in Hr.
  apply N.Div0.div_exact in Hm. rewrite <- Hm in Hr. apply Hr.
  apply in_seq. split; [lia|]. simpl.
  assert ((c - first) / step <= (last - first) / step)%N
    by (apply N.Div0.div_le_mono; lia).
  lia.
Qed.

Lemma lower_case_ranges_stable :
  forallb (images_all lower_case_stable) Js.lower_case_ranges = true.
Proof. by vm_compute. Qed.

Lemma lower_case_ranges_letters :
  forallb (images_all (fun d => negb (digit_point d))) Js.lower_case_ranges
  = true.
Proof. by vm_compute. Qed.

Lemma lower_code_point_stable (c : N) :
  Js.scalar_value c = true -> c <> 931%N ->
  Forall (fun d => lower_case_stable d = true) (Js.lower_code_point c).
Proof.
  intros Hc Hsigma. unfold Js.lower_code_point.
  destruct (N.ltb_spec c 128) as [Hascii|Hascii].
  { constructor; [|done]. unfold lower_case_stable, Js.lower_code_point.
    destruct (N.leb_spec 65 c), (N.leb_spec c 90); simpl.
    - rewrite scalar_below by lia. rewrite (ltb_true (c + 32) 128) by lia.
      replace ((c + 32 =? 931)%N) with false by (symmetry; apply N.eqb_neq; lia).
      replace ((c + 32 <=? 90)%N) with false by (symmetry; apply N.leb_gt; lia).
      rewrite andb_false_r. simpl. apply N.eqb_refl.
    - rewrite Hc, (ltb_true c 128) by lia.
      replace ((c =? 931)%N) with false by (symmetry; apply N.eqb_neq; lia).
      replace ((c <=? 90)%N) with false by (symmetry; apply N.leb_gt; lia).
      rewrite andb_false_r. simpl. apply N.eqb_refl.
    - rewrite Hc, (ltb_true c 128) by lia.
      replace ((c =? 931)%N) with false by (symmetry; apply N.eqb_neq; lia).
      replace ((65 <=? c)%N) with false by (symmetry; apply N.leb_gt; lia).
      simpl. apply N.eqb_refl.
    - lia. }
  destruct (N.eqb_spec c 304) as [->|Hdot].
  { by repeat constructor. }
  destruct (Js.lower_case_lookup Js.lower_case_ranges c) as [d|] eqn:Hlookup.
  { constructor; [|done]. simpl.
    by eapply lower_case_lookup_images, Hlookup; apply lower_case_ranges_stable. }
  constructor; [|done]. simpl.
  unfold lower_case_stable, Js.lower_code_point.
  rewrite Hc, (ltb_false c 128), Hlookup by done.
  replace ((c =? 931)%N) with false by (symmetry; by apply N.eqb_neq).
  replace ((c =? 304)%N) with false by (symmetry; by apply N.eqb_neq).
  simpl. apply N.eqb_refl.
Qed.

Lemma lower_code_points_stable (points : list N) (after_cased : bool) :
  Forall (fun c => Js.scalar_value c = true) points ->
  Forall (fun d => lower_case_stable d = true)
         (Js.lower_code_points after_cased points).
Proof.
  intros Hpoints. revert after_cased.
  induction Hpoints as [|c points Hc _ IH]; intros after_cased; [constructor|].
  cbn [Js.lower_code_points]. apply Forall_app. split; [|apply IH].
  destruct (N.eqb_spec c 931) as [->|Hsigma].
  - by destruct (_ && _); repeat constructor.
  - by apply lower_code_point_stable.
Qed.

Lemma lower_code_points_fixed (points : list N) (after_cased : bool) :
  Forall (fun d => lower_case_stable d = true) points ->
  Js.lower_code_points after_cased points = points.
Proof.
  intros Hpoints. revert after_cased.
  induction Hpoints as [|d points Hd _ IH]; intros after_cased; [done|].
  cbn [Js.lower_code_points]. rewrite IH.
  unfold lower_case_stable in Hd.
  apply andb_true_iff in Hd as [[_ Hsigma]%andb_true_iff Hd].
  apply negb_true_iff in Hsigma. rewrite Hsigma.
  destruct (Js.lower_code_point d) as [|e [|? ?]]; [done| |done].
  apply N.eqb_eq in Hd. by subst.
Qed.

Lemma stable_scalar (points : list N) :
  Forall (fun d => lower_case_stable d = true) points ->
  Forall (fun c => Js.scalar_value c = true) points.
Proof.
  intros Hpoints. eapply Forall_impl; [exact Hpoints|].
  intros d Hd. unfold lower_case_stable in Hd.
  by apply andb_true_iff in Hd as [[? _]%andb_true_iff _].
Qed.

Lemma toLowerCase_idem (s : string) :
  Js.toLowerCase (Js.toLowerCase s) = Js.toLowerCase s.
Proof.
  unfold Js.toLowerCase at 2 3.
  destruct (Js.utf8_decode s) as [points|] eqn:Hs.
  - pose proof (lower_code_points_stable points false
                  (utf8_decode_scalar _ _ Hs)) as Hstable.
    unfold Js.toLowerCase.
    rewrite utf8_decode_encode by by apply stable_scalar.
    by rewrite lower_code_points_fixed.
  - unfold Js.toLowerCase. by rewrite Hs.
Qed.

(** A lower-case form decodes to code points that lower-casing leaves
    alone, and a string that does is its own lower-case form. *)
Lemma toLowerCase_decode (s : string) (points : list N) :
  Js.utf8_decode (Js.toLowerCase s) = Some points ->
  Forall (fun d => lower_case_stable d = true) points.
Proof.
  unfold Js.toLowerCase.
  destruct (Js.utf8_decode s) as [points0|] eqn:Hs; [|by rewrite Hs].
  pose proof (lower_code_points_stable points0 false
                (utf8_decode_scalar _ _ Hs)) as Hstable.
  rewrite utf8_decode_encode by by apply stable_scalar.
  by intros [= <-].
Qed.

Lemma toLowerCase_fixed (s : string) :
  (forall points, Js.utf8_decode s = Some points ->
                  Forall (fun d => lower_case_stable d = true) points) ->
  Js.toLowerCase s = s.
Proof.
  intros Hstable. unfold Js.toLowerCase.
  destruct (Js.utf8_decode s) as [points|] eqn:Hs; [|done].
  rewrite lower_code_points_fixed by by apply Hstable.
  by apply utf8_encode_decode.
Qed.

(** On an ASCII string lower-casing folds the letters A to Z and nothing
    else. *)
Lemma ascii_only_app (a b : string) :
  ascii_only (a +:+ b) = ascii_only a && ascii_only b.
Proof.
  unfold ascii_only. induction a as [|c a IH]; [done|].
  rewrite append_cons. simpl. by rewrite IH, andb_assoc.
Qed.



Lemma utf8_decode_ascii (s : string) :
  ascii_only s = true ->
  Js.utf8_decode s = Some (map N_of_ascii (list_ascii_of_string s)).
Proof.
  unfold ascii_only. induction s as [|c s IH]; [done|]. simpl.
  intros [Hc Hs]%andb_true_iff. by rewrite Hc, (IH Hs).
Qed.

Lemma lower_code_points_ascii (s : string) (after_cased : bool) :
  ascii_only s = true ->
  Js.utf8_encode
    (Js.lower_code_points after_cased (map N_of_ascii (list_ascii_of_string s)))
  = ascii_lower s.
Proof.
  unfold ascii_only. revert after_cased.
  induction s as [|c s IH]; intros after_cased; [done|].
  cbn [Js.all_chars list_ascii_of_string map Js.lower_code_points ascii_lower].
  intros [Hc%N.ltb_lt Hs]%andb_true_iff.
  replace ((N_of_ascii c =? 931)%N) with false
    by (symmetry; apply N.eqb_neq; lia).
  unfold Js.lower_code_point. rewrite ltb_true by done.
  cbn [app Js.utf8_encode foldr].
  change (foldr Js.utf8_encode_one EmptyString) with Js.utf8_encode.
  rewrite (IH _ Hs). unfold Js.utf8_encode_one, lower_ascii.
  destruct (_ && _) eqn:Hletter.
  - apply andb_true_iff in Hletter as [_ Hz%N.leb_le].
    by rewrite ltb_true by lia.
  - rewrite ltb_true by done. by rewrite ascii_N_embedding.
Qed.

Lemma toLowerCase_ascii (s : string) :
  ascii_only s = true -> Js.toLowerCase s = ascii_lower s.
Proof.
  intros Hs. unfold Js.toLowerCase. rewrite (utf8_decode_ascii s Hs).
  by apply lower_code_points_ascii.
Qed.

(** Only a digit lower-cases to a digit, and only the minus sign to the
    minus sign. *)
Lemma lower_code_points_digits_inv (points digits : list N)
    (after_cased : bool) :
  Forall (fun d => digit_point d = true) digits ->
  Js.lower_code_points after_cased points = digits -> points = digits.
Proof.
  intros Hdigits. revert points after_cased.
  induction Hdigits as [|d digits Hd _ IH]; intros points after_cased.
  - destruct points as [|c points]; [done|]. cbn [Js.lower_code_points].
    destruct (c =? 931)%N; [done|]. unfold Js.lower_code_point.
    by repeat case_match.
  - destruct points as [|c points]; [done|]. cbn [Js.lower_code_points].
    destruct (N.eqb_spec c 931) as [->|Hsigma].
    { intros [= <- _]. by destruct (_ && _). }
    unfold Js.lower_code_point.
    destruct (N.ltb_spec c 128) as [Hascii|Hascii].
    + destruct (_ && _) eqn:Hupper.
      * intros [= <- _]. apply andb_true_iff in Hupper as [H1%N.leb_le H2%N.leb_le].
        unfold digit_point in Hd.
        apply orb_true_iff in Hd as [[_ H%N.leb_le]%andb_true_iff|H%N.eqb_eq];
          lia.
      * intros [= -> Hrest]. f_equal. by eapply IH.
    + destruct (N.eqb_spec c 304) as [->|Hdot]; [by intros [= <- _]|].
      destruct (Js.lower_case_lookup Js.lower_case_ranges c) as [e|] eqn:Hlookup.
      * intros [= <- _].
        pose proof (lower_case_lookup_images _ _ _ _
                      lower_case_ranges_letters Hlookup) as He.
        simpl in He. by rewrite Hd in He.
      * intros [= <- _]. unfold digit_point in Hd.
        apply orb_true_iff in Hd as [[_ H%N.leb_le]%andb_true_iff|H%N.eqb_eq];
          lia.
Qed.

Lemma digit_chars_ascii (s : string) :
  Js.all_chars digit_char s = true -> ascii_only s = true.
Proof.
  unfold ascii_only. induction s as [|c s IH]; [done|]. simpl.
  intros [Hc Hs]%andb_true_iff. rewrite (IH Hs), andb_true_r.
  unfold digit_char, digit_point in Hc. apply N.ltb_lt.
  apply orb_true_iff in Hc as [[_ H%N.leb_le]%andb_true_iff|H%N.eqb_eq]; lia.
Qed.

Lemma digit_chars_points (s : string) :
  Js.all_chars digit_char s = true ->
  Forall (fun d => digit_point d = true)
         (map N_of_ascii (list_ascii_of_string s)).
Proof.
  induction s as [|c s IH]; [constructor|]. simpl.
  intros [Hc Hs]%andb_true_iff. constructor; [done | by apply IH].
Qed.

Lemma toLowerCase_digits_inv (s t : string) :
  Js.all_chars digit_char s = true -> Js.toLowerCase t = s -> t = s.
Proof.
  intros Hs. unfold Js.toLowerCase.
  destruct (Js.utf8_decode t) as [points|] eqn:Ht; [|done].
  intros Hlower.
  pose proof (utf8_decode_ascii s (digit_chars_ascii s Hs)) as Hdec.
  rewrite <- Hlower in Hdec at 1.
  rewrite utf8_decode_encode in Hdec
    by (apply stable_scalar, lower_code_points_stable;
        by apply (utf8_decode_scalar t)).
  injection Hdec as Hdec.
  apply lower_code_points_digits_inv in Hdec; [|by apply digit_chars_points].
  subst points.
  rewrite <- (utf8_encode_decode t _ Ht).
  apply utf8_encode_decode.
  by apply utf8_decode_ascii, digit_chars_ascii.
Qed.

(** The order by code units is total and transitive. *)
Lemma units_leb_total (a b : list N) :
  Js.units_leb a b = true \/ Js.units_leb b a = true.
Proof.
  revert b. induction a as [|x a IH]; intros [|y b]; simpl; auto.
  destruct (N.ltb_spec x y), (N.ltb_spec y x); auto.
Qed.

Lemma units_leb_trans (a b c : list N) :
  Js.units_leb a b = true -> Js.units_leb b c = true ->
  Js.units_leb a c = true.
Proof.
  revert b c. induction a as [|x a IH]; intros [|y b] [|z c]; simpl; try done.
  destruct (N.ltb_spec x y), (N.ltb_spec y x), (N.ltb_spec y z),
    (N.ltb_spec z y), (N.ltb_spec x z), (N.ltb_spec z x);
    try done; try lia; apply IH.
Qed.

Lemma code_unit_leb_total (a b : string) :
  Js.code_unit_leb a b = true \/ Js.code_unit_leb b a = true.
Proof. apply units_leb_total. Qed.

Lemma code_unit_le_trans (a b c : string) :
  code_unit_le a b -> code_unit_le b c -> code_unit_le a c.
Proof. apply units_leb_trans. Qed.

(** ** Title derivation *)

Lemma tournamentTitle_named (tInfo : Tournament.t) (n : string) :
  Tournament.name tInfo = Some n -> n <> EmptyString ->
  tournamentTitle tInfo = Some n.
Proof.
  intros Hn Hne. unfold tournamentTitle.
  by rewrite Hn, (truthy_Some _ Hne).
Qed.

(** C3. The derived title is the explicit name when the record has a
    (non-empty) one.  Without one it is the fixed national title for
    Nationals; for States the state, with [sCA] and [nCA] expanded to SoCal
    and NorCal, followed by " Science Olympiad State Tournament"; the
    location followed by " Regional Tournament" for Regionals and by
    " Invitational" for Invitational; for every other level there is no
    title. *)
Theorem tournamentTitle_cases (tInfo : Tournament.t) :
  let level := Tournament.level tInfo in
  (forall n, Tournament.name tInfo = Some n -> n <> EmptyString ->
             tournamentTitle tInfo = Some n) /\
  (Js.truthy (Tournament.name tInfo) = false ->
     (level = "Nationals" ->
        tournamentTitle tInfo = Some "Science Olympiad National Tournament") /\
     (level = "States" ->
        tournamentTitle tInfo =
          Some (expandStateName (Tournament.state tInfo)
                +:+ " Science Olympiad State Tournament") /\
        (Tournament.state tInfo = "sCA" ->
           tournamentTitle tInfo = Some "SoCal Science Olympiad State Tournament") /\
        (Tournament.state tInfo = "nCA" ->
           tournamentTitle tInfo = Some "NorCal Science Olympiad State Tournament") /\
        (Js.includes (Tournament.state tInfo) "sCA" = false ->
         Js.includes (Tournament.state tInfo) "nCA" = false ->
           tournamentTitle tInfo =
             Some (Tournament.state tInfo +:+ " Science Olympiad State Tournament"))) /\
     (level = "Regionals" ->
        tournamentTitle tInfo =
          Some (Tournament.location tInfo +:+ " Regional Tournament")) /\
     (level = "Invitational" ->
        tournamentTitle tInfo =
          Some (Tournament.location tInfo +:+ " Invitational")) /\
     (level <> "Nationals" -> level <> "States" -> level <> "Regionals" ->
      level <> "Invitational" -> tournamentTitle tInfo = None)).
Proof.
  intros level. subst level. unfold tournamentTitle. split.
  - apply tournamentTitle_named.
  - intros ->. split; [|split; [|split; [|split]]].
    + by intros ->.
    + intros ->. split; [done|]. split; [|split].
      * by intros ->.
      * by intros ->.
      * intros Hs Hn. simpl. by rewrite (expandStateName_other _ Hs Hn).
    + by intros ->.
    + by intros ->.
    + intros H1 H2 H3 H4.
      repeat match goal with
             | |- context [String.eqb ?a ?b] =>
                 destruct (String.eqb_spec a b); [congruence|]
             end.
      done.
Qed.

(** ** Team resolution *)






(** ** Single-tournament tools *)

(** Template literals: the last piece can be split off. *)
Lemma tpl_snoc (pieces : list string) (last : string) :
  tpl (pieces ++ [last]) = tpl pieces +:+ last.
Proof.
  unfold tpl. induction pieces as [|p pieces IH]; [done|].
  destruct pieces as [|p' pieces].
  - done.
  - change (String.concat EmptyString ((p :: p' :: pieces) ++ [last]))
      with (p +:+ String.concat EmptyString ((p' :: pieces) ++ [last])).
    rewrite IH.
    change (String.concat EmptyString (p :: p' :: pieces))
      with (p +:+ String.concat EmptyString (p' :: pieces)).
    by rewrite append_assoc.
Qed.

Section SingleTournament.

Context {Yaml : Type}.
Variable yaml_load : string -> Result Yaml.
Variable new_Interpreter : Yaml -> Result Interpreter.t.
Variable store : Store.

Local Abbreviation load := (loadInterpreter yaml_load new_Interpreter store).

(** A missing file fails the whole load with the error of [readFile]. *)
Lemma load_missing (tournamentId : string) (error : Js.Error) :
  readFile store (tournamentId +:+ ".yaml") = inl error ->
  load tournamentId = inl error.
Proof. intros H. unfold loadInterpreter. by rewrite H. Qed.

Lemma on_error_ENOENT (what tournamentId : string) (error : Js.Error) :
  Js.code error = Some "ENOENT" ->
  on_error (Yaml := Yaml) what tournamentId error =
    Text (tpl ["Tournament "; quoted tournamentId; " not found"]).
Proof.
  intros H. unfold on_error. by rewrite bool_decide_eq_true_2.
Qed.

(** C5. [get_team_placement] answers with a plain text, not with a thrown
    protocol error, both when the record file is missing at the storage
    boundary ([readFile] fails with code ENOENT) and when the record loads
    but [teamId] resolves to no team. *)
Theorem get_team_placement_not_found
    (tournamentId teamId : string) (event : option string) :
  (forall error,
     readFile store (tournamentId +:+ ".yaml") = inl error ->
     Js.code error = Some "ENOENT" ->
     get_team_placement yaml_load new_Interpreter store tournamentId teamId event =
       Text (tpl ["Tournament "; quoted tournamentId; " not found"])) /\
  (forall interpreter,
     load tournamentId = inr interpreter ->
     findTeam interpreter teamId = None ->
     get_team_placement yaml_load new_Interpreter store tournamentId teamId event =
       Text (tpl ["Team "; quoted teamId; " not found in tournament ";
                  quoted tournamentId])).
Proof.
  split.
  - intros error Hread Hcode. unfold get_team_placement.
    rewrite (load_missing _ _ Hread). by apply on_error_ENOENT.
  - intros interpreter Hload Hfind. unfold get_team_placement.
    by rewrite Hload, Hfind.
Qed.

(** The listing of an unreadable directory is empty. *)
Lemma getAvailableTournaments_unreadable (error : Js.Error) :
  readdir store = inl error -> getAvailableTournaments store = [].
Proof. intros H. unfold getAvailableTournaments. by rewrite H. Qed.

(** [ranked_teams] is a prefix of the interpreter's list. *)
Lemma ranked_teams_take (interpreter : Interpreter.t) (limit : option Q) :
  exists n, ranked_teams interpreter limit =
            take n (Interpreter.teams interpreter).
Proof.
  unfold ranked_teams. destruct limit as [n|].
  - destruct (negb (Qle_bool n 0)).
    + unfold Js.slice0. destruct (_ <? 0); eauto.
    + exists (length (Interpreter.teams interpreter)). by rewrite take_ge.
  - exists (length (Interpreter.teams interpreter)). by rewrite take_ge.
Qed.

(** A positive limit keeps as many teams as its integer part. *)
Lemma ranked_teams_positive (interpreter : Interpreter.t) (q : Q) :
  (0 < q)%Q ->
  ranked_teams interpreter (Some q) =
    take (Z.to_nat (Qfloor q)) (Interpreter.teams interpreter).
Proof.
  intros Hq. unfold ranked_teams, Js.slice0, Js.to_integer.
  assert (Hle : Qle_bool q 0 = false).
  { apply not_true_is_false. rewrite Qle_bool_iff. by apply Qlt_not_le. }
  assert (Hge : Qle_bool 0 q = true).
  { apply Qle_bool_iff. by apply Qlt_le_weak. }
  rewrite Hle, Hge. simpl.
  assert (Hfloor : 0 <= Qfloor q).
  { rewrite <- (Qfloor_Z 0). apply Qfloor_resp_le. by apply Qlt_le_weak. }
  destruct (Qfloor q <? 0) eqn:Hneg; [apply Z.ltb_lt in Hneg; lia | done].
Qed.

(** C1, as the code has it.  When the record loads, the rankings list
    the teams in the order in which the interpreter hands them out: the
    handler does not sort them, so the listing is by rank ascending when
    the interpreter's list is.  A positive [limit] keeps the first [limit]
    teams of that order (as many as its integer part when it is not
    whole), and every line of the limited listing is the line at the same
    position of the full listing, rank number included. *)
Theorem rankings_in_interpreter_order
    (tournamentId : string) (limit : option Q) (interpreter : Interpreter.t) :
  load tournamentId = inr interpreter ->
  let listed := ranked_teams interpreter limit in
  get_tournament_rankings yaml_load new_Interpreter store tournamentId limit =
    Text (tpl ["Tournament: "; name_or_id interpreter tournamentId; nl;
               "Total Teams: ";
               num (Z.of_nat (length (Interpreter.teams interpreter))); nl;
               nl; "Rankings:"; nl; Js.join nl (map ranking_line listed)]) /\
  (limit = None -> listed = Interpreter.teams interpreter) /\
  (forall n : Z, limit = Some (inject_Z n) -> 0 < n ->
     listed = take (Z.to_nat n) (Interpreter.teams interpreter) /\
     length listed = Nat.min (Z.to_nat n) (length (Interpreter.teams interpreter))) /\
  (forall q : Q, limit = Some q -> (0 < q)%Q ->
     listed = take (Z.to_nat (Qfloor q)) (Interpreter.teams interpreter)) /\
  (forall i line,
     map ranking_line listed !! i = Some line ->
     map ranking_line (ranked_teams interpreter None) !! i = Some line) /\
  (StronglySorted rank_le (Interpreter.teams interpreter) ->
     StronglySorted rank_le listed).
Proof.
  intros Hload listed. split; [|split; [|split; [|split; [|split]]]].
  - unfold get_tournament_rankings. by rewrite Hload.
  - by intros ->.
  - intros n -> Hpos. subst listed.
    rewrite ranked_teams_positive, Qfloor_Z.
    + split; [done | apply length_take].
    + unfold Qlt. simpl. lia.
  - intros q -> Hpos. subst listed. by apply ranked_teams_positive.
  - intros i line. subst listed.
    destruct (ranked_teams_take interpreter limit) as [n ->].
    change (ranked_teams interpreter None) with (Interpreter.teams interpreter).
    rewrite !list_lookup_fmap.
    destruct (take n (Interpreter.teams interpreter) !! i) as [team|] eqn:Hi;
      [|done].
    apply lookup_take_Some in Hi as [Hi _]. by rewrite Hi.
  - intros Hsorted.
    destruct (ranked_teams_take interpreter limit) as [n Hn].
    subst listed. rewrite Hn.
    rewrite <- (take_drop n (Interpreter.teams interpreter)) in Hsorted.
    by apply StronglySorted_app_1_l in Hsorted.
Qed.

(** C2, as the code has it.  When the record loads, the document of
    [fetch] carries the derived title [tournamentTitle], while
    [get_tournament_info] opens with the explicit name or else the
    tournament id.  Both are the explicit name when the record has a
    non-empty one; without one [get_tournament_info] reports the id. *)
Theorem fetch_and_info_titles
    (id content : string) (data : Yaml) (interpreter : Interpreter.t) :
  readFile store (id +:+ ".yaml") = inr content ->
  yaml_load content = inr data ->
  new_Interpreter data = inr interpreter ->
  let tournament := Interpreter.tournament interpreter in
  fetch_tool yaml_load new_Interpreter store id =
    Json {| doc_id := id; doc_title := tournamentTitle tournament;
            doc_text := data;
            doc_url := "https://www.duosmium.org/results/" +:+ id |} /\
  (exists rest,
     get_tournament_info yaml_load new_Interpreter store id =
       Text (tpl ("Tournament: " :: info_title interpreter id :: rest))) /\
  (forall n, Tournament.name tournament = Some n -> n <> EmptyString ->
     tournamentTitle tournament = Some n /\ info_title interpreter id = n /\
     titles_agree (fetch_tool yaml_load new_Interpreter store id)
                  (get_tournament_info yaml_load new_Interpreter store id)) /\
  (Js.truthy (Tournament.name tournament) = false ->
     info_title interpreter id = id).
Proof.
  intros Hread Hyaml Hnew tournament.
  assert (Hfetch : fetch_tool yaml_load new_Interpreter store id =
    Json {| doc_id := id; doc_title := tournamentTitle tournament;
            doc_text := data;
            doc_url := "https://www.duosmium.org/results/" +:+ id |}).
  { unfold fetch_tool. rewrite Hread. simpl. rewrite Hyaml. simpl.
    by rewrite Hnew. }
  assert (Hload : load id = inr interpreter).
  { unfold loadInterpreter. rewrite Hread. simpl. by rewrite Hyaml. }
  assert (Hinfo : exists rest,
     get_tournament_info yaml_load new_Interpreter store id =
       Text (tpl ("Tournament: " :: info_title interpreter id :: rest))).
  { unfold get_tournament_info. rewrite Hload. eauto. }
  split; [done|]. split; [done|]. split.
  - intros n Hn Hne.
    assert (Htitle : tournamentTitle tournament = Some n).
    { by apply tournamentTitle_named. }
    assert (Hit : info_title interpreter id = n).
    { unfold info_title, name_or_id. fold tournament. rewrite Hn.
      by apply or_else_truthy. }
    split; [done|]. split; [done|].
    destruct Hinfo as [rest Hrest]. unfold titles_agree.
    eexists _, n, rest. split; [exact Hfetch|]. split; [done|].
    by rewrite Hrest, Hit.
  - intros Hfalsy. unfold info_title, name_or_id. by apply or_else_falsy.
Qed.

(** C6, as the code has it.  For a loaded record and a resolved team,
    [get_team_all_placements] lists every placement that the interpreter
    holds for the team's number, whether it counts toward the team's
    points or is dropped, in the order in which the interpreter holds
    them: the handler does not sort them, so they come by event name when
    the interpreter's list does. *)
Theorem all_placements_in_record_order
    (tournamentId teamId : string) (interpreter : Interpreter.t) (team : Team.t) :
  load tournamentId = inr interpreter ->
  findTeam interpreter teamId = Some team ->
  let listed := teamPlacements interpreter team in
  (forall p, p ∈ listed <->
             p ∈ Interpreter.placings interpreter /\
             Team.number (Placing.team p) = Team.number team) /\
  listed `sublist_of` Interpreter.placings interpreter /\
  (listed <> [] ->
     exists header,
       get_team_all_placements yaml_load new_Interpreter store tournamentId teamId =
         Text (header +:+ Js.join nl (map placement_line listed))) /\
  (Sorted event_name_le (Interpreter.placings interpreter) ->
     Sorted event_name_le listed).
Proof.
  intros Hload Hfind listed. subst listed. unfold teamPlacements.
  split; [|split; [|split]].
  - intros p. rewrite list_elem_of_filter. tauto.
  - apply sublist_filter.
  - intros Hne. unfold get_team_all_placements, teamPlacements.
    rewrite Hload, Hfind.
    destruct (filter _ _) as [|p ps] eqn:Hf; [done|].
    match goal with
    | |- exists _, Text (tpl ?pieces) = _ =>
        let l := eval cbv [app] in (removelast pieces) in
        exists (tpl l)
    end.
    by rewrite <- tpl_snoc.
  - intros Hsorted.
    assert (Htrans : Transitive event_name_le).
    { intros p q r. apply code_unit_le_trans. }
    apply Sorted_StronglySorted in Hsorted; [|done].
    apply StronglySorted_Sorted.
    induction Hsorted as [|p ps Hps IH Hall]; [constructor|].
    rewrite filter_cons. case_decide; [|done].
    constructor; [done|].
    apply Forall_forall. intros q Hq%list_elem_of_filter.
    rewrite Forall_forall in Hall. apply Hall. tauto.
Qed.

End SingleTournament.

(** C5, on the sample directory: no file [missing.yaml], and no team 42 in
    [demo-2024]. *)
Lemma get_team_placement_not_found_witness :
  get_team_placement Demo.yaml_load Demo.new_Interpreter Demo.store
    "missing" "42" (Some "Write It Do It") =
    Text (tpl ["Tournament "; quoted "missing"; " not found"]) /\
  get_team_placement Demo.yaml_load Demo.new_Interpreter Demo.store
    "demo-2024" "42" (Some "Write It Do It") =
    Text (tpl ["Team "; quoted "42"; " not found in tournament ";
               quoted "demo-2024"]).
Proof.
  split.
  - apply (proj1 (get_team_placement_not_found Demo.yaml_load
                    Demo.new_Interpreter Demo.store "missing" "42"
                    (Some "Write It Do It")) (Demo.enoent "missing.yaml"));
      reflexivity.
  - apply (proj2 (get_team_placement_not_found Demo.yaml_load
                    Demo.new_Interpreter Demo.store "demo-2024" "42"
                    (Some "Write It Do It")) Demo.demo_2024);
      reflexivity.
Defined.

(** Team resolution on the sample record: by number; by substring, the
    first of the two Troy schools; an empty [teamId] occurs in every school
    name. *)
Example findTeam_samples :
  findTeam Demo.demo_2024 "12" = Some Demo.troy_academy /\
  findTeam Demo.demo_2024 "TROY" = Some Demo.troy /\
  findTeam Demo.demo_2024 "troy ac" = Some Demo.troy_academy /\
  findTeam Demo.demo_2024 EmptyString = Some Demo.troy /\
  findTeam Demo.demo_2024 "42" = None.
Proof. repeat split. Qed.

(** Letter case beyond ASCII: the accented capitals of a school name are
    found by their small letters and the other way round. *)
Example findTeam_accents :
  Js.toLowerCase "École Élan" = "école élan" /\
  findTeam Demo.league_2024 "école" = Some Demo.ecole_elan /\
  findTeam Demo.league_2024 "ÉLAN G" = Some Demo.elan_guests /\
  findTeam Demo.league_2024 "ecole" = None.
Proof. repeat split. Qed.


(** C1, on the sample record: a limit of 2 keeps the first two teams of
    the interpreter's list with their ranks. *)
Lemma rankings_in_interpreter_order_witness :
  get_tournament_rankings Demo.yaml_load Demo.new_Interpreter Demo.store
    "demo-2024" (Some (inject_Z 2)) =
    Text (tpl ["Tournament: "; "Demo Invitational"; nl; "Total Teams: "; "3"; nl;
               nl; "Rankings:"; nl;
               Js.join nl ["1. Troy High School (#7) - 40 points";
                           "2. Mira Loma High School (#3) - 48 points"]]) /\
  ranked_teams Demo.demo_2024 (Some (inject_Z 2)) = [Demo.troy; Demo.mira_loma].
Proof.
  destruct (rankings_in_interpreter_order Demo.yaml_load Demo.new_Interpreter
              Demo.store "demo-2024" (Some (inject_Z 2)) Demo.demo_2024 eq_refl)
    as (Htext & _ & Hlimit & _).
  split; [exact Htext|].
  apply (Hlimit 2 eq_refl). reflexivity.
Defined.

(** C1 fails on the order: the league record loads, its interpreter hands
    out the ranks 1, 2, 1, and so does the answer; a limit of 2 leaves out
    a team of rank 1. *)
Lemma rankings_not_by_rank :
  loadInterpreter Demo.yaml_load Demo.new_Interpreter Demo.league_store
    "league-2024" = inr Demo.league_2024 /\
  get_tournament_rankings Demo.yaml_load Demo.new_Interpreter Demo.league_store
    "league-2024" None =
    Text (tpl ["Tournament: Élan League"; nl; "Total Teams: 3"; nl;
               nl; "Rankings:"; nl;
               "1. École Élan (#21) - 40 points"; nl;
               "2. Northview High School (#22) - 48 points"; nl;
               "1. Élan Guests (#23) - 35 points"]) /\
  map Team.rank (ranked_teams Demo.league_2024 None) = [1; 2; 1] /\
  ~ Sorted rank_le (ranked_teams Demo.league_2024 None) /\
  get_tournament_rankings Demo.yaml_load Demo.new_Interpreter Demo.league_store
    "league-2024" (Some (inject_Z 2)) =
    Text (tpl ["Tournament: Élan League"; nl; "Total Teams: 3"; nl;
               nl; "Rankings:"; nl;
               "1. École Élan (#21) - 40 points"; nl;
               "2. Northview High School (#22) - 48 points"]).
Proof.
  split; [reflexivity|]. split; [reflexivity|]. split; [reflexivity|].
  split; [|reflexivity].
  intros Hsorted. vm_compute in Hsorted.
  inversion Hsorted as [|t1 ts1 Htail _]; subst.
  inversion Htail as [|t2 ts2 _ Hhd]; subst.
  inversion Hhd as [|t3 ts3 Hle]; subst.
  vm_compute in Hle. by apply Hle.
Qed.

(** C2, where it holds: [demo-2024] has an explicit name. *)
Lemma fetch_and_info_titles_witness :
  titles_agree
    (fetch_tool Demo.yaml_load Demo.new_Interpreter Demo.store "demo-2024")
    (get_tournament_info Demo.yaml_load Demo.new_Interpreter Demo.store "demo-2024").
Proof.
  destruct (fetch_and_info_titles Demo.yaml_load Demo.new_Interpreter Demo.store
              "demo-2024" "demo" "demo" Demo.demo_2024 eq_refl eq_refl eq_refl)
    as [_ [_ [Hnamed _]]].
  apply (Hnamed "Demo Invitational"); [reflexivity | discriminate].
Defined.

(** C2 fails for a record without an explicit name: [fetch] reports the
    derived national title, [get_tournament_info] the tournament id. *)
Lemma fetch_and_info_titles_differ :
  fetch_tool Demo.yaml_load Demo.new_Interpreter Demo.store "nationals-2024" =
    Json {| doc_id := "nationals-2024";
            doc_title := Some "Science Olympiad National Tournament";
            doc_text := "nationals";
            doc_url := "https://www.duosmium.org/results/nationals-2024" |} /\
  get_tournament_info Demo.yaml_load Demo.new_Interpreter Demo.store
    "nationals-2024" =
    Text (tpl ["Tournament: "; "nationals-2024"; nl; nl;
               "Teams (1):"; nl; "Troy High School (#7)"; nl; nl;
               "Events (1):"; nl; "Anatomy"]) /\
  ~ titles_agree
      (fetch_tool Demo.yaml_load Demo.new_Interpreter Demo.store "nationals-2024")
      (get_tournament_info Demo.yaml_load Demo.new_Interpreter Demo.store
         "nationals-2024").
Proof.
  split; [reflexivity|]. split; [reflexivity|].
  intros [doc [title [rest [Hdoc [Htitle Hinfo]]]]].
  vm_compute in Hdoc. injection Hdoc as <-. simpl in Htitle.
  injection Htitle as <-.
  destruct rest; vm_compute in Hinfo; discriminate.
Qed.

(** C6, on the sample record: the two placements of Troy, the one in
    Anatomy being dropped. *)
Lemma all_placements_in_record_order_witness :
  teamPlacements Demo.demo_2024 Demo.troy `sublist_of`
    Interpreter.placings Demo.demo_2024 /\
  exists header,
    get_team_all_placements Demo.yaml_load Demo.new_Interpreter Demo.store
      "demo-2024" "troy" =
      Text (header +:+ Js.join nl ["Write It Do It: 1 (1 points)";
                                  "Anatomy: 2 (N/A points)"]).
Proof.
  destruct (all_placements_in_record_order Demo.yaml_load Demo.new_Interpreter
              Demo.store "demo-2024" "troy" Demo.demo_2024 Demo.troy
              eq_refl eq_refl)
    as [_ [Hsub [Htext _]]].
  split; [exact Hsub|]. apply Htext. discriminate.
Defined.

(** C6 fails on the order: the record holds the placements of Write It Do
    It before those of Anatomy, and so does the answer. *)
Lemma all_placements_not_by_event_name :
  findTeam Demo.demo_2024 "troy" = Some Demo.troy /\
  map (fun p => Event.name (Placing.event p))
      (teamPlacements Demo.demo_2024 Demo.troy) =
    ["Write It Do It"; "Anatomy"] /\
  get_team_all_placements Demo.yaml_load Demo.new_Interpreter Demo.store
    "demo-2024" "troy" =
    Text (tpl ["Team: Troy High School (#7)"; nl; "Overall Rank: 1"; nl;
               "Total Points: 40"; nl; "Tournament: Demo Invitational"; nl; nl;
               "Event Placements (2):"; nl;
               "Write It Do It: 1 (1 points)"; nl;
               "Anatomy: 2 (N/A points)"]) /\
  ~ Sorted event_name_le (teamPlacements Demo.demo_2024 Demo.troy).
Proof.
  split; [reflexivity|]. split; [reflexivity|]. split; [reflexivity|].
  change (teamPlacements Demo.demo_2024 Demo.troy)
    with [Demo.placing Demo.troy Demo.write_it 1 true;
          Demo.placing Demo.troy Demo.anatomy 2 false].
  intros Hsorted.
  inversion Hsorted as [|p ps _ Hhd]; subst.
  inversion Hhd as [|q qs Hle]; subst.
  unfold event_name_le, code_unit_le in Hle.
  vm_compute in Hle. discriminate.
Qed.

(** ** The search tool *)

(** Case folding: a query and its lower-case form normalize alike. *)
Lemma normalizedQuery_lower (query : string) :
  normalizedQuery (Js.toLowerCase query) = normalizedQuery query.
Proof. unfold normalizedQuery. by rewrite toLowerCase_idem. Qed.

Lemma replace_team_word_after_word (d : ascii) (s : string) :
  Js.replace_team_word true (String d s) =
    String d (Js.replace_team_word (Js.word_char d) s).
Proof. reflexivity. Qed.

(** The test that [replace_team_word] makes at the head of a string. *)
Lemma team_word_test (s : string) :
  Js.startsWith s "team" && negb (Js.head_is_word (Js.drop_chars 4 s)) = true <->
  exists rest, s = "team" +:+ rest /\ Js.head_is_word rest = false.
Proof.
  rewrite andb_true_iff, startsWith_spec, negb_true_iff. split.
  - intros [[rest ->] Hrest]. exists rest. split; [done|].
    by change (Js.drop_chars 4 ("team" +:+ rest)) with rest in Hrest.
  - intros [rest [-> Hrest]]. split; [eauto|].
    by change (Js.drop_chars 4 ("team" +:+ rest)) with rest.
Qed.

Lemma replace_team_word_match (rest : string) :
  Js.head_is_word rest = false ->
  Js.replace_team_word false ("team" +:+ rest) =
    "school" +:+ Js.replace_team_word true rest.
Proof.
  intros Hrest.
  change ("team" +:+ rest)
    with (String "t" (String "e" (String "a" (String "m" rest)))).
  cbn [Js.replace_team_word]. 
  change (String "t" (String "e" (String "a" (String "m" rest))))
    with ("team" +:+ rest).
  assert (Htest : Js.startsWith ("team" +:+ rest) "team" &&
                  negb (Js.head_is_word (Js.drop_chars 4 ("team" +:+ rest)))
                  = true).
  { apply team_word_test. eauto. }
  apply andb_true_iff in Htest as [H1 H2]. by rewrite H1, H2.
Qed.

Lemma replace_team_word_school (b : bool) (s : string) :
  Js.replace_team_word b ("school" +:+ s) =
    "school" +:+ Js.replace_team_word true s.
Proof. by destruct b. Qed.

Lemma replace_team_word_no_match (b : bool) (c : ascii) (s : string) :
  negb b && (Js.startsWith (String c s) "team"
             && negb (Js.head_is_word (Js.drop_chars 4 (String c s)))) = false ->
  Js.replace_team_word b (String c s) =
    String c (Js.replace_team_word (Js.word_char c) s).
Proof.
  intros H. cbn [Js.replace_team_word].
  rewrite <- andb_assoc. by rewrite H.
Qed.

Lemma ends_in_word_cons (c d : ascii) (s : string) :
  ends_in_word (String c (String d s)) = ends_in_word (String d s).
Proof. reflexivity. Qed.

Lemma ends_in_word_app (a : string) (d : ascii) (s : string) :
  ends_in_word (a +:+ String d s) = ends_in_word (String d s).
Proof.
  induction a as [|c a IH]; [done|].
  rewrite append_cons. destruct a as [|c' a]; [done|].
  rewrite append_cons in *. by rewrite ends_in_word_cons.
Qed.

(** A whole word team inside a string is not at its head, unless the
    string starts with the four letters; the same string with school in
    the place of that word passes the test at its head alike. *)
Lemma team_word_test_synonym (c : ascii) (before after : string) :
  Js.head_is_word after = false ->
  let test s := Js.startsWith s "team"
                && negb (Js.head_is_word (Js.drop_chars 4 s)) in
  test (String c before +:+ "team" +:+ after) =
  test (String c before +:+ "school" +:+ after).
Proof.
  intros Hafter test. subst test. cbv beta.
  destruct before as [|c2 [|c3 [|c4 [|c5 before]]]];
    rewrite ?append_cons, ?append_nil_l;
    change ("team" +:+ after)
      with (String "t" (String "e" (String "a" (String "m" after))));
    change ("school" +:+ after)
      with (String "s" (String "c" (String "h" (String "o"
             (String "o" (String "l" after))))));
    unfold Js.startsWith; cbn [String.prefix Js.drop_chars Js.head_is_word];
    repeat (case_match; try done).
Qed.

Lemma replace_team_word_synonym (n : nat) :
  forall (before after : string) (prev_word : bool),
    (String.length before <= n)%nat ->
    (if before is EmptyString then prev_word else ends_in_word before) = false ->
    Js.head_is_word after = false ->
    Js.replace_team_word prev_word (before +:+ "team" +:+ after) =
    Js.replace_team_word prev_word (before +:+ "school" +:+ after).
Proof.
  induction n as [|n IH]; intros before after prev_word Hlen Hend Hafter.
  { destruct before; [|simpl in Hlen; lia]. subst prev_word.
    rewrite !append_nil_l.
    by rewrite replace_team_word_match, replace_team_word_school. }
  destruct before as [|c before].
  { subst prev_word. rewrite !append_nil_l.
    by rewrite replace_team_word_match, replace_team_word_school. }
  pose proof (team_word_test_synonym c before after Hafter) as Hsame.
  cbv zeta in Hsame. rewrite !(append_cons c before) in Hsame |- *.
  destruct (negb prev_word &&
            (Js.startsWith (String c (before +:+ "team" +:+ after)) "team"
             && negb (Js.head_is_word
                        (Js.drop_chars 4
                           (String c (before +:+ "team" +:+ after))))))
    eqn:Htest.
  - apply andb_true_iff in Htest as [Hprev Htest].
    destruct prev_word; [done|].
    pose proof Htest as Htest'. rewrite Hsame in Htest'.
    apply team_word_test in Htest as [rest [Heq Hrest]].
    apply team_word_test in Htest' as [rest' [Heq' Hrest']].
    rewrite Heq, Heq'.
    rewrite (replace_team_word_match _ Hrest), (replace_team_word_match _ Hrest').
    f_equal.
    change ("team" +:+ rest)
      with (String "t" (String "e" (String "a" (String "m" rest)))) in Heq.
    change ("team" +:+ rest')
      with (String "t" (String "e" (String "a" (String "m" rest')))) in Heq'.
    injection Heq as -> Heq. injection Heq' as Heq'.
    destruct before as [|c2 before]; [discriminate|].
    rewrite append_cons in Heq, Heq'.
    injection Heq as -> Heq. injection Heq' as Heq'.
    destruct before as [|c3 before]; [discriminate|].
    rewrite append_cons in Heq, Heq'.
    injection Heq as -> Heq. injection Heq' as Heq'.
    destruct before as [|c4 before]; [discriminate|].
    rewrite append_cons in Heq, Heq'.
    injection Heq as -> Heq. injection Heq' as Heq'.
    subst rest rest'.
    apply IH; [simpl in Hlen; lia| |done].
    destruct before as [|c5 before]; [done|]. exact Hend.
  - rewrite (replace_team_word_no_match _ _ _ Htest).
    rewrite Hsame in Htest.
    rewrite (replace_team_word_no_match _ _ _ Htest).
    f_equal. apply IH; [simpl in Hlen; lia| |done].
    destruct before as [|c2 before]; [exact Hend|].
    by rewrite ends_in_word_cons in Hend.
Qed.

(** Two queries whose lower-case forms differ in one whole word, team in
    the one and school in the other, normalize alike. *)
Lemma normalizedQuery_synonym (query1 query2 before after : string) :
  Js.toLowerCase query1 = before +:+ "team" +:+ after ->
  Js.toLowerCase query2 = before +:+ "school" +:+ after ->
  ends_in_word before = false -> Js.head_is_word after = false ->
  normalizedQuery query1 = normalizedQuery query2.
Proof.
  intros H1 H2 Hbefore Hafter. unfold normalizedQuery. rewrite H1, H2.
  apply (replace_team_word_synonym (String.length before)); [lia| |done].
  by destruct before.
Qed.

Lemma slice0_nil {A} (e : Q) : Js.slice0 (@nil A) e = [].
Proof. unfold Js.slice0. destruct (_ <? 0); apply take_nil. Qed.

Section Search.

Context {Yaml : Type}.
Variable yaml_load : string -> Result Yaml.
Variable new_Interpreter : Yaml -> Result Interpreter.t.
Variable store : Store.
Variable fuse_search :
  forall A : Type, FuseOptions A -> list A -> string -> list (FuseResult A).
Variable toFixed1 : Q -> string.
Variable remote : Remote.

Local Abbreviation load := (loadInterpreter yaml_load new_Interpreter store).
Local Abbreviation collect_from :=
  (collect yaml_load new_Interpreter store).
Local Abbreviation step := (collect_one yaml_load new_Interpreter store).

Local Abbreviation loadable := (loads yaml_load new_Interpreter store).
Local Abbreviation items_of := (record_items yaml_load new_Interpreter store).

Lemma collect_one_failed (type : string)
    (acc : list CorpusItem.t * list CorpusItem.t)
    (tournamentId : string) (error : Js.Error) :
  load tournamentId = inl error -> step type acc tournamentId = acc.
Proof. intros H. unfold collect_one. by rewrite H. Qed.

Lemma fold_collect_loading (type : string) (tournaments : list string)
    (acc : list CorpusItem.t * list CorpusItem.t) :
  fold_left (step type) tournaments acc =
  fold_left (step type) (List.filter loadable tournaments) acc.
Proof.
  revert acc. induction tournaments as [|t ts IH]; intros acc; simpl; [done|].
  unfold loads at 1. destruct (load t) as [error|interpreter] eqn:Hload.
  - by rewrite (collect_one_failed _ _ _ _ Hload).
  - simpl. apply IH.
Qed.

(** The loop over the listing appends, record by record, what each record
    brings. *)
Lemma fold_collect_items (type : string) (tournaments : list string)
    (acc : list CorpusItem.t * list CorpusItem.t) :
  fold_left (step type) tournaments acc =
    ((acc.1 ++ flat_map (fun id => (items_of type id).1) tournaments)%list,
     (acc.2 ++ flat_map (fun id => (items_of type id).2) tournaments)%list).
Proof.
  revert acc. induction tournaments as [|t ts IH]; intros [a1 a2]; simpl.
  - by rewrite !app_nil_r.
  - rewrite IH. unfold collect_one, record_items.
    destruct (load t); simpl; [done|]. by rewrite !app_assoc.
Qed.

Lemma collect_items (type : string) (tournaments : list string) :
  collect_from type tournaments =
    (flat_map (fun id => (items_of type id).1) tournaments,
     flat_map (fun id => (items_of type id).2) tournaments).
Proof. unfold collect. by rewrite fold_collect_items. Qed.

(** C7. In the corpus search a record that fails to load, for whatever
    reason, adds nothing and stops nothing.  The corpus is, in listing
    order, what each record brings: its tournament item and its team
    items when it loads, nothing when it fails.  So every record of the
    listing that loads has its items in the corpus whatever fails around
    it, a failing record anywhere in the listing can be left out without
    changing the corpus, and the search answers with a text, never with a
    thrown error. *)
Theorem corpus_search_skips_failed_records
    (query : string) (type : option string) (limit : option Q) :
  (forall type tournaments,
     collect_from type tournaments =
       (flat_map (fun id =>
                    (record_items yaml_load new_Interpreter store type id).1)
                 tournaments,
        flat_map (fun id =>
                    (record_items yaml_load new_Interpreter store type id).2)
                 tournaments)) /\
  (forall type tournaments tournamentId interpreter,
     tournamentId ∈ tournaments ->
     load tournamentId = inr interpreter ->
     (type = "tournament" \/ type = "both" ->
        corpus_tournament_item tournamentId interpreter
          ∈ (collect_from type tournaments).1) /\
     (type = "team" \/ type = "both" ->
        forall team, team ∈ Interpreter.teams interpreter ->
          corpus_team_item tournamentId interpreter team
            ∈ (collect_from type tournaments).2)) /\
  (forall type before bad after error,
     load bad = inl error ->
     collect_from type (before ++ bad :: after) =
     collect_from type (before ++ after)) /\
  (exists text,
     search_corpus yaml_load new_Interpreter store fuse_search query type limit =
       Text text).
Proof.
  split; [|split; [|split]].
  - apply collect_items.
  - intros ty ts id interpreter Hid Hload. rewrite collect_items. simpl.
    apply list_elem_of_In in Hid. split.
    + intros Hty. apply list_elem_of_In, in_flat_map. exists id.
      split; [done|]. unfold record_items. rewrite Hload. simpl.
      destruct Hty as [-> | ->]; by left.
    + intros Hty team Hteam. apply list_elem_of_In, in_flat_map. exists id.
      split; [done|]. unfold record_items. rewrite Hload. simpl.
      apply list_elem_of_In in Hteam.
      destruct Hty as [-> | ->]; by apply in_map.
  - intros ty before bad after error Hbad. unfold collect.
    rewrite !fold_left_app. simpl.
    by rewrite (collect_one_failed _ _ _ _ Hbad).
  - unfold search_corpus. destruct (corpus_sortedResults _ _ _ _ _ _ _); eauto.
Qed.

(** C10. When the results directory cannot be read the listing is empty:
    [list_tournaments] answers with a count of zero and the corpus search
    with its no-results text; neither throws. *)
Theorem unreadable_directory_lists_nothing
    (error : Js.Error) (query : string) (type : option string)
    (limit : option Q) :
  readdir store = inl error ->
  getAvailableTournaments store = [] /\
  list_tournaments (Yaml := Yaml) store =
    Text ("Available Tournaments (0):" +:+ nl) /\
  search_corpus yaml_load new_Interpreter store fuse_search query type limit =
    Text (tpl ["No ";
               (if String.eqb (arg_or "both" type) "both"
                then "tournaments or teams" else arg_or "both" type +:+ "s");
               " found matching "; quoted query]).
Proof.
  intros Hdir.
  assert (Hnone : getAvailableTournaments store = []).
  { unfold getAvailableTournaments. by rewrite Hdir. }
  split; [done|]. split.
  - unfold list_tournaments. by rewrite Hnone.
  - unfold search_corpus, corpus_sortedResults. rewrite Hnone.
    simpl. by rewrite slice0_nil.
Qed.

(** The search results of the catalog variant are an error as soon as a
    source is unavailable. *)
Lemma catalog_unavailable (query type : string) (limit : Q) :
  unavailable (tournaments_json remote) \/ unavailable (schools_csv remote) ->
  exists error,
    catalog_searchResults fuse_search remote query type limit = inl error.
Proof.
  unfold catalog_searchResults, fetch_both, unavailable.
  destruct (tournaments_json remote) as [e1|r1],
           (schools_csv remote) as [e2|r2]; simpl; eauto.
  intros [H|H]; rewrite H; simpl; eauto.
  destruct (ok r1); simpl; eauto.
Qed.

(** C8. In the catalog search, when the tournament list or the school
    directory is unreachable or answers unsuccessfully, the call throws
    an internal error whose message starts with "Search failed: "; it does
    not answer with an empty result. *)
Theorem catalog_search_reports_fetch_error
    (query : string) (type : option string) (limit : option Q) :
  unavailable (tournaments_json remote) \/ unavailable (schools_csv remote) ->
  exists message,
    search_catalog (Yaml := Yaml) fuse_search toFixed1 remote query type limit =
      Throw InternalError ("Search failed: " +:+ message).
Proof.
  intros H. unfold search_catalog.
  destruct (catalog_unavailable query (arg_or "all" type) (arg_or 20%Q limit) H)
    as [error ->].
  eauto.
Qed.

(** When both sources answer, the matcher is asked with the normalized
    query over the items built from the two bodies. *)
Lemma catalog_searchResults_ok (query type : string) (limit : Q)
    (r1 : HttpResponse (list CatalogTournament.t)) (r2 : HttpResponse string)
    (tournaments : list CatalogTournament.t) (schoolsCsvText : string) :
  tournaments_json remote = Responded _ r1 ->
  schools_csv remote = Responded _ r2 ->
  ok r1 = true -> ok r2 = true ->
  body r1 = inr tournaments -> body r2 = inr schoolsCsvText ->
  catalog_searchResults fuse_search remote query type limit =
    inr (Js.slice0
           (fuse_search _ catalog_options
              (searchData type tournaments schoolsCsvText)
              (normalizedQuery query))
           limit).
Proof.
  intros H1 H2 Hok1 Hok2 Hb1 Hb2.
  unfold catalog_searchResults, fetch_both.
  rewrite H1, H2. simpl. rewrite Hok1, Hok2. simpl. by rewrite Hb1, Hb2.
Qed.

(** C9, for the catalog variant.  The query reaches the matcher
    lower-cased and with each whole word team replaced by school.  So two
    queries that normalize alike give the same search results; so do a
    query and its lower-case form; and so do two queries whose lower-case
    forms differ in one whole word, team in the one and school in the
    other. *)
Theorem catalog_search_normalizes_query
    (query1 query2 type : string) (limit : Q) :
  (forall r1 r2 tournaments schoolsCsvText,
     tournaments_json remote = Responded _ r1 ->
     schools_csv remote = Responded _ r2 ->
     ok r1 = true -> ok r2 = true ->
     body r1 = inr tournaments -> body r2 = inr schoolsCsvText ->
     catalog_searchResults fuse_search remote query1 type limit =
       inr (Js.slice0
              (fuse_search _ catalog_options
                 (searchData type tournaments schoolsCsvText)
                 (Js.replace_team_word false (Js.toLowerCase query1)))
              limit)) /\
  (normalizedQuery query1 = normalizedQuery query2 ->
     catalog_searchResults fuse_search remote query1 type limit =
     catalog_searchResults fuse_search remote query2 type limit) /\
  catalog_searchResults fuse_search remote (Js.toLowerCase query1) type limit =
    catalog_searchResults fuse_search remote query1 type limit /\
  (forall before after,
     Js.toLowerCase query1 = before +:+ "team" +:+ after ->
     Js.toLowerCase query2 = before +:+ "school" +:+ after ->
     ends_in_word before = false -> Js.head_is_word after = false ->
     catalog_searchResults fuse_search remote query1 type limit =
     catalog_searchResults fuse_search remote query2 type limit).
Proof.
  split; [|split; [|split]].
  - intros r1 r2 tournaments schoolsCsvText. apply catalog_searchResults_ok.
  - intros H. unfold catalog_searchResults. by rewrite H.
  - unfold catalog_searchResults. by rewrite normalizedQuery_lower.
  - intros before after H1 H2 Hbefore Hafter. unfold catalog_searchResults.
    by rewrite (normalizedQuery_synonym _ _ _ _ H1 H2 Hbefore Hafter).
Qed.

End Search.

(** The word team is replaced only where it stands as a whole word, and
    letters beyond ASCII are lower-cased too: the Kelvin sign becomes the
    letter k, so that team is no whole word in front of it. *)
Example normalizedQuery_words :
  normalizedQuery "Best TEAM of the teams, steam-team" =
    "best school of the teams, steam-school" /\
  normalizedQuery "ÉCOLE Team" = "école school" /\
  normalizedQuery "teamK" = "teamk" /\
  normalizedQuery "schoolK" = "schoolk".
Proof. repeat split; vm_compute; reflexivity. Qed.

(** C7, on the sample directory: [broken] does not interpret and the
    corpus holds the items of the other two records. *)
Lemma corpus_search_skips_failed_records_witness :
  map CorpusItem.id
      (collect Demo.yaml_load Demo.new_Interpreter Demo.store "both"
         ["broken"; "demo-2024"; "nationals-2024"]).1 =
    ["demo-2024"; "nationals-2024"] /\
  map CorpusItem.id
      (collect Demo.yaml_load Demo.new_Interpreter Demo.store "both"
         ["broken"; "demo-2024"; "nationals-2024"]).2 =
    ["demo-2024:7"; "demo-2024:3"; "demo-2024:12"; "nationals-2024:7"] /\
  collect Demo.yaml_load Demo.new_Interpreter Demo.store "both"
    ["broken"; "demo-2024"; "nationals-2024"] =
  collect Demo.yaml_load Demo.new_Interpreter Demo.store "both"
    ["demo-2024"; "nationals-2024"].
Proof.
  pose proof (corpus_search_skips_failed_records Demo.yaml_load
                Demo.new_Interpreter Demo.store Demo.matcher
                "troy" None None) as (Hitems & _ & Hskip & _).
  split; [|split].
  - rewrite Hitems. vm_compute. reflexivity.
  - rewrite Hitems. vm_compute. reflexivity.
  - apply (Hskip "both" [] "broken" ["demo-2024"; "nationals-2024"]
             {| Js.code := None; Js.message := "invalid record" |}).
    reflexivity.
Defined.

(** C8, with the school directory answering 503. *)
Lemma catalog_search_reports_fetch_error_witness :
  exists message,
    search_catalog (Yaml := string) Demo.matcher Demo.toFixed1
      Demo.remote_schools_down "troy" None None =
      Throw InternalError ("Search failed: " +:+ message).
Proof.
  apply (catalog_search_reports_fetch_error Demo.matcher Demo.toFixed1
           Demo.remote_schools_down "troy" None None).
  right. reflexivity.
Defined.

Example catalog_search_schools_down :
  search_catalog (Yaml := string) Demo.matcher Demo.toFixed1
    Demo.remote_schools_down "troy" None None =
    Throw InternalError "Search failed: Failed to fetch schools: 503".
Proof. reflexivity. Qed.

(** C9, catalog variant: a query with TEAM in capitals finds what the
    canonical query finds. *)
Lemma catalog_search_normalizes_query_witness :
  catalog_searchResults Demo.matcher Demo.remote_up "High TEAM" "all" 20%Q =
  catalog_searchResults Demo.matcher Demo.remote_up "high school" "all" 20%Q.
Proof.
  apply (proj2 (proj2 (proj2
           (catalog_search_normalizes_query Demo.matcher Demo.remote_up
              "High TEAM" "high school" "all" 20%Q))) "high " EmptyString).
  - vm_compute. reflexivity.
  - vm_compute. reflexivity.
  - reflexivity.
  - reflexivity.
Defined.

Example catalog_search_high_school :
  option_map (map (fun r => CatalogItem.name (item r)))
    (match catalog_searchResults Demo.matcher Demo.remote_up
             "High TEAM" "all" 20%Q with
     | inr results => Some results
     | inl _ => None
     end) =
  Some ["Troy Invitational"; "Troy High School"; "Mira Loma High School"].
Proof. reflexivity. Qed.

(** C9 fails for the corpus variant: team and school normalize alike, yet
    the matcher is asked for the word as written; school occurs in two
    school names of the corpus and team in none. *)
Lemma corpus_search_keeps_query_as_written :
  normalizedQuery "team" = normalizedQuery "school" /\
  corpus_sortedResults Demo.yaml_load Demo.new_Interpreter Demo.store
    Demo.matcher "team" "both" 10%Q = [] /\
  map (fun r => CorpusItem.id (item r))
      (corpus_sortedResults Demo.yaml_load Demo.new_Interpreter Demo.store
         Demo.matcher "school" "both" 10%Q) =
    ["demo-2024:7"; "demo-2024:3"; "nationals-2024:7"] /\
  corpus_sortedResults Demo.yaml_load Demo.new_Interpreter Demo.store
    Demo.matcher "team" "both" 10%Q <>
  corpus_sortedResults Demo.yaml_load Demo.new_Interpreter Demo.store
    Demo.matcher "school" "both" 10%Q.
Proof.
  split; [reflexivity|]. split; [reflexivity|]. split; [reflexivity|].
  intros H. apply (f_equal length) in H. vm_compute in H. discriminate.
Qed.

(** C10, on a directory that cannot be read. *)
Lemma unreadable_directory_lists_nothing_witness :
  list_tournaments (Yaml := string) Demo.no_directory =
    Text ("Available Tournaments (0):" +:+ nl) /\
  search_corpus Demo.yaml_load Demo.new_Interpreter Demo.no_directory
    Demo.matcher "troy" None None =
    Text (tpl ["No "; "tournaments or teams"; " found matching "; quoted "troy"]).
Proof.
  destruct (unreadable_directory_lists_nothing Demo.yaml_load
              Demo.new_Interpreter Demo.no_directory Demo.matcher
              (Demo.enoent "results") "troy" None None eq_refl)
    as [_ [Hlist Hsearch]].
  split; [exact Hlist | exact Hsearch].
Defined.

(** * Further properties of the handlers *)

(** ** Sorting and slicing *)

Section SortFacts.

Context {A : Type} (le : A -> A -> bool).
Hypothesis le_total : forall x y, le x y = true \/ le y x = true.

Local Abbreviation R := (fun x y : A => le x y = true).

Lemma insert_sorted_perm (x : A) (xs : list A) :
  Js.insert_sorted le x xs ≡ₚ x :: xs.
Proof.
  induction xs as [|y ys IH]; simpl; [done|].
  destruct (le x y); [done|]. rewrite IH. apply Permutation_swap.
Qed.

Lemma sort_by_perm (xs : list A) : Js.sort_by le xs ≡ₚ xs.
Proof.
  induction xs as [|x xs IH]; simpl; [done|].
  by rewrite insert_sorted_perm, IH.
Qed.

Lemma insert_sorted_HdRel (y x : A) (xs : list A) :
  le y x = true -> HdRel R y xs -> HdRel R y (Js.insert_sorted le x xs).
Proof.
  intros Hyx Hhd. destruct xs as [|z zs]; simpl.
  - by constructor.
  - destruct (le x z); constructor; [done|].
    by inversion Hhd.
Qed.

Lemma insert_sorted_Sorted (x : A) (xs : list A) :
  Sorted R xs -> Sorted R (Js.insert_sorted le x xs).
Proof.
  induction 1 as [|y ys Hys IH Hhd]; simpl.
  - by repeat constructor.
  - destruct (le x y) eqn:Hxy.
    + constructor; [by constructor | by constructor].
    + constructor; [done|]. apply insert_sorted_HdRel; [|done].
      destruct (le_total x y); congruence.
Qed.

Lemma sort_by_Sorted (xs : list A) : Sorted R (Js.sort_by le xs).
Proof.
  induction xs as [|x xs IH]; simpl; [constructor|].
  by apply insert_sorted_Sorted.
Qed.

End SortFacts.

Lemma Sorted_take {A} (R : relation A) (n : nat) (xs : list A) :
  Sorted R xs -> Sorted R (take n xs).
Proof.
  intros H. revert n. induction H as [|x xs Hxs IH Hhd]; intros [|n]; simpl;
    try constructor.
  - apply IH.
  - destruct Hhd; destruct n; simpl; by constructor.
Qed.

Lemma Sorted_weaken {A} (R R' : relation A) (xs : list A) :
  (forall x y, R x y -> R' x y) -> Sorted R xs -> Sorted R' xs.
Proof.
  intros Himpl. induction 1 as [|x xs Hxs IH Hhd]; constructor; [done|].
  destruct Hhd; constructor. by apply Himpl.
Qed.

Lemma slice0_take {A} (xs : list A) (e : Q) :
  exists n, Js.slice0 xs e = take n xs.
Proof. unfold Js.slice0. destruct (_ <? 0); eauto. Qed.

Lemma slice0_length_le {A} (xs : list A) (e : Q) :
  (0 <= e)%Q -> (length (Js.slice0 xs e) <= Z.to_nat (Qfloor e))%nat.
Proof.
  intros He. unfold Js.slice0, Js.to_integer.
  assert (Hb : Qle_bool 0 e = true) by by apply Qle_bool_iff.
  rewrite Hb. simpl.
  assert (Hfloor : 0 <= Qfloor e).
  { rewrite <- (Qfloor_Z 0). by apply Qfloor_resp_le. }
  destruct (Qfloor e <? 0) eqn:Hneg; [apply Z.ltb_lt in Hneg; lia|].
  rewrite length_take. lia.
Qed.

(** ** Strings with a suffix *)

Lemma length_append (a b : string) :
  String.length (a +:+ b) = (String.length a + String.length b)%nat.
Proof.
  induction a as [|c a IH]; [done|]. rewrite append_cons. simpl. by rewrite IH.
Qed.

Lemma drop_chars_append (a b : string) :
  Js.drop_chars (String.length a) (a +:+ b) = b.
Proof. induction a as [|c a IH]; [by destruct b|]. by rewrite append_cons. Qed.

Lemma take_chars_append (a b : string) :
  Js.take_chars (String.length a) (a +:+ b) = a.
Proof.
  induction a as [|c a IH]; [by destruct b|].
  rewrite append_cons. simpl. by rewrite IH.
Qed.

Lemma take_drop_chars (n : nat) (s : string) :
  Js.take_chars n s +:+ Js.drop_chars n s = s.
Proof.
  revert s. induction n as [|n IH]; intros [|c s]; simpl; try done.
  by rewrite append_cons, IH.
Qed.

Lemma endsWith_append (a p : string) : Js.endsWith (a +:+ p) p = true.
Proof.
  unfold Js.endsWith. rewrite length_append.
  apply andb_true_iff. split; [apply Nat.leb_le; lia|].
  replace (String.length a + String.length p - String.length p)%nat
    with (String.length a) by lia.
  rewrite drop_chars_append. apply String.eqb_refl.
Qed.

Lemma slice_off_end_append (a p : string) :
  Js.slice_off_end (String.length p) (a +:+ p) = a.
Proof.
  unfold Js.slice_off_end. rewrite length_append.
  replace (String.length a + String.length p - String.length p)%nat
    with (String.length a) by lia.
  apply take_chars_append.
Qed.

Lemma endsWith_split (s p : string) :
  Js.endsWith s p = true ->
  s = Js.slice_off_end (String.length p) s +:+ p.
Proof.
  unfold Js.endsWith, Js.slice_off_end.
  intros [_ Heq%String.eqb_eq]%andb_true_iff.
  etrans;
    [symmetry; apply (take_drop_chars (String.length s - String.length p))|].
  by rewrite Heq.
Qed.

(** ** The tournament listing *)

(** X1. The listing is in ascending order of the ids, compared by code
    units as [sort] does: an id with a character beyond the basic plane,
    which starts with a surrogate, comes before one that starts with a
    character from the end of the basic plane. *)
Theorem getAvailableTournaments_sorted (store : Store) :
  Sorted code_unit_le (getAvailableTournaments store) /\
  Js.sort_strings ["～"; "😀"; "z"] = ["z"; "😀"; "～"].
Proof.
  split; [|by vm_compute].
  unfold getAvailableTournaments. destruct (readdir store) as [|files];
    [constructor|].
  apply sort_by_Sorted. apply code_unit_leb_total.
Qed.

Lemma getAvailableTournaments_listed (store : Store) (files : list string)
    (id : string) :
  readdir store = inr files ->
  id ∈ getAvailableTournaments store <-> (id +:+ ".yaml") ∈ files.
Proof.
  intros Hdir. unfold getAvailableTournaments, Js.sort_strings.
  rewrite Hdir, sort_by_perm, list_elem_of_fmap. split.
  - intros [file [-> [Hends Hin]%list_elem_of_filter]].
    apply Is_true_true in Hends.
    pose proof (endsWith_split file ".yaml" Hends) as Hsplit.
    change (String.length ".yaml") with 5%nat in Hsplit.
    by rewrite <- Hsplit.
  - intros Hin. exists (id +:+ ".yaml"). split.
    + symmetry. apply (slice_off_end_append id ".yaml").
    + apply list_elem_of_filter. split; [|done].
      apply Is_true_true, endsWith_append.
Qed.

(** X2. When the directory can be read, the listing holds exactly the ids
    whose file [id.yaml] is in the directory: every other file is left out,
    and every listed id names a file that is there. *)
Theorem getAvailableTournaments_files (store : Store) (files : list string) :
  readdir store = inr files ->
  forall id, id ∈ getAvailableTournaments store <-> (id +:+ ".yaml") ∈ files.
Proof.
  intros Hdir id. by apply getAvailableTournaments_listed.
Qed.

(** X2, on the sample directory: [README.md] is not listed and
    [demo-2024] is. *)
Lemma getAvailableTournaments_files_witness :
  "demo-2024" ∈ getAvailableTournaments Demo.store /\
  ~ "README.md" ∈ getAvailableTournaments Demo.store.
Proof.
  pose proof (getAvailableTournaments_files Demo.store _ eq_refl) as H.
  split.
  - apply H. vm_compute. repeat constructor.
  - intros Hin%H.
    repeat (apply elem_of_cons in Hin as [Hin|Hin];
            [vm_compute in Hin; discriminate|]).
    by apply elem_of_nil in Hin.
Defined.

(** ** Error policy of the single-tournament tools *)

Section ErrorPolicy.

Context {Yaml : Type}.
Variable yaml_load : string -> Result Yaml.
Variable new_Interpreter : Yaml -> Result Interpreter.t.
Variable store : Store.

Local Abbreviation load := (loadInterpreter yaml_load new_Interpreter store).
Local Abbreviation placement :=
  (get_team_placement yaml_load new_Interpreter store).
Local Abbreviation rankings :=
  (get_tournament_rankings yaml_load new_Interpreter store).
Local Abbreviation info := (get_tournament_info yaml_load new_Interpreter store).
Local Abbreviation roster :=
  (get_tournament_teams yaml_load new_Interpreter store).
Local Abbreviation all_placements :=
  (get_team_all_placements yaml_load new_Interpreter store).
Local Abbreviation fetch := (fetch_tool yaml_load new_Interpreter store).

Lemma on_error_other (what tournamentId : string) (error : Js.Error) :
  Js.code error <> Some "ENOENT" ->
  on_error (Yaml := Yaml) what tournamentId error =
    Throw InternalError (what +:+ ": " +:+ Js.message error).
Proof.
  intros H. unfold on_error. by rewrite bool_decide_eq_false_2.
Qed.

(** [fetch] loads the record through the same three steps as
    [loadInterpreter]. *)
Lemma fetch_tool_failed (id : string) (error : Js.Error) :
  load id = inl error ->
  fetch id = on_error "Failed to fetch tournament data" id error.
Proof.
  unfold loadInterpreter, fetch_tool.
  destruct (readFile store _) as [e|content]; simpl; [congruence|].
  destruct (yaml_load content) as [e|data]; simpl; [congruence|].
  destruct (new_Interpreter data) as [e|interpreter]; simpl; congruence.
Qed.

Lemma fetch_tool_loaded (id : string) (interpreter : Interpreter.t) :
  load id = inr interpreter ->
  exists data,
    fetch id =
      Json {| doc_id := id;
              doc_title := tournamentTitle (Interpreter.tournament interpreter);
              doc_text := data;
              doc_url := "https://www.duosmium.org/results/" +:+ id |}.
Proof.
  unfold loadInterpreter, fetch_tool.
  destruct (readFile store _) as [e|content]; simpl; [congruence|].
  destruct (yaml_load content) as [e|data]; simpl; [congruence|].
  destruct (new_Interpreter data) as [e|i]; simpl; [congruence|].
  intros [= ->]. eauto.
Qed.

(** X3. A record that is missing gets the same not-found text from every
    single-tournament tool, [fetch] included, whatever the other
    arguments. *)
Theorem missing_record_not_found
    (tournamentId teamId : string) (event : option string)
    (limit : option Q) (error : Js.Error) :
  load tournamentId = inl error ->
  Js.code error = Some "ENOENT" ->
  let answer :=
    Text (tpl ["Tournament "; quoted tournamentId; " not found"]) in
  placement tournamentId teamId event = answer /\
  rankings tournamentId limit = answer /\
  info tournamentId = answer /\
  roster tournamentId = answer /\
  all_placements tournamentId teamId = answer /\
  fetch tournamentId = answer.
Proof.
  intros Hload Hcode answer. subst answer.
  unfold get_team_placement, get_tournament_rankings, get_tournament_info,
    get_tournament_teams, get_team_all_placements.
  rewrite (fetch_tool_failed _ _ Hload), Hload.
  by rewrite !(on_error_ENOENT _ _ _ Hcode).
Qed.

(** X4. Any other failure to read, parse or interpret the record makes
    each tool throw an internal error that names the tool's action and
    carries the message of the failure. *)
Theorem load_failure_internal_error
    (tournamentId teamId : string) (event : option string)
    (limit : option Q) (error : Js.Error) :
  load tournamentId = inl error ->
  Js.code error <> Some "ENOENT" ->
  let thrown what := Throw InternalError (what +:+ Js.message error) in
  placement tournamentId teamId event =
    thrown "Failed to get team placement: " /\
  rankings tournamentId limit = thrown "Failed to get tournament rankings: " /\
  info tournamentId = thrown "Failed to get tournament info: " /\
  roster tournamentId = thrown "Failed to get tournament teams: " /\
  all_placements tournamentId teamId =
    thrown "Failed to get team all placements: " /\
  fetch tournamentId = thrown "Failed to fetch tournament data: ".
Proof.
  intros Hload Hcode thrown. subst thrown.
  unfold get_team_placement, get_tournament_rankings, get_tournament_info,
    get_tournament_teams, get_team_all_placements.
  rewrite (fetch_tool_failed _ _ Hload), Hload.
  rewrite !(on_error_other _ _ _ Hcode). by repeat split.
Qed.

Lemma placement_loaded (tournamentId teamId : string) (event : option string)
    (interpreter : Interpreter.t) :
  load tournamentId = inr interpreter ->
  exists text, placement tournamentId teamId event = Text text.
Proof.
  intros Hload. unfold get_team_placement. rewrite Hload.
  destruct (findTeam interpreter teamId); [|eauto].
  destruct (negb (Js.truthy event)); [eauto|].
  destruct (find _ _); eauto.
Qed.

Lemma all_placements_loaded (tournamentId teamId : string)
    (interpreter : Interpreter.t) :
  load tournamentId = inr interpreter ->
  exists text, all_placements tournamentId teamId = Text text.
Proof.
  intros Hload. unfold get_team_all_placements. rewrite Hload.
  destruct (findTeam interpreter teamId); [|eauto].
  destruct (teamPlacements _ _); eauto.
Qed.

Lemma loaded_tools
    (tournamentId teamId : string) (event : option string)
    (limit : option Q) (interpreter : Interpreter.t) :
  load tournamentId = inr interpreter ->
  (exists text, placement tournamentId teamId event = Text text) /\
  (exists text, rankings tournamentId limit = Text text) /\
  (exists text, info tournamentId = Text text) /\
  (exists text, roster tournamentId = Text text) /\
  (exists text, all_placements tournamentId teamId = Text text).
Proof.
  intros Hload.
  split; [by eapply placement_loaded|].
  split; [unfold get_tournament_rankings; rewrite Hload; eauto|].
  split; [unfold get_tournament_info; rewrite Hload; eauto|].
  split; [unfold get_tournament_teams; rewrite Hload; eauto|].
  by eapply all_placements_loaded.
Qed.

(** X6. A [limit] that is zero or negative, or at least the number of teams,
    changes nothing: the rankings are those of the call without a limit. *)
Theorem rankings_limit_without_effect (tournamentId : string) (q : Q) :
  ((q <= 0)%Q \/
   forall interpreter, load tournamentId = inr interpreter ->
     Z.of_nat (length (Interpreter.teams interpreter)) <= Qfloor q) ->
  get_tournament_rankings yaml_load new_Interpreter store tournamentId (Some q) =
  get_tournament_rankings yaml_load new_Interpreter store tournamentId None.
Proof.
  intros H. unfold get_tournament_rankings.
  destruct (load tournamentId) as [error|interpreter] eqn:Hload; [done|].
  assert (Hsame : ranked_teams interpreter (Some q) =
                  ranked_teams interpreter None); [|by rewrite Hsame].
  unfold ranked_teams.
  destruct (Qle_bool q 0) eqn:Hq; [done|]. simpl.
  destruct H as [H|H].
  { apply Qle_bool_iff in H. congruence. }
  specialize (H interpreter eq_refl).
  assert (Hpos : (0 < q)%Q).
  { apply Qnot_le_lt. intros Hle%Qle_bool_iff. congruence. }
  pose proof (ranked_teams_positive interpreter q Hpos) as Htake.
  unfold ranked_teams in Htake. rewrite Hq in Htake. simpl in Htake.
  rewrite Htake. apply take_ge. lia.
Qed.

(** X7. A team that resolves but has no placing in the named event, or no
    placing at all, gets a text that says so, not an error. *)
Theorem team_without_placing
    (tournamentId teamId event : string)
    (interpreter : Interpreter.t) (team : Team.t) :
  load tournamentId = inr interpreter ->
  findTeam interpreter teamId = Some team ->
  (event <> EmptyString ->
   (forall p, p ∈ Interpreter.placings interpreter ->
      Team.number (Placing.team p) = Team.number team ->
      Event.name (Placing.event p) <> event) ->
   placement tournamentId teamId (Some event) =
     Text (tpl ["No placement found for team ";
                quoted (Js.show (Team.school team));
                " (#"; num (Team.number team); ") in event "; quoted event])) /\
  ((forall p, p ∈ Interpreter.placings interpreter ->
      Team.number (Placing.team p) <> Team.number team) ->
   all_placements tournamentId teamId =
     Text (tpl ["No placements found for team ";
                quoted (Js.show (Team.school team));
                " (#"; num (Team.number team); ")"])).
Proof.
  intros Hload Hfind. split.
  - intros Hevent Hnone. unfold get_team_placement.
    rewrite Hload, Hfind, (truthy_Some _ Hevent). simpl.
    destruct (find _ _) as [p|] eqn:Hp; [|done].
    apply find_some in Hp as [Hin Htest].
    apply andb_true_iff in Htest as [Hnum%Z.eqb_eq Hname%String.eqb_eq].
    apply list_elem_of_In in Hin. by destruct (Hnone p Hin Hnum).
  - intros Hnone. unfold get_team_all_placements. rewrite Hload, Hfind.
    destruct (teamPlacements interpreter team) as [|p ps] eqn:Hps; [done|].
    assert (Hin : p ∈ teamPlacements interpreter team)
      by (rewrite Hps; apply elem_of_cons; by left).
    apply list_elem_of_filter in Hin as [Hnum Hin].
    by destruct (Hnone p Hin).
Qed.

End ErrorPolicy.

(** X3, on the sample directory: there is no [missing.yaml]. *)
Lemma missing_record_not_found_witness :
  get_tournament_rankings Demo.yaml_load Demo.new_Interpreter Demo.store
    "missing" None =
    Text (tpl ["Tournament "; quoted "missing"; " not found"]) /\
  fetch_tool Demo.yaml_load Demo.new_Interpreter Demo.store "missing" =
    Text (tpl ["Tournament "; quoted "missing"; " not found"]).
Proof.
  destruct (missing_record_not_found Demo.yaml_load Demo.new_Interpreter
              Demo.store "missing" "troy" None None
              (Demo.enoent "missing.yaml") eq_refl eq_refl)
    as [_ [Hrankings [_ [_ [_ Hfetch]]]]].
  split; [exact Hrankings | exact Hfetch].
Defined.

(** X4, on the sample directory: [broken.yaml] does not interpret. *)
Lemma load_failure_internal_error_witness :
  get_tournament_info Demo.yaml_load Demo.new_Interpreter Demo.store "broken" =
    Throw InternalError "Failed to get tournament info: invalid record" /\
  fetch_tool Demo.yaml_load Demo.new_Interpreter Demo.store "broken" =
    Throw InternalError "Failed to fetch tournament data: invalid record".
Proof.
  destruct (load_failure_internal_error Demo.yaml_load Demo.new_Interpreter
              Demo.store "broken" "troy" None None
              {| Js.code := None; Js.message := "invalid record" |} eq_refl)
    as [_ [_ [Hinfo [_ [_ Hfetch]]]]]; [discriminate|].
  split; [exact Hinfo | exact Hfetch].
Defined.

(** X6, on the sample record of three teams: limits 0 and 5. *)
Lemma rankings_limit_without_effect_witness :
  get_tournament_rankings Demo.yaml_load Demo.new_Interpreter Demo.store
    "demo-2024" (Some (inject_Z 0)) =
  get_tournament_rankings Demo.yaml_load Demo.new_Interpreter Demo.store
    "demo-2024" None /\
  get_tournament_rankings Demo.yaml_load Demo.new_Interpreter Demo.store
    "demo-2024" (Some (inject_Z 5)) =
  get_tournament_rankings Demo.yaml_load Demo.new_Interpreter Demo.store
    "demo-2024" None.
Proof.
  split.
  - apply (rankings_limit_without_effect Demo.yaml_load Demo.new_Interpreter
             Demo.store "demo-2024" (inject_Z 0)).
    left. discriminate.
  - apply (rankings_limit_without_effect Demo.yaml_load Demo.new_Interpreter
             Demo.store "demo-2024" (inject_Z 5)).
    right. intros interpreter [= <-]. discriminate.
Defined.

(** X7, on the sample record: Troy has no placing in Forestry. *)
Lemma team_without_placing_witness :
  get_team_placement Demo.yaml_load Demo.new_Interpreter Demo.store
    "demo-2024" "troy" (Some "Forestry") =
    Text (tpl ["No placement found for team "; quoted "Troy High School";
               " (#"; "7"; ") in event "; quoted "Forestry"]).
Proof.
  apply (proj1 (team_without_placing Demo.yaml_load Demo.new_Interpreter
                  Demo.store "demo-2024" "troy" "Forestry" Demo.demo_2024
                  Demo.troy eq_refl eq_refl)); [discriminate|].
  intros p Hin _.
  repeat (apply elem_of_cons in Hin as [->|Hin]; [discriminate|]).
  by apply elem_of_nil in Hin.
Defined.

(** ** Team resolution, continued *)

(** A printed number has digits, signs, a point and the letter e only, so
    lower-casing leaves it as it is. *)
Lemma all_chars_app (f : ascii -> bool) (a b : string) :
  Js.all_chars f (a +:+ b) = Js.all_chars f a && Js.all_chars f b.
Proof.
  induction a as [|c a IH]; [done|].
  rewrite append_cons. simpl. by rewrite IH, andb_assoc.
Qed.

Lemma number_chars_lower (s : string) :
  Js.all_chars number_char s = true -> Js.toLowerCase s = s.
Proof.
  intros Hs. rewrite toLowerCase_ascii.
  - induction s as [|c s IH]; [done|]. simpl in *.
    apply andb_true_iff in Hs as [Hc Hs]. rewrite (IH Hs). f_equal.
    revert Hc. destruct c as [[] [] [] [] [] [] [] []]; by vm_compute.
  - unfold ascii_only. induction s as [|c s IH]; [done|]. simpl in *.
    apply andb_true_iff in Hs as [Hc Hs]. rewrite (IH Hs), andb_true_r.
    revert Hc. destruct c as [[] [] [] [] [] [] [] []]; by vm_compute.
Qed.

Lemma pretty_N_char_number (x : N) : number_char (pretty_N_char x) = true.
Proof. unfold pretty_N_char. by repeat case_match. Qed.

Lemma pretty_N_go_number (x : N) (s : string) :
  Js.all_chars number_char s = true ->
  Js.all_chars number_char (pretty_N_go x s) = true.
Proof.
  revert s. induction (N.lt_wf_0 x) as [x _ IH]; intros s Hs.
  assert (x = 0 \/ 0 < x)%N as [->|Hpos] by lia.
  - by rewrite pretty_N_go_0.
  - rewrite pretty_N_go_step by done. apply IH.
    + by apply N.div_lt.
    + simpl. by rewrite pretty_N_char_number.
Qed.

Lemma pretty_N_number (x : N) : Js.all_chars number_char (pretty x) = true.
Proof.
  unfold pretty, pretty_N. case_decide; [done|].
  by apply pretty_N_go_number.
Qed.

Lemma pretty_Z_number (z : Z) : Js.all_chars number_char (pretty z) = true.
Proof.
  unfold pretty, pretty_Z. destruct z as [|x|x]; [done| |].
  - apply (pretty_N_number (Npos x)).
  - rewrite append_cons, append_nil_l. simpl.
    apply (pretty_N_number (Npos x)).
Qed.

Lemma strip_zeros_chars (f : ascii -> bool) (s : string) :
  Js.all_chars f s = true -> Js.all_chars f (Js.strip_zeros s) = true.
Proof.
  induction s as [|c s IH]; [done|]. simpl.
  intros [Hc Hs]%andb_true_iff. specialize (IH Hs).
  destruct (Js.strip_zeros s) as [|d kept].
  - destruct (Ascii.eqb c "0"); [done|]. simpl. by rewrite Hc.
  - simpl in *. by rewrite Hc, IH.
Qed.

Lemma exponent_form_number (v : Z) :
  Js.all_chars number_char (Js.exponent_form v) = true.
Proof.
  unfold Js.exponent_form.
  pose proof (strip_zeros_chars number_char _ (pretty_Z_number v)) as Hstrip.
  destruct (Js.strip_zeros (pretty v)) as [|d rest]; [apply pretty_Z_number|].
  simpl in Hstrip. apply andb_true_iff in Hstrip as [Hd Hrest].
  rewrite append_cons. simpl. rewrite Hd. simpl.
  rewrite !all_chars_app, pretty_Z_number, andb_true_r.
  destruct (String.eqb rest EmptyString); [done|].
  by rewrite all_chars_app, Hrest.
Qed.

Lemma num_number (z : Z) : Js.all_chars number_char (num z) = true.
Proof.
  unfold num, Js.number_toString.
  destruct (_ <? _); [apply pretty_Z_number|].
  rewrite all_chars_app, exponent_form_number, andb_true_r.
  by destruct (z <? 0).
Qed.

Lemma num_lower (z : Z) : Js.toLowerCase (num z) = num z.
Proof. apply number_chars_lower, num_number. Qed.



(** Numbers as they print: the digits below 10^21, the exponent form from
    there on. *)
Example num_samples :
  num 7 = "7" /\ num (-12) = "-12" /\
  num (10 ^ 21 - 1) = "999999999999999999999" /\
  num (10 ^ 21) = "1e+21" /\
  num (2 ^ 70) = "1.1805916207174113e+21" /\
  num (- 2 ^ 80) = "-1.2089258196146292e+24".
Proof. repeat split; vm_compute; reflexivity. Qed.


Lemma pretty_N_char_digit (x : N) : digit_char (pretty_N_char x) = true.
Proof. unfold pretty_N_char. by repeat case_match. Qed.

Lemma pretty_N_go_digit (x : N) (s : string) :
  Js.all_chars digit_char s = true ->
  Js.all_chars digit_char (pretty_N_go x s) = true.
Proof.
  revert s. induction (N.lt_wf_0 x) as [x _ IH]; intros s Hs.
  assert (x = 0 \/ 0 < x)%N as [->|Hpos] by lia.
  - by rewrite pretty_N_go_0.
  - rewrite pretty_N_go_step by done. apply IH.
    + by apply N.div_lt.
    + simpl. by rewrite pretty_N_char_digit.
Qed.

Lemma pretty_N_digit (x : N) : Js.all_chars digit_char (pretty x) = true.
Proof.
  unfold pretty, pretty_N. case_decide; [done|].
  by apply pretty_N_go_digit.
Qed.

Lemma pretty_Z_digit (z : Z) : Js.all_chars digit_char (pretty z) = true.
Proof.
  unfold pretty, pretty_Z. destruct z as [|x|x]; [done| |].
  - apply (pretty_N_digit (Npos x)).
  - rewrite append_cons, append_nil_l. simpl.
    apply (pretty_N_digit (Npos x)).
Qed.

(** Below 10^21 a number prints its digits, with a minus sign when it is
    negative. *)
Lemma num_digits (z : Z) :
  Z.abs z < 10 ^ 21 -> Js.all_chars digit_char (num z) = true.
Proof.
  intros Hz. unfold num, Js.number_toString.
  apply Z.ltb_lt in Hz. rewrite Hz. apply pretty_Z_digit.
Qed.

Lemma team_matches_case (a b : string) (t : Team.t) :
  Z.abs (Team.number t) < 10 ^ 21 ->
  Js.toLowerCase a = Js.toLowerCase b ->
  team_matches a t = team_matches b t.
Proof.
  intros Hbound Hab. unfold team_matches. rewrite Hab. f_equal.
  pose proof (num_digits _ Hbound) as Hnum.
  destruct (String.eqb_spec (num (Team.number t)) a) as [Ha|Ha],
           (String.eqb_spec (num (Team.number t)) b) as [Hb|Hb]; try done.
  - destruct Hb. symmetry. apply toLowerCase_digits_inv; [done|].
    by rewrite <- Hab, <- Ha, num_lower.
  - destruct Ha. symmetry. apply toLowerCase_digits_inv; [done|].
    by rewrite Hab, <- Hb, num_lower.
Qed.

Lemma find_pointwise {A} (f g : A -> bool) (l : list A) :
  Forall (fun x => f x = g x) l -> find f l = find g l.
Proof.
  induction 1 as [|x l Hx _ IH]; simpl; [done|]. by rewrite Hx, IH.
Qed.

(** X8. Team resolution does not see the letter case of [teamId], as long
    as no team number of the record is so large that it prints with a
    letter (10^21 and more: 1e+21): two [teamId]s with the same lower-case
    form then resolve to the same team, or both to none. *)
Theorem findTeam_case_insensitive
    (interpreter : Interpreter.t) (a b : string) :
  Forall (fun t => Z.abs (Team.number t) < 10 ^ 21)
         (Interpreter.teams interpreter) ->
  Js.toLowerCase a = Js.toLowerCase b ->
  findTeam interpreter a = findTeam interpreter b.
Proof.
  intros Hbound Hab. unfold findTeam. apply find_pointwise.
  eapply Forall_impl; [exact Hbound|].
  intros t Ht. by apply team_matches_case.
Qed.

(** X8, on the league record: with and without the accent in capitals. *)
Lemma findTeam_case_insensitive_witness :
  findTeam Demo.league_2024 "ÉCOLE élan" = findTeam Demo.league_2024 "école ÉLAN".
Proof.
  apply (findTeam_case_insensitive Demo.league_2024 "ÉCOLE élan" "école ÉLAN").
  - repeat constructor.
  - vm_compute. reflexivity.
Defined.

(** The bound of X8 is needed: a team number of 10^21 prints as 1e+21,
    and is not found when the letter is written in capitals. *)
Example findTeam_exponent_case :
  let interpreter :=
    {| Interpreter.tournament := Interpreter.tournament Demo.league_2024;
       Interpreter.events := []; Interpreter.placings := [];
       Interpreter.teams := [Demo.team (10 ^ 21) "Northview High School" 1 40] |} in
  Js.toLowerCase "1E+21" = Js.toLowerCase "1e+21" /\
  findTeam interpreter "1e+21" =
    Some (Demo.team (10 ^ 21) "Northview High School" 1 40) /\
  findTeam interpreter "1E+21" = None /\
  findTeam interpreter "1000000000000000000000" = None.
Proof. repeat split; vm_compute; reflexivity. Qed.

(** ** Resources *)

Lemma startsWith_append (p s : string) : Js.startsWith (p +:+ s) p = true.
Proof. apply startsWith_spec. eauto. Qed.

Lemma replace_unfold (p r s : string) :
  Js.replace p r s =
    if Js.startsWith s p then r +:+ Js.drop_chars (String.length p) s
    else match s with
         | EmptyString => EmptyString
         | String c s' => String c (Js.replace p r s')
         end.
Proof. by destruct s. Qed.

(** Replacing a prefix by nothing leaves what follows it. *)
Lemma replace_prefix (p s : string) : Js.replace p EmptyString (p +:+ s) = s.
Proof.
  by rewrite replace_unfold, startsWith_append, drop_chars_append.
Qed.

Section Resources.

Context {Yaml : Type}.
Variable yaml_load : string -> Result Yaml.
Variable store : Store.

Local Abbreviation read := (read_resource yaml_load store).

(** The read of [duosmium://results/id] goes to the file [id.yaml]. *)
Lemma read_resource_unfold (id : string) :
  read (results_scheme +:+ id) =
    match readFile store (id +:+ ".yaml") with
    | inl error =>
        if bool_decide (Js.code error = Some "ENOENT") then
          ResourceError InvalidRequest ("Resource not found: " +:+ id)
        else ResourceError InternalError
               ("Failed to read resource: " +:+ Js.message error)
    | inr content =>
        match yaml_load content with
        | inl error =>
            if bool_decide (Js.code error = Some "ENOENT") then
              ResourceError InvalidRequest ("Resource not found: " +:+ id)
            else ResourceError InternalError
                   ("Failed to read resource: " +:+ Js.message error)
        | inr _ =>
            Contents (results_scheme +:+ id) "application/x-yaml" content
        end
    end.
Proof.
  unfold read_resource.
  rewrite startsWith_append, replace_prefix. simpl.
  destruct (readFile store _) as [e|content]; simpl; [done|].
  by destruct (yaml_load content).
Qed.

(** X10. A resource read returns the file content verbatim, under the URI
    it was asked for, exactly when the file can be read and its content
    parses as YAML; the record is not interpreted. *)
Theorem read_resource_verbatim (id uri mimeType text : string) :
  read (results_scheme +:+ id) = Contents uri mimeType text <->
  uri = results_scheme +:+ id /\ mimeType = "application/x-yaml" /\
  readFile store (id +:+ ".yaml") = inr text /\
  exists data, yaml_load text = inr data.
Proof.
  rewrite read_resource_unfold. split.
  - destruct (readFile store _) as [e|content]; [by case_bool_decide|].
    destruct (yaml_load content) as [e|data] eqn:Hyaml;
      [by case_bool_decide|].
    intros [= <- <- <-]. eauto.
  - intros [-> [-> [-> [data ->]]]]. done.
Qed.

(** X11. The errors of a resource read are protocol errors: an invalid
    request for a URI outside the scheme and for a missing file (where the
    tools answer with a text), an internal error for a content that does
    not parse, although the parsed value is not used. *)
Theorem read_resource_errors :
  (forall uri, Js.startsWith uri results_scheme = false ->
     read uri =
       ResourceError InvalidRequest
         "Invalid URI scheme. Expected duosmium://results/{id}") /\
  (forall id error,
     readFile store (id +:+ ".yaml") = inl error ->
     Js.code error = Some "ENOENT" ->
     read (results_scheme +:+ id) =
       ResourceError InvalidRequest ("Resource not found: " +:+ id)) /\
  (forall id content error,
     readFile store (id +:+ ".yaml") = inr content ->
     yaml_load content = inl error ->
     Js.code error <> Some "ENOENT" ->
     read (results_scheme +:+ id) =
       ResourceError InternalError
         ("Failed to read resource: " +:+ Js.message error)).
Proof.
  split; [|split].
  - intros uri Huri. unfold read_resource. by rewrite Huri.
  - intros id error Hread Hcode. rewrite read_resource_unfold, Hread.
    by rewrite bool_decide_eq_true_2.
  - intros id content error Hread Hyaml Hcode.
    rewrite read_resource_unfold, Hread, Hyaml.
    by rewrite bool_decide_eq_false_2.
Qed.

(** X12. The resource list never fails: it is the template entry followed
    by one entry per listed tournament (the template alone when the
    directory cannot be read).  Each such entry names a file of the
    directory, and reading its URI returns the content of that file once
    the file reads and parses. *)
Theorem list_resources_readable :
  (forall error, readdir store = inl error ->
     length (list_resources store) = 1%nat) /\
  length (list_resources store) = S (length (getAvailableTournaments store)) /\
  (forall i id,
     getAvailableTournaments store !! i = Some id ->
     exists r,
       list_resources store !! S i = Some r /\
       Resource.uri r = results_scheme +:+ id /\
       (forall files, readdir store = inr files -> (id +:+ ".yaml") ∈ files) /\
       (forall content data,
          readFile store (id +:+ ".yaml") = inr content ->
          yaml_load content = inr data ->
          read (Resource.uri r) =
            Contents (Resource.uri r) "application/x-yaml" content)).
Proof.
  unfold list_resources. split; [|split].
  - intros error Hdir. unfold getAvailableTournaments. by rewrite Hdir.
  - simpl. by rewrite length_map.
  - intros i id Hi. exists (resource_of id). split; [|split; [done|split]].
    + simpl. by rewrite list_lookup_fmap, Hi.
    + intros files Hdir.
      apply (getAvailableTournaments_listed store files id Hdir).
      by apply list_elem_of_lookup_2 in Hi.
    + intros content data Hread Hyaml. simpl.
      by rewrite read_resource_unfold, Hread, Hyaml.
Qed.

End Resources.

(** X11, with a parser that rejects the content of [demo-2024.yaml]. *)
Lemma read_resource_errors_witness :
  read_resource (Yaml := string)
    (fun _ => inl {| Js.code := None; Js.message := "bad indentation" |})
    Demo.store "duosmium://results/demo-2024" =
    ResourceError InternalError "Failed to read resource: bad indentation" /\
  read_resource Demo.yaml_load Demo.store "duosmium://results/missing" =
    ResourceError InvalidRequest "Resource not found: missing".
Proof.
  split.
  - apply (proj2 (proj2 (read_resource_errors (Yaml := string)
                           (fun _ => inl {| Js.code := None;
                                            Js.message := "bad indentation" |})
                           Demo.store))
             "demo-2024" "demo"
             {| Js.code := None; Js.message := "bad indentation" |});
      [reflexivity | reflexivity | discriminate].
  - apply (proj1 (proj2 (read_resource_errors Demo.yaml_load Demo.store))
             "missing" (Demo.enoent "missing.yaml")); reflexivity.
Defined.

(** ** Tool dispatch *)

Section Dispatch.

Context {Yaml : Type}.
Variable yaml_load : string -> Result Yaml.
Variable new_Interpreter : Yaml -> Result Interpreter.t.
Variable store : Store.
Variable fuse_search :
  forall A : Type, FuseOptions A -> list A -> string -> list (FuseResult A).
Variable toFixed1 : Q -> string.
Variable remote : Remote.

Local Abbreviation load := (loadInterpreter yaml_load new_Interpreter store).

Lemma on_error_code (what tournamentId : string) (error : Js.Error)
    (code : ErrorCode) (message : string) :
  on_error (Yaml := Yaml) what tournamentId error = Throw code message ->
  code = InternalError.
Proof. unfold on_error. case_bool_decide; congruence. Qed.

(** Whatever a tool throws is an internal error. *)
Lemma tools_throw_internal (args : Args.t)
    (code : ErrorCode) (message : string) :
  (get_team_placement yaml_load new_Interpreter store (Args.tournamentId args)
     (Args.teamId args) (Args.event args) = Throw code message \/
   get_tournament_rankings yaml_load new_Interpreter store
     (Args.tournamentId args) (Args.limit args) = Throw code message \/
   list_tournaments (Yaml := Yaml) store = Throw code message \/
   get_tournament_info yaml_load new_Interpreter store
     (Args.tournamentId args) = Throw code message \/
   get_tournament_teams yaml_load new_Interpreter store
     (Args.tournamentId args) = Throw code message \/
   get_team_all_placements yaml_load new_Interpreter store
     (Args.tournamentId args) (Args.teamId args) = Throw code message \/
   fetch_tool yaml_load new_Interpreter store (Args.id args) =
     Throw code message) ->
  code = InternalError.
Proof.
  intros H.
  destruct (load (Args.tournamentId args)) as [error|interpreter] eqn:Hload.
  - destruct H as [H|[H|[H|[H|[H|[H|H]]]]]];
      try (unfold get_team_placement, get_tournament_rankings,
             get_tournament_info, get_tournament_teams,
             get_team_all_placements in H;
           rewrite Hload in H; by apply on_error_code in H);
      [done|].
    destruct (load (Args.id args)) as [e|i] eqn:Hid.
    + rewrite (fetch_tool_failed _ _ _ _ _ Hid) in H.
      by apply on_error_code in H.
    + by destruct (fetch_tool_loaded _ _ _ _ _ Hid) as [data Hdoc];
        rewrite Hdoc in H.
  - destruct (loaded_tools yaml_load new_Interpreter store
                (Args.tournamentId args) (Args.teamId args) (Args.event args)
                (Args.limit args) interpreter Hload)
      as [[t1 H1] [[t2 H2] [[t3 H3] [[t4 H4] [t5 H5]]]]].
    destruct H as [H|[H|[H|[H|[H|[H|H]]]]]]; try congruence; [done|].
    destruct (load (Args.id args)) as [e|i] eqn:Hid.
    + rewrite (fetch_tool_failed _ _ _ _ _ Hid) in H.
      by apply on_error_code in H.
    + by destruct (fetch_tool_loaded _ _ _ _ _ Hid) as [data Hdoc];
        rewrite Hdoc in H.
Qed.

Lemma search_catalog_throw (query : string) (type : option string)
    (limit : option Q) (code : ErrorCode) (message : string) :
  search_catalog (Yaml := Yaml) fuse_search toFixed1 remote query type limit =
    Throw code message ->
  code = InternalError.
Proof.
  unfold search_catalog.
  destruct (catalog_searchResults _ _ _ _ _) as [e|[|r rs]]; congruence.
Qed.

Lemma search_corpus_throw (query : string) (type : option string)
    (limit : option Q) (code : ErrorCode) (message : string) :
  search_corpus yaml_load new_Interpreter store fuse_search query type limit <>
    Throw code message.
Proof.
  unfold search_corpus. by destruct (corpus_sortedResults _ _ _ _ _ _ _).
Qed.

Lemma call_tool_dispatch
    (search : string -> option string -> option Q -> ToolResult Yaml)
    (name : string) (args : Args.t) :
  (forall q t l code message,
     search q t l = Throw code message -> code = InternalError) ->
  (name ∈ map Tool.name list_tools ->
   forall code message,
     call_tool yaml_load new_Interpreter store search name args =
       Throw code message ->
     code = InternalError) /\
  (name ∉ map Tool.name list_tools ->
   call_tool yaml_load new_Interpreter store search name args =
     Throw MethodNotFound ("Unknown tool: " +:+ name)).
Proof.
  intros Hsearch. unfold call_tool.
  repeat match goal with
         | |- context [String.eqb name ?s] =>
             destruct (String.eqb_spec name s) as [->|?]
         end;
    cbv beta iota;
    (split; [intros Hin code message H | intros Hnot]).
  all: try (by apply Hsearch in H).
  all: try (apply (tools_throw_internal args code message); tauto).
  all: try (destruct Hnot; simpl; by repeat constructor).
  - simpl in Hin.
    repeat (apply elem_of_cons in Hin as [?|Hin]; [done|]).
    by apply elem_of_nil in Hin.
  - done.
Qed.

(** X13. Both variants handle exactly the tools that the tool list
    advertises: a call by an advertised name throws nothing but an internal
    error, and a call by any other name, letter case included, is refused
    as an unknown method. *)
Theorem call_tool_advertised (name : string) (args : Args.t) :
  let catalog :=
    call_tool_catalog yaml_load new_Interpreter store fuse_search toFixed1
      remote name args in
  let corpus :=
    call_tool_corpus yaml_load new_Interpreter store fuse_search name args in
  (name ∈ map Tool.name list_tools ->
   forall code message,
     (catalog = Throw code message \/ corpus = Throw code message) ->
     code = InternalError) /\
  (name ∉ map Tool.name list_tools ->
   catalog = Throw MethodNotFound ("Unknown tool: " +:+ name) /\
   corpus = Throw MethodNotFound ("Unknown tool: " +:+ name)).
Proof.
  intros catalog corpus. subst catalog corpus.
  unfold call_tool_catalog, call_tool_corpus.
  pose proof (call_tool_dispatch
                (search_catalog fuse_search toFixed1 remote) name args
                search_catalog_throw) as [Hcat1 Hcat2].
  pose proof (call_tool_dispatch
                (search_corpus yaml_load new_Interpreter store fuse_search)
                name args) as [Hcor1 Hcor2].
  { intros q t l code message H. by apply search_corpus_throw in H. }
  split.
  - intros Hin code message [H|H]; [by eapply Hcat1 | by eapply Hcor1].
  - intros Hnot. split; [by apply Hcat2 | by apply Hcor2].
Qed.

End Dispatch.

(** X13, for a name in the wrong letter case. *)
Lemma call_tool_advertised_witness :
  call_tool_corpus Demo.yaml_load Demo.new_Interpreter Demo.store Demo.matcher
    "Search"
    {| Args.tournamentId := "demo-2024"; Args.teamId := "troy";
       Args.event := None; Args.limit := None; Args.query := "troy";
       Args.type := None; Args.id := "demo-2024" |} =
    Throw MethodNotFound "Unknown tool: Search".
Proof.
  apply (proj2 (call_tool_advertised Demo.yaml_load Demo.new_Interpreter
                  Demo.store Demo.matcher Demo.toFixed1 Demo.remote_up
                  "Search" _)).
  intros Hin. simpl in Hin.
  repeat (apply elem_of_cons in Hin as [Hin|Hin]; [discriminate|]).
  by apply elem_of_nil in Hin.
Defined.

(** ** The catalog items *)

Lemma or_else_nonempty (o : option string) (d : string) :
  d <> EmptyString -> Js.or_else o d <> EmptyString.
Proof.
  intros Hd. destruct o as [s|]; simpl; [|done].
  by destruct (String.eqb_spec s EmptyString).
Qed.

Lemma tournament_item_facts (tournament : CatalogTournament.t) :
  CatalogItem.type (tournament_item tournament) = "tournament" /\
  CatalogItem.name (tournament_item tournament) <> EmptyString /\
  Js.toLowerCase (CatalogItem.searchText (tournament_item tournament)) =
    CatalogItem.searchText (tournament_item tournament).
Proof.
  split; [done|]. split.
  - simpl. apply or_else_nonempty. by apply or_else_nonempty.
  - simpl. apply toLowerCase_idem.
Qed.

Lemma school_item_facts (index : nat) (line : string) (item : CatalogItem.t) :
  school_item index line = Some item ->
  CatalogItem.type item = "school" /\
  CatalogItem.name item <> EmptyString /\
  CatalogItem.id item = Some ("school-" +:+ Js.index_toString index) /\
  Js.toLowerCase (CatalogItem.searchText item) = CatalogItem.searchText item.
Proof.
  unfold school_item. cbv zeta.
  match goal with
  | |- (if String.eqb ?a EmptyString then _ else _) = _ -> _ =>
      destruct (String.eqb_spec a EmptyString) as [|Hname]; [done|]
  end.
  intros [= <-]. simpl. repeat split; [done|]. apply toLowerCase_idem.
Qed.

(** The school items built from the lines, numbered from [k] on. *)
Lemma school_items_from (k : nat) (lines : list string) (item : CatalogItem.t) :
  item ∈ omap id (imap (fun i => school_item (k + i)) lines) ->
  exists j line, (k <= j)%nat /\ school_item j line = Some item.
Proof.
  intros [o [Ho Hid]]%list_elem_of_omap. simpl in Hid. subst o.
  apply elem_of_lookup_imap in Ho as [i [line [Hitem _]]].
  exists (k + i)%nat, line. split; [lia | done].
Qed.

Lemma school_ids_NoDup (k : nat) (lines : list string) :
  NoDup (map CatalogItem.id
           (omap id (imap (fun i => school_item (k + i)) lines))).
Proof.
  revert k. induction lines as [|line lines IH]; intros k; [constructor|].
  rewrite imap_cons.
  assert (Hrest : imap ((fun i => school_item (k + i)) ∘ S) lines =
                  imap (fun i => school_item (S k + i)) lines).
  { apply imap_ext. intros i x _. simpl. f_equal. lia. }
  rewrite Hrest. simpl. rewrite Nat.add_0_r.
  destruct (school_item k line) as [item|] eqn:Hitem; simpl;
    [|exact (IH (S k))].
  apply NoDup_cons. split; [|exact (IH (S k))].
  intros [other [Hid Hother]]%list_elem_of_fmap.
  apply (school_items_from (S k)) in Hother as [j [line' [Hj Hother]]].
  apply school_item_facts in Hitem as [_ [_ [Hitem _]]].
  apply school_item_facts in Hother as [_ [_ [Hother _]]].
  rewrite Hitem, Hother in Hid. injection Hid as Hid.
  change (Js.index_toString k = Js.index_toString j) in Hid.
  unfold Js.index_toString in Hid. apply (inj pretty) in Hid. lia.
Qed.

Lemma searchData_school (tournaments : list CatalogTournament.t)
    (schoolsCsvText : string) :
  exists lines,
    searchData "school" tournaments schoolsCsvText =
      omap id (imap (fun i => school_item (0 + i)) lines).
Proof. unfold searchData. simpl. eauto. Qed.

Lemma searchData_elem (type : string) (tournaments : list CatalogTournament.t)
    (schoolsCsvText : string) (item : CatalogItem.t) :
  item ∈ searchData type tournaments schoolsCsvText ->
  (exists tournament, item = tournament_item tournament) \/
  (exists index line, school_item index line = Some item).
Proof.
  unfold searchData. intros [Hin|Hin]%elem_of_app.
  - left. destruct (_ || _); [|by apply elem_of_nil in Hin].
    apply list_elem_of_fmap in Hin as [t [-> _]]. eauto.
  - right. destruct (_ || _); [|by apply elem_of_nil in Hin].
    apply (school_items_from 0) in Hin as [j [line [_ Hitem]]]. eauto.
Qed.

(** X14. What is searched follows the [type] argument: with [tournament]
    only the catalog tournaments, one item each in catalog order; with
    [school] only schools; with any other value than these and [all],
    nothing at all. *)
Theorem searchData_by_type (type : string)
    (tournaments : list CatalogTournament.t) (schoolsCsvText : string) :
  (type = "tournament" ->
   searchData type tournaments schoolsCsvText =
     map tournament_item tournaments) /\
  (type = "school" ->
   forall item, item ∈ searchData type tournaments schoolsCsvText ->
                CatalogItem.type item = "school") /\
  (type = "all" ->
   take (length tournaments) (searchData type tournaments schoolsCsvText) =
     map tournament_item tournaments) /\
  (type <> "tournament" -> type <> "school" -> type <> "all" ->
   searchData type tournaments schoolsCsvText = []).
Proof.
  split; [|split; [|split]].
  - intros ->. unfold searchData. simpl. apply app_nil_r.
  - intros -> item Hin.
    destruct (searchData_school tournaments schoolsCsvText) as [lines Hs].
    rewrite Hs in Hin.
    apply school_items_from in Hin as [j [line [_ Hitem]]].
    by apply school_item_facts in Hitem as [Htype _].
  - intros ->. unfold searchData. simpl.
    rewrite take_app_length'; [done | by rewrite length_map].
  - intros H1 H2 H3. unfold searchData.
    destruct (String.eqb_spec type "tournament"); [done|].
    destruct (String.eqb_spec type "school"); [done|].
    by destruct (String.eqb_spec type "all").
Qed.

(** X15. Every item that is searched has a non-empty name (a tournament
    without title and file name is called Unknown Tournament, a line
    without school name gives no item), a type of tournament or school, and
    a search text in lower case, as the normalized query is. *)
Theorem searchData_items (type : string)
    (tournaments : list CatalogTournament.t) (schoolsCsvText : string)
    (item : CatalogItem.t) :
  item ∈ searchData type tournaments schoolsCsvText ->
  CatalogItem.name item <> EmptyString /\
  (CatalogItem.type item = "tournament" \/ CatalogItem.type item = "school") /\
  Js.toLowerCase (CatalogItem.searchText item) = CatalogItem.searchText item.
Proof.
  intros [[t ->]|[i [line Hitem]]]%searchData_elem.
  - destruct (tournament_item_facts t) as [Htype [Hname Htext]]. eauto.
  - apply school_item_facts in Hitem as [Htype [Hname [_ Htext]]]. eauto.
Qed.

(** X16. The school items carry pairwise distinct ids. *)
Theorem school_ids_distinct (tournaments : list CatalogTournament.t)
    (schoolsCsvText : string) :
  NoDup (map CatalogItem.id (searchData "school" tournaments schoolsCsvText)).
Proof.
  destruct (searchData_school tournaments schoolsCsvText) as [lines ->].
  apply school_ids_NoDup.
Qed.

(** X15, on a catalog entry without title or file name. *)
Lemma searchData_items_witness :
  CatalogItem.name
    (tournament_item
       {| CatalogTournament.title := None; CatalogTournament.filename := None;
          CatalogTournament.location := None; CatalogTournament.division := None;
          CatalogTournament.year := None; CatalogTournament.official := false;
          CatalogTournament.keywords := None |}) <> EmptyString.
Proof.
  apply (searchData_items "tournament"
           [ {| CatalogTournament.title := None; CatalogTournament.filename := None;
                CatalogTournament.location := None; CatalogTournament.division := None;
                CatalogTournament.year := None; CatalogTournament.official := false;
                CatalogTournament.keywords := None |} ]
           EmptyString).
  apply elem_of_cons. by left.
Defined.

(** ** Limits, order and counts of the search results *)

Lemma count_type_sum (acc : list (string * nat)) (type : string) :
  sum_list (map snd (count_type acc type)) = S (sum_list (map snd acc)).
Proof.
  induction acc as [|[t n] acc IH]; simpl; [done|].
  destruct (String.eqb t type); simpl; [done|]. rewrite IH. lia.
Qed.

Lemma count_type_keys (acc : list (string * nat)) (type : string) :
  NoDup (map fst acc) -> NoDup (map fst (count_type acc type)) /\
  forall t, t ∈ map fst (count_type acc type) -> t = type \/ t ∈ map fst acc.
Proof.
  induction acc as [|[t n] acc IH]; simpl; intros Hnd.
  - split; [by apply NoDup_singleton|].
    intros t' Ht%list_elem_of_singleton. by left.
  - apply NoDup_cons in Hnd as [Hnotin Hnd].
    destruct (String.eqb_spec t type) as [->|Hne]; simpl.
    + split; [by apply NoDup_cons|]. intros t' Ht. by right.
    + destruct (IH Hnd) as [IHnd IHin]. split.
      * apply NoDup_cons. split; [|done].
        intros [->|Hin]%IHin; [done | by destruct Hnotin].
      * intros t' [->|Ht]%elem_of_cons.
        -- right. apply elem_of_cons. by left.
        -- destruct (IHin t' Ht) as [->|Hin]; [by left|].
           right. apply elem_of_cons. by right.
Qed.

(** X17. In the answer of the catalog search the counts per type add up to
    the number of results, and each type is counted once. *)
Theorem typeBreakdown_counts (searchResults : list (FuseResult CatalogItem.t)) :
  let typeBreakdown :=
    fold_left (fun acc result =>
                 count_type acc (CatalogItem.type (item result)))
              searchResults [] in
  sum_list (map snd typeBreakdown) = length searchResults /\
  NoDup (map fst typeBreakdown).
Proof.
  intros typeBreakdown. subst typeBreakdown.
  assert (Hgen : forall acc,
    NoDup (map fst acc) ->
    sum_list (map snd
      (fold_left (fun acc result =>
                    count_type acc (CatalogItem.type (item result)))
                 searchResults acc)) =
      (sum_list (map snd acc) + length searchResults)%nat /\
    NoDup (map fst
      (fold_left (fun acc result =>
                    count_type acc (CatalogItem.type (item result)))
                 searchResults acc))).
  { induction searchResults as [|r rs IH]; intros acc Hnd; simpl.
    - split; [lia | done].
    - destruct (count_type_keys acc (CatalogItem.type (item r)) Hnd)
        as [Hnd' _].
      destruct (IH _ Hnd') as [Hsum Hkeys]. split; [|done].
      rewrite Hsum, count_type_sum. lia. }
  destruct (Hgen [] (NoDup_nil_2)) as [Hsum Hkeys]. by split.
Qed.

Section SearchResults.

Context {Yaml : Type}.
Variable yaml_load : string -> Result Yaml.
Variable new_Interpreter : Yaml -> Result Interpreter.t.
Variable store : Store.
Variable fuse_search :
  forall A : Type, FuseOptions A -> list A -> string -> list (FuseResult A).
Variable toFixed1 : Q -> string.
Variable remote : Remote.

Local Abbreviation load := (loadInterpreter yaml_load new_Interpreter store).
Local Abbreviation loadable := (loads yaml_load new_Interpreter store).
Local Abbreviation collect_from := (collect yaml_load new_Interpreter store).
Local Abbreviation step := (collect_one yaml_load new_Interpreter store).
Local Abbreviation catalog_results :=
  (catalog_searchResults fuse_search remote).
Local Abbreviation corpus_results :=
  (corpus_sortedResults yaml_load new_Interpreter store fuse_search).

Lemma catalog_results_slice (query type : string) (limit : Q)
    (results : list (FuseResult CatalogItem.t)) :
  catalog_results query type limit = inr results ->
  exists found, results = Js.slice0 found limit.
Proof.
  unfold catalog_searchResults.
  destruct fetch_both as [e|[r1 r2]]; simpl; [done|].
  destruct (ok r1); simpl; [|done]. destruct (ok r2); simpl; [|done].
  destruct (body r1); simpl; [done|]. destruct (body r2); simpl; [done|].
  intros [= <-]. eauto.
Qed.

Lemma search_results_within (query type : string) (limit : Q) :
  (0 <= limit)%Q ->
  (forall results,
     catalog_results query type limit = inr results ->
     (length results <= Z.to_nat (Qfloor limit))%nat) /\
  (length (corpus_results query type limit) <= Z.to_nat (Qfloor limit))%nat.
Proof.
  intros Hlimit. split.
  - intros results [found ->]%catalog_results_slice.
    by apply slice0_length_le.
  - unfold corpus_sortedResults. destruct (collect _ _ _ _ _).
    by apply slice0_length_le.
Qed.

(** X18. A search returns at most [limit] results (the integer part of a
    fractional limit) when the limit is not negative, in both variants. *)
Theorem search_results_within_limit (query type : string) (limit : Q) :
  (0 <= limit)%Q ->
  (forall results,
     catalog_searchResults fuse_search remote query type limit = inr results ->
     (length results <= Z.to_nat (Qfloor limit))%nat) /\
  (length (corpus_sortedResults yaml_load new_Interpreter store fuse_search
             query type limit) <= Z.to_nat (Qfloor limit))%nat.
Proof. apply search_results_within. Qed.

Lemma Qfloor_below_one (q : Q) : (0 <= q)%Q -> (q < 1)%Q -> Qfloor q = 0.
Proof.
  intros H0 H1.
  assert (0 <= Qfloor q).
  { rewrite <- (Qfloor_Z 0). by apply Qfloor_resp_le. }
  assert (Qfloor q < 1).
  { rewrite Zlt_Qlt. eapply Qle_lt_trans; [apply Qfloor_le | exact H1]. }
  lia.
Qed.

(** X19. A limit of zero (or a fraction below one) is not read as no limit:
    the search then reports that nothing was found, whatever matches. *)
Theorem search_limit_zero (query : string) (type : option string) (limit : Q) :
  (0 <= limit)%Q -> (limit < 1)%Q ->
  search_corpus yaml_load new_Interpreter store fuse_search query type
    (Some limit) =
    Text (tpl ["No ";
               (if String.eqb (arg_or "both" type) "both"
                then "tournaments or teams" else arg_or "both" type +:+ "s");
               " found matching "; quoted query]) /\
  (forall results,
     catalog_results query (arg_or "all" type) limit = inr results ->
     search_catalog (Yaml := Yaml) fuse_search toFixed1 remote query type
       (Some limit) =
       Text (tpl ["No ";
                  (if String.eqb (arg_or "all" type) "all"
                   then "tournaments or schools" else arg_or "all" type +:+ "s");
                  " found matching "; quoted query])).
Proof.
  intros H0 H1.
  destruct (search_results_within query (arg_or "both" type) limit H0)
    as [_ Hcorpus].
  destruct (search_results_within query (arg_or "all" type) limit H0)
    as [Hcatalog _].
  rewrite (Qfloor_below_one limit H0 H1) in Hcorpus, Hcatalog.
  split.
  - unfold search_corpus. simpl.
    destruct (corpus_sortedResults _ _ _ _ _ _ _) as [|r rs]; [done|].
    simpl in Hcorpus. lia.
  - intros results Hresults. unfold search_catalog. simpl.
    rewrite Hresults. specialize (Hcatalog results Hresults).
    destruct results; [done | simpl in Hcatalog; lia].
Qed.

(** X20. The corpus search returns its results in ascending order of
    score, best match first. *)
Theorem corpus_results_by_score (query type : string) (limit : Q) :
  Sorted (fun a b => (score a <= score b)%Q)
         (corpus_sortedResults yaml_load new_Interpreter store fuse_search
            query type limit).
Proof.
  unfold corpus_sortedResults. destruct (collect _ _ _ _ _) as [ts tms].
  destruct (slice0_take
              (Js.sort_by (fun a b : FuseResult CorpusItem.t =>
                             Qle_bool (score a) (score b))
                 (search_items fuse_search ts query ++
                  search_items fuse_search tms query)) limit) as [n ->].
  apply Sorted_take.
  apply (Sorted_weaken
           (fun a b : FuseResult CorpusItem.t =>
              Qle_bool (score a) (score b) = true)).
  - intros a b H. by apply Qle_bool_iff.
  - apply sort_by_Sorted. intros a b.
    destruct (Qlt_le_dec (score b) (score a)) as [Hlt|Hle].
    + right. apply Qle_bool_iff. by apply Qlt_le_weak.
    + left. by apply Qle_bool_iff.
Qed.

Lemma fold_collect_app (type : string) (tournaments : list string)
    (acc : list CorpusItem.t * list CorpusItem.t) :
  fold_left (step type) tournaments acc =
    ((acc.1 ++ (fold_left (step type) tournaments ([], [])).1)%list,
     (acc.2 ++ (fold_left (step type) tournaments ([], [])).2)%list).
Proof.
  revert acc. induction tournaments as [|t ts IH]; intros [a1 a2]; simpl.
  - by rewrite !app_nil_r.
  - rewrite IH. rewrite (IH (step type ([], []) t)).
    unfold collect_one. destruct (load t); simpl.
    + done.
    + by rewrite !app_assoc.
Qed.

Lemma collect_cons (type : string) (t : string) (ts : list string) :
  collect_from type (t :: ts) =
    (((step type ([], []) t).1 ++ (collect_from type ts).1)%list,
     ((step type ([], []) t).2 ++ (collect_from type ts).2)%list).
Proof. unfold collect. simpl. by rewrite fold_collect_app. Qed.

(** X21. With [type] both or tournament the corpus holds one tournament
    item per record that loads, in listing order and under the record's
    id; with [type] team it holds no tournament item, and with [type]
    tournament no team item. *)
Theorem corpus_tournament_items (tournaments : list string) :
  let collected type :=
    collect yaml_load new_Interpreter store type tournaments in
  let loading :=
    List.filter (loads yaml_load new_Interpreter store) tournaments in
  map CorpusItem.id (collected "both").1 = loading /\
  map CorpusItem.id (collected "tournament").1 = loading /\
  (collected "team").1 = [] /\
  (collected "tournament").2 = [].
Proof.
  cbv zeta.
  induction tournaments as [|t ts [IH1 [IH2 [IH3 IH4]]]]; [done|].
  rewrite !collect_cons. simpl. unfold loads, collect_one.
  destruct (load t) as [e|interpreter]; simpl.
  - exact (conj IH1 (conj IH2 (conj IH3 IH4))).
  - split; [f_equal; exact IH1|]. split; [f_equal; exact IH2|].
    exact (conj IH3 IH4).
Qed.

(** X22. A [type] other than tournament, team and both searches an empty
    corpus: the corpus search then reports the type in the plural as not
    found, whatever the query. *)
Theorem corpus_search_unknown_type (query type : string) (limit : option Q) :
  type <> "tournament" -> type <> "team" -> type <> "both" ->
  search_corpus yaml_load new_Interpreter store fuse_search query (Some type)
    limit =
    Text (tpl ["No "; type +:+ "s"; " found matching "; quoted query]).
Proof.
  intros H1 H2 H3.
  assert (Hempty : forall ts, collect_from type ts = ([], [])).
  { intros ts. unfold collect.
    generalize (@nil CorpusItem.t). intros n.
    assert (Hn : forall acc, fold_left (step type) ts acc = acc);
      [|by rewrite Hn].
    induction ts as [|t ts IH]; intros acc; simpl; [done|].
    rewrite IH. unfold collect_one.
    destruct (String.eqb_spec type "tournament"); [done|].
    destruct (String.eqb_spec type "team"); [done|].
    destruct (String.eqb_spec type "both"); [done|].
    destruct (load t); simpl; [done|]. rewrite !app_nil_r. by destruct acc. }
  unfold search_corpus, corpus_sortedResults. simpl.
  rewrite Hempty. simpl. rewrite slice0_nil.
  by destruct (String.eqb_spec type "both").
Qed.

End SearchResults.

(** X18, on the sample corpus: three teams match troy, a limit of 2 keeps
    two. *)
Lemma search_results_within_limit_witness :
  (length (corpus_sortedResults Demo.yaml_load Demo.new_Interpreter Demo.store
             Demo.matcher "troy" "both" (inject_Z 2)) <= 2)%nat.
Proof.
  assert (Hlimit : (0 <= inject_Z 2)%Q) by discriminate.
  apply (proj2 (search_results_within_limit Demo.yaml_load Demo.new_Interpreter
                  Demo.store Demo.matcher Demo.remote_up "troy" "both"
                  (inject_Z 2) Hlimit)).
Defined.

(** X19, on the sample corpus, where troy has matches. *)
Lemma search_limit_zero_witness :
  search_corpus Demo.yaml_load Demo.new_Interpreter Demo.store Demo.matcher
    "troy" None (Some (inject_Z 0)) =
    Text (tpl ["No "; "tournaments or teams"; " found matching "; quoted "troy"]).
Proof.
  assert (H0 : (0 <= inject_Z 0)%Q) by discriminate.
  assert (H1 : (inject_Z 0 < 1)%Q) by reflexivity.
  apply (proj1 (search_limit_zero Demo.yaml_load Demo.new_Interpreter
                  Demo.store Demo.matcher Demo.toFixed1 Demo.remote_up
                  "troy" None (inject_Z 0) H0 H1)).
Defined.

(** X22, with the [school] type of the catalog variant. *)
Lemma corpus_search_unknown_type_witness :
  search_corpus Demo.yaml_load Demo.new_Interpreter Demo.store Demo.matcher
    "troy" (Some "school") None =
    Text (tpl ["No "; "schools"; " found matching "; quoted "troy"]).
Proof.
  apply (corpus_search_unknown_type Demo.yaml_load Demo.new_Interpreter
           Demo.store Demo.matcher "troy" "school" None); discriminate.
Defined.

(** ** Normalizing a query twice *)

Lemma head_is_word_replace (s : string) :
  Js.head_is_word (Js.replace_team_word true s) = Js.head_is_word s.
Proof. by destruct s. Qed.

(** A whole word team at the head of the output was one in the input. *)
Lemma team_word_test_output (c : ascii) (s : string) :
  Js.startsWith (String c (Js.replace_team_word (Js.word_char c) s)) "team"
  && negb (Js.head_is_word
             (Js.drop_chars 4
                (String c (Js.replace_team_word (Js.word_char c) s)))) = true ->
  Js.startsWith (String c s) "team"
  && negb (Js.head_is_word (Js.drop_chars 4 (String c s))) = true.
Proof.
  intros [rest [Heq Hrest]]%team_word_test.
  apply team_word_test.
  change ("team" +:+ rest)
    with (String "t" (String "e" (String "a" (String "m" rest)))) in Heq.
  injection Heq as -> Heq. change (Js.word_char "t") with true in Heq.
  destruct s as [|d1 s]; [discriminate|].
  rewrite replace_team_word_after_word in Heq. injection Heq as -> Heq.
  change (Js.word_char "e") with true in Heq.
  destruct s as [|d2 s]; [discriminate|].
  rewrite replace_team_word_after_word in Heq. injection Heq as -> Heq.
  change (Js.word_char "a") with true in Heq.
  destruct s as [|d3 s]; [discriminate|].
  rewrite replace_team_word_after_word in Heq. injection Heq as -> Heq.
  change (Js.word_char "m") with true in Heq.
  exists s. split; [done|].
  by rewrite <- Heq, head_is_word_replace in Hrest.
Qed.

Lemma replace_team_word_idem (n : nat) :
  forall (s : string) (b : bool),
    (String.length s <= n)%nat ->
    Js.replace_team_word b (Js.replace_team_word b s) =
    Js.replace_team_word b s.
Proof.
  induction n as [|n IH]; intros [|c s] b Hlen; try done.
  { simpl in Hlen. lia. }
  destruct (negb b && (Js.startsWith (String c s) "team"
              && negb (Js.head_is_word (Js.drop_chars 4 (String c s)))))
    eqn:Htest.
  - apply andb_true_iff in Htest as [Hb Htest].
    destruct b; [done|].
    apply team_word_test in Htest as [rest [Heq Hrest]].
    rewrite Heq, (replace_team_word_match rest Hrest).
    rewrite replace_team_word_school. f_equal. apply IH.
    apply (f_equal String.length) in Heq. rewrite length_append in Heq.
    simpl in Heq, Hlen. lia.
  - rewrite (replace_team_word_no_match b c s Htest).
    rewrite replace_team_word_no_match.
    + f_equal. apply IH. simpl in Hlen. lia.
    + destruct b; [done|]. cbn [negb andb] in Htest |- *.
      apply not_true_is_false. intros Hout.
      apply team_word_test_output in Hout. congruence.
Qed.

(** The bytes of a character beyond ASCII are no letters of the word team
    and no word characters: the scan copies them. *)
Lemma replace_team_word_high (b : bool) (d : ascii) (s : string) :
  (128 <=? N_of_ascii d)%N = true ->
  Js.replace_team_word b (String d s) =
    String d (Js.replace_team_word false s).
Proof.
  intros Hd. cbn [Js.replace_team_word].
  destruct d as [[] [] [] [] [] [] [] []]; try discriminate Hd;
    by rewrite andb_false_r.
Qed.

Lemma replace_team_word_high_inv (b : bool) (d : ascii) (s y : string) :
  (128 <=? N_of_ascii d)%N = true ->
  Js.replace_team_word b s = String d y ->
  exists s', s = String d s' /\ y = Js.replace_team_word false s'.
Proof.
  intros Hd Hs. destruct s as [|c s']; [done|].
  destruct (128 <=? N_of_ascii c)%N eqn:Hc.
  - rewrite replace_team_word_high in Hs by done.
    injection Hs as -> <-. eauto.
  - cbn [Js.replace_team_word] in Hs.
    destruct (negb b && Js.startsWith (String c s') "team"
              && negb (Js.head_is_word (Js.drop_chars 4 (String c s')))).
    + destruct s' as [|? [|? [|? ?]]]; try done.
      rewrite append_cons in Hs. injection Hs as <- _. done.
    + injection Hs as -> _. congruence.
Qed.

(** The scan copies a run of bytes beyond ASCII, and a run of such bytes
    at the head of its output was at the head of its input. *)
Lemma replace_team_word_run_inv (tail s y : string) (b : bool) :
  Js.all_chars (fun e => (128 <=? N_of_ascii e)%N) tail = true ->
  Js.replace_team_word b s = tail +:+ y ->
  tail <> EmptyString ->
  exists s', s = tail +:+ s' /\ y = Js.replace_team_word false s'.
Proof.
  revert s b. induction tail as [|d tail IH]; intros s b Hhigh Hs Hne; [done|].
  simpl in Hhigh. apply andb_true_iff in Hhigh as [Hd Hhigh].
  rewrite append_cons in Hs.
  apply replace_team_word_high_inv in Hs as (s1 & -> & Hy); [|done].
  destruct tail as [|d' tail].
  - exists s1. rewrite append_nil_l in Hy. by rewrite Hy.
  - symmetry in Hy. apply IH in Hy as (s' & -> & Hy); [|done..].
    exists s'. by rewrite Hy.
Qed.

(** The scan keeps a string well-formed or not as it was, and brings in
    nothing but the letters of the word school. *)
Lemma replace_team_word_decode (n : nat) :
  forall (s : string) (b : bool) (points' : list N),
    (String.length s <= n)%nat ->
    Js.utf8_decode (Js.replace_team_word b s) = Some points' ->
    exists points,
      Js.utf8_decode s = Some points /\
      (Forall (fun d => lower_case_stable d = true) points ->
       Forall (fun d => lower_case_stable d = true) points').
Proof.
  induction n as [|n IH]; intros s b points' Hlen Hdec.
  { destruct s; [|simpl in Hlen; lia]. injection Hdec as <-. by exists []. }
  destruct s as [|c s]; [injection Hdec as <-; by exists []|].
  simpl in Hlen.
  destruct (128 <=? N_of_ascii c)%N eqn:Hc.
  - rewrite replace_team_word_high in Hdec by done.
    destruct points' as [|p points'];
      [by apply utf8_decode_nil_inv in Hdec|].
    pose proof (utf8_decode_scalar _ _ Hdec) as Hscalar.
    apply Forall_cons in Hscalar as [Hp _].
    apply utf8_decode_cons_inv in Hdec as (rest & Henc & Hrest).
    symmetry in Henc.
    destruct (utf8_encode_one_high p rest c _ Hp Henc Hc)
      as (tail & Htail & Hne & Hhigh).
    rewrite Htail in Henc. injection Henc as Henc.
    symmetry in Henc.
    apply replace_team_word_run_inv in Henc as (s' & -> & ->); [|done..].
    destruct (IH s' false points') as (points & Hs' & Hstable); [|done|].
    { rewrite length_append in Hlen.
      destruct tail; [done|]. simpl in Hlen. lia. }
    exists (p :: points). split.
    + rewrite <- Htail, utf8_decode_encode_one by done. by rewrite Hs'.
    + intros [Hp' Hpoints]%Forall_cons. constructor; [done | by apply Hstable].
  - apply N.leb_gt in Hc.
    destruct (negb b && (Js.startsWith (String c s) "team"
                && negb (Js.head_is_word (Js.drop_chars 4 (String c s)))))
      eqn:Htest.
    + apply andb_true_iff in Htest as [Hb Htest].
      destruct b; [done|].
      apply team_word_test in Htest as [rest [Heq Hrest]].
      rewrite Heq in Hdec |- *.
      rewrite (replace_team_word_match rest Hrest) in Hdec.
      change ("school" +:+ Js.replace_team_word true rest)
        with (String "s" (String "c" (String "h" (String "o" (String "o"
                (String "l" (Js.replace_team_word true rest))))))) in Hdec.
      rewrite !utf8_decode_low in Hdec by done.
      change ("team" +:+ rest)
        with (String "t" (String "e" (String "a" (String "m" rest)))).
      rewrite !utf8_decode_low by done.
      destruct (Js.utf8_decode (Js.replace_team_word true rest))
        as [points''|] eqn:Hrest'; [|done].
      injection Hdec as <-.
      destruct (IH rest true points'') as (points & Hpoints & Hstable);
        [|done|].
      { apply (f_equal String.length) in Heq. rewrite length_append in Heq.
        simpl in Heq. lia. }
      rewrite Hpoints. eexists. split; [done|].
      intros Hall. repeat (apply Forall_cons in Hall as [_ Hall]).
      repeat (constructor; [by vm_compute|]). by apply Hstable.
    + rewrite (replace_team_word_no_match b c s Htest) in Hdec.
      rewrite utf8_decode_low in Hdec |- * by by apply N.ltb_lt.
      destruct (Js.utf8_decode (Js.replace_team_word (Js.word_char c) s))
        as [points''|] eqn:Hrest'; [|done].
      injection Hdec as <-.
      destruct (IH s (Js.word_char c) points'') as (points & Hpoints & Hstable);
        [lia|done|].
      rewrite Hpoints. eexists. split; [done|].
      intros [Hc' Hall]%Forall_cons. constructor; [done | by apply Hstable].
Qed.

Lemma replace_team_word_lower (b : bool) (query : string) :
  Js.toLowerCase (Js.replace_team_word b (Js.toLowerCase query)) =
  Js.replace_team_word b (Js.toLowerCase query).
Proof.
  apply toLowerCase_fixed. intros points' Hdec.
  destruct (replace_team_word_decode _ _ _ _ (le_n _) Hdec)
    as (points & Hpoints & Hstable).
  by apply Hstable, (toLowerCase_decode query).
Qed.

(** X23. Normalizing is idempotent: a query that is already normalized is
    left as it is, so the catalog search sees the same query when its own
    normal form is sent again. *)
Theorem normalizedQuery_idempotent (query : string) :
  normalizedQuery (normalizedQuery query) = normalizedQuery query.
Proof.
  unfold normalizedQuery. rewrite replace_team_word_lower.
  by apply (replace_team_word_idem (String.length (Js.toLowerCase query))).
Qed.
